(** * hd-tts: the job-dispatch layer of the VietVoice TTS server

    A shallow embedding of [backend/shared/redis_client.py],
    [backend/shared/auth.py], [backend/gateway/main.py] and
    [backend/worker/main.py].

    - The Redis server is a finite map from keys to values (strings with an
      optional expiry, lists, hashes), threaded through a small state and
      exception monad: a Python exception leaves the writes made before it
      in place, exactly as the server does.
    - JSON dictionaries are finite maps from field names to scalar JSON
      values; equality of two such maps is field-wise equality.
    - Everything the Python code takes from a library or from the process
      environment (float arithmetic, [json], [hashlib], [base64],
      [JOB_TIMEOUT]) is the interface [Platform]; what a theorem needs to
      know about it is a hypothesis of that theorem. *)

From stdpp Require Import gmap strings list pretty.
From Stdlib Require Import ZArith QArith Qround Ascii.

Local Open Scope Z_scope.
Local Open Scope string_scope.
Local Open Scope list_scope.

(* ===================================================================== *)
(** * Python values *)
(* ===================================================================== *)

(** What [json.loads] can put in a field of the dictionaries this program
    stores: [None], an [int], a [float] or a [str]. *)
Inductive jval (float : Type) : Type :=
  | JNull
  | JInt (z : Z)
  | JFloat (f : float)
  | JStr (s : string).

Arguments JNull {float}.
Arguments JInt {float} z.
Arguments JFloat {float} f.
Arguments JStr {float} s.

Abbreviation bytes := (list Byte.byte).

(** The libraries and the process environment. *)
Class Platform := {
  float : Type;
  fzero : float;                          (* 0.0 *)
  fthree : float;                         (* 3.0 *)
  fadd : float → float → float;
  fsub : float → float → float;
  fmul : float → float → float;
  fdiv : float → float → float;
  float_of_int : Z → float;               (* int operand of a float operation *)
  fis_zero : float → bool;                (* [not x] *)
  fle : float → float → bool;             (* [x <= y] *)
  round3 : float → float;                 (* [round(x, 3)] *)
  frepr : float → string;                 (* [str(x)] *)
  json_dumps : gmap string (jval float) → string;
  json_loads : string → option (gmap string (jval float));
  sha256_hexdigest : string → string;     (* [hashlib.sha256(s.encode()).hexdigest()] *)
  b64encode : bytes → string;
  b64decode : string → option bytes;      (* [None]: [binascii.Error] *)
  JOB_TIMEOUT : Z;                        (* [int(os.getenv("JOB_TIMEOUT", "120"))] *)
}.

Abbreviation dict := (gmap string (jval float)).

(** Python exceptions: the class name and [str(e)], which is all the worker
    looks at, and FastAPI's [HTTPException]. *)
Inductive exn : Type :=
  | PyError (type_name : string) (msg : string)
  | HTTPException (status_code : Z) (detail : string).

Inductive outcome (A : Type) : Type :=
  | Ret (a : A)
  | Raise (e : exn).

Arguments Ret {A} a.
Arguments Raise {A} e.

(* ===================================================================== *)
(** * The Redis server *)
(* ===================================================================== *)

Inductive rval : Type :=
  | RString (s : string) (ex : option Z)
  | RList (l : list string)
  | RHash (h : gmap string Z).

(** [db] is the keyspace. [sets] is a ghost trace: every [SET] the server
    has executed, oldest first, as (key, value). *)
Record redis : Type := Redis {
  db : gmap string rval;
  sets : list (string * string);
}.

Definition M (A : Type) : Type := redis → outcome A * redis.

Definition ret {A} (a : A) : M A := λ r, (Ret a, r).

Definition raise {A} (e : exn) : M A := λ r, (Raise e, r).

Definition bind {A B} (m : M A) (k : A → M B) : M B :=
  λ r, match m r with
       | (Ret a, r') => k a r'
       | (Raise e, r') => (Raise e, r')
       end.

(** [try: m  except Exception as e: h e] *)
Definition try_except {A} (m : M A) (h : exn → M A) : M A :=
  λ r, match m r with
       | (Ret a, r') => (Ret a, r')
       | (Raise e, r') => h e r'
       end.

Notation "'let*' x := m 'in' k" := (bind m (λ x, k))
  (at level 10, x name, m at level 100, k at level 200).

Definition WRONGTYPE : exn :=
  PyError "ResponseError"
    "WRONGTYPE Operation against a key holding the wrong kind of value".

Definition redis_lpush (key value : string) : M unit :=
  λ r, match db r !! key with
       | None => (Ret (), Redis (<[key := RList [value]]> (db r)) (sets r))
       | Some (RList l) =>
           (Ret (), Redis (<[key := RList (value :: l)]> (db r)) (sets r))
       | Some _ => (Raise WRONGTYPE, r)
       end.

(** The tail element of a non-empty list and what is in front of it. *)
Fixpoint split_last (l : list string) : option (list string * string) :=
  match l with
  | [] => None
  | [x] => Some ([], x)
  | x :: l' =>
      match split_last l' with
      | Some (init, t) => Some (x :: init, t)
      | None => None
      end
  end.

(** [BRPOP key timeout]: the tail element, or [None] once the timeout has
    passed on an empty list (no producer runs inside the call). A list that
    becomes empty is removed from the keyspace. *)
Definition redis_brpop (key : string) (timeout : Z) : M (option string) :=
  λ r, match db r !! key with
       | None => (Ret None, r)
       | Some (RList l) =>
           match split_last l with
           | None => (Ret None, r)
           | Some ([], x) => (Ret (Some x), Redis (delete key (db r)) (sets r))
           | Some (init, x) =>
               (Ret (Some x), Redis (<[key := RList init]> (db r)) (sets r))
           end
       | Some _ => (Raise WRONGTYPE, r)
       end.

Definition redis_set (key value : string) (ex : option Z) : M unit :=
  λ r, (Ret (), Redis (<[key := RString value ex]> (db r))
                      (sets r ++ [(key, value)])).

Definition redis_get (key : string) : M (option string) :=
  λ r, match db r !! key with
       | None => (Ret None, r)
       | Some (RString s _) => (Ret (Some s), r)
       | Some _ => (Raise WRONGTYPE, r)
       end.

Definition redis_delete (key : string) : M Z :=
  λ r, match db r !! key with
       | None => (Ret 0, r)
       | Some _ => (Ret 1, Redis (delete key (db r)) (sets r))
       end.

Definition redis_llen (key : string) : M Z :=
  λ r, match db r !! key with
       | None => (Ret 0, r)
       | Some (RList l) => (Ret (Z.of_nat (length l)), r)
       | Some _ => (Raise WRONGTYPE, r)
       end.

(** [LRANGE key 0 -1] *)
Definition redis_lrange_all (key : string) : M (list string) :=
  λ r, match db r !! key with
       | None => (Ret [], r)
       | Some (RList l) => (Ret l, r)
       | Some _ => (Raise WRONGTYPE, r)
       end.

(** [scan_iter(prefix + "*")]: the keys that start with [prefix]. *)
Definition redis_scan_iter (prefix : string) : M (list string) :=
  λ r, (Ret (filter (λ k, String.prefix prefix k = true)
                    (elements (dom (db r)))), r).

Definition redis_hincrby (key field : string) (amount : Z) : M unit :=
  λ r, match db r !! key with
       | None => (Ret (), Redis (<[key := RHash {[field := amount]}]> (db r)) (sets r))
       | Some (RHash h) =>
           (Ret (), Redis (<[key := RHash (<[field := default 0 (h !! field) + amount]> h)]>
                             (db r)) (sets r))
       | Some _ => (Raise WRONGTYPE, r)
       end.

(* ===================================================================== *)
(** * Python helpers *)
(* ===================================================================== *)

Section WithPlatform.
Context `{Platform}.

(** [str(v)], also what an f-string puts in place of [{v}]. *)
Definition fstr (v : jval float) : string :=
  match v with
  | JNull => "None"
  | JInt z => pretty z
  | JFloat f => frepr f
  | JStr s => s
  end.

(** [bool(v)] for the result of [d.get(k)]. *)
Definition truthy (v : option (jval float)) : bool :=
  match v with
  | None | Some JNull => false
  | Some (JInt z) => negb (Z.eqb z 0)
  | Some (JFloat f) => negb (fis_zero f)
  | Some (JStr s) => negb (String.eqb s "")
  end.

(** [v == s] for a string [s], where [v] is the result of [d.get(k)]. *)
Definition eq_str (v : option (jval float)) (s : string) : bool :=
  match v with
  | Some (JStr s') => String.eqb s' s
  | _ => false
  end.

(** [d[k]] *)
Definition getitem (d : dict) (k : string) : M (jval float) :=
  match d !! k with
  | Some v => ret v
  | None => raise (PyError "KeyError" ("'" +:+ k +:+ "'"))
  end.

(** [d.get(k)] as Python sees it: a missing key reads as [None]. *)
Definition get_or_null (d : dict) (k : string) : jval float :=
  default JNull (d !! k).

Definition loads (s : string) : M dict :=
  match json_loads s with
  | Some d => ret d
  | None => raise (PyError "JSONDecodeError" "Expecting value")
  end.

(** A value handed to redis-py's [set]: [str], [int] and [float] are
    encoded, [None] is refused. *)
Definition redis_encode (v : jval float) : M string :=
  match v with
  | JNull => raise (PyError "DataError" "Invalid input of type: 'NoneType'")
  | _ => ret (fstr v)
  end.

(* ===================================================================== *)
(** * shared/redis_client.py *)
(* ===================================================================== *)

Definition JOBS_QUEUE_HIGH : string := "tts:jobs:high".
Definition JOBS_QUEUE_FAST : string := "tts:jobs:fast".
Definition RESULT_PREFIX : string := "tts:result:".
Definition STATUS_PREFIX : string := "tts:status:".
Definition WORKER_PREFIX : string := "tts:worker:".
Definition METRICS_KEY : string := "tts:metrics".
Definition QUALITY_HIGH : string := "high".
Definition QUALITY_FAST : string := "fast".
Definition RESULT_TTL : Z := 300.
Definition WORKER_HEARTBEAT_TTL : Z := 60.

Definition _get_queue_key (quality : string) : string :=
  if String.eqb quality QUALITY_FAST then JOBS_QUEUE_FAST else JOBS_QUEUE_HIGH.

Definition enqueue_job (job_data : dict) (quality : string) : M unit :=
  let job_json := json_dumps job_data in
  let queue_key := _get_queue_key quality in
  let* _ := redis_lpush queue_key job_json in
  let* job_id := getitem job_data "job_id" in
  redis_set (STATUS_PREFIX +:+ fstr job_id) "pending" (Some RESULT_TTL).

Definition dequeue_job (quality : string) (timeout : Z) : M (option dict) :=
  let queue_key := _get_queue_key quality in
  let* result := redis_brpop queue_key timeout in
  match result with
  | Some job_json => let* job := loads job_json in ret (Some job)
  | None => ret None
  end.

Definition set_job_status (job_id status : string) : M unit :=
  redis_set (STATUS_PREFIX +:+ job_id) status (Some RESULT_TTL).

Definition get_job_status (job_id : string) : M (option string) :=
  redis_get (STATUS_PREFIX +:+ job_id).

Definition store_result (job_id : string) (result_data : dict) : M unit :=
  let result_json := json_dumps result_data in
  let* _ := redis_set (RESULT_PREFIX +:+ job_id) result_json (Some RESULT_TTL) in
  let* status := redis_encode (default (JStr "completed") (result_data !! "status")) in
  redis_set (STATUS_PREFIX +:+ job_id) status (Some RESULT_TTL).

Definition get_result (job_id : string) : M (option dict) :=
  let* result_json := redis_get (RESULT_PREFIX +:+ job_id) in
  match result_json with
  | None | Some "" => ret None
  | Some s => let* d := loads s in ret (Some d)
  end.

(** [quality] is [None] when the argument is left out; an empty string is
    as false as [None]. *)
Definition get_queue_size (quality : option string) : M Z :=
  match quality with
  | None | Some "" =>
      let* h := redis_llen JOBS_QUEUE_HIGH in
      let* f := redis_llen JOBS_QUEUE_FAST in
      ret (h + f)
  | Some q => redis_llen (_get_queue_key q)
  end.

(** The loop of [get_queue_position] over [enumerate(reversed(jobs))],
    entered at index [i]. *)
Fixpoint position_scan (job_id : string) (jobs : list string) (i : Z) : M Z :=
  match jobs with
  | [] => ret (-1)
  | job_json :: rest =>
      let* job := loads job_json in
      if eq_str (job !! "job_id") job_id then ret i
      else position_scan job_id rest (i + 1)
  end.

Definition get_queue_position (job_id : string) (quality : string) : M Z :=
  let queue_key := _get_queue_key quality in
  let* jobs := redis_lrange_all queue_key in
  position_scan job_id (rev jobs) 0.

Definition register_worker (worker_id quality : string) (timestamp : float) : M unit :=
  let worker_data :=
    json_dumps (<["timestamp" := JFloat timestamp]> {["quality" := JStr quality]}) in
  redis_set (WORKER_PREFIX +:+ worker_id) worker_data (Some WORKER_HEARTBEAT_TTL).

Definition unregister_worker (worker_id : string) : M unit :=
  let* _ := redis_delete (WORKER_PREFIX +:+ worker_id) in ret ().

(** [s[n:]] *)
Fixpoint string_drop (n : nat) (s : string) : string :=
  match n, s with
  | O, _ | _, EmptyString => s
  | S n', String _ s' => string_drop n' s'
  end.

(** [s.replace(old, "")]: every occurrence of [old], left to right. [n]
    bounds the number of steps; the length of [s] is enough. *)
Fixpoint remove_all (n : nat) (old s : string) : string :=
  match n, s with
  | O, _ | _, EmptyString => s
  | S n', String c s' =>
      if (negb (String.eqb old "") && String.prefix old s)%bool
      then remove_all n' old (string_drop (String.length old) s)
      else String c (remove_all n' old s')
  end.

Definition get_active_workers : M (list string) :=
  let* keys := redis_scan_iter WORKER_PREFIX in
  ret (map (λ key, remove_all (String.length key) WORKER_PREFIX key) keys).

Definition increment_metric (metric : string) (amount : Z) : M unit :=
  redis_hincrby METRICS_KEY metric amount.

(* ===================================================================== *)
(** * shared/auth.py *)
(* ===================================================================== *)

Definition KEY_PREFIX : string := "vvtts_".
Definition KEY_LENGTH : nat := 32.
Definition APIKEY_PREFIX : string := "apikey:".

(** The dataclass [APIKeyInfo]. Python does not check the annotations of a
    dataclass: [validate_key] puts in whatever the stored JSON holds. *)
Record APIKeyInfo : Type := mkAPIKeyInfo {
  key_id : jval float;
  name : jval float;
  created_at : jval float;
  requests_count : jval float;
  audio_seconds : jval float;
}.

(** [s[-n:]] for [n > 0] *)
Definition string_last (n : nat) (s : string) : string :=
  string_drop (String.length s - n) s.

(** [token] is the draw [secrets.token_hex(KEY_LENGTH // 2)]. *)
Definition generate_api_key (token : string) : string * string :=
  let full_key := KEY_PREFIX +:+ token in
  let key_id := string_last 8 token in
  (full_key, key_id).

Definition get_key_id_from_full_key (full_key : string) : option string :=
  if (String.eqb full_key "" || negb (String.prefix KEY_PREFIX full_key))%bool
  then None
  else
    let token := string_drop (String.length KEY_PREFIX) full_key in
    if negb (Nat.eqb (String.length token) KEY_LENGTH) then None
    else Some (string_last 8 token).

Definition _hash_key (full_key : string) : string := sha256_hexdigest full_key.

(** [now] is the reading of [time.time()]. *)
Definition create_key (name : string) (token : string) (now : float)
  : M (string * APIKeyInfo) :=
  let '(full_key, key_id) := generate_api_key token in
  let key_data : dict :=
    <["audio_seconds" := JFloat fzero]>
    (<["requests_count" := JInt 0]>
    (<["created_at" := JFloat now]>
    (<["name" := JStr name]>
    (<["full_key_hash" := JStr (_hash_key full_key)]>
    {["key_id" := JStr key_id]})))) in
  let* _ := redis_set (APIKEY_PREFIX +:+ key_id) (json_dumps key_data) None in
  ret (full_key,
       mkAPIKeyInfo (JStr key_id) (JStr name) (JFloat now) (JInt 0) (JFloat fzero)).

Definition validate_key (full_key : string) : M (option APIKeyInfo) :=
  match get_key_id_from_full_key full_key with
  | None | Some "" => ret None
  | Some key_id =>
      let* key_data_json := redis_get (APIKEY_PREFIX +:+ key_id) in
      match key_data_json with
      | None | Some "" => ret None
      | Some key_data_json =>
          let* key_data := loads key_data_json in
          if negb (eq_str (key_data !! "full_key_hash") (_hash_key full_key))
          then ret None
          else
            let* key_id := getitem key_data "key_id" in
            let* name := getitem key_data "name" in
            let* created_at := getitem key_data "created_at" in
            ret (Some (mkAPIKeyInfo key_id name created_at
                         (default (JInt 0) (key_data !! "requests_count"))
                         (default (JFloat fzero) (key_data !! "audio_seconds"))))
      end
  end.

Definition delete_key (key_id : string) : M bool :=
  let* result := redis_delete (APIKEY_PREFIX +:+ key_id) in
  ret (0 <? result)%Z.

(** [a + b] on JSON scalars. *)
Definition py_add (a b : jval float) : M (jval float) :=
  match a, b with
  | JInt x, JInt y => ret (JInt (x + y))
  | JFloat x, JFloat y => ret (JFloat (fadd x y))
  | JInt x, JFloat y => ret (JFloat (fadd (float_of_int x) y))
  | JFloat x, JInt y => ret (JFloat (fadd x (float_of_int y)))
  | JStr x, JStr y => ret (JStr (x +:+ y))
  | _, _ => raise (PyError "TypeError" "unsupported operand type(s) for +")
  end.

Definition increment_usage (key_id : string) (audio_seconds : float) : M unit :=
  let redis_key := APIKEY_PREFIX +:+ key_id in
  let* key_data_json := redis_get redis_key in
  match key_data_json with
  | None | Some "" => ret ()
  | Some key_data_json =>
      let* key_data := loads key_data_json in
      let* rc := py_add (default (JInt 0) (key_data !! "requests_count")) (JInt 1) in
      let key_data := <["requests_count" := rc]> key_data in
      let* secs := py_add (default (JFloat fzero) (key_data !! "audio_seconds"))
                     (JFloat audio_seconds) in
      let key_data := <["audio_seconds" := secs]> key_data in
      redis_set redis_key (json_dumps key_data) None
  end.

(** What [is_localhost_request] reads of a FastAPI [Request]:
    [request.client.host] ([None] without a client) and the
    [X-Forwarded-For] header ([None] when absent). *)
Record Request : Type := mkRequest {
  client_host : option string;
  x_forwarded_for : option string;
}.

Definition localhost_ips (s : string) : bool :=
  (String.eqb s "127.0.0.1" || String.eqb s "::1" || String.eqb s "localhost")%bool.

(** [s.split(",")[0]] *)
Fixpoint before_comma (s : string) : string :=
  match s with
  | EmptyString => EmptyString
  | String c s' => if Ascii.eqb c ","%char then EmptyString else String c (before_comma s')
  end.

(** [c.isspace()] for a character of a header value (code point < 256). *)
Definition isspace (c : ascii) : bool :=
  let n := nat_of_ascii c in
  ((9 <=? n)%nat && (n <=? 13)%nat || (28 <=? n)%nat && (n <=? 32)%nat
   || (n =? 133)%nat || (n =? 160)%nat)%bool.

Fixpoint lstrip (s : string) : string :=
  match s with
  | EmptyString => EmptyString
  | String c s' => if isspace c then lstrip s' else s
  end.

(** [s.strip()] *)
Definition strip (s : string) : string :=
  String.rev (lstrip (String.rev (lstrip s))).

Definition is_localhost_request (request : Request) : bool :=
  if match client_host request with
     | Some h => localhost_ips h
     | None => false
     end
  then true
  else
    let forwarded_for := default "" (x_forwarded_for request) in
    if negb (String.eqb forwarded_for "") then
      let original_ip := strip (before_comma forwarded_for) in
      if localhost_ips original_ip then true else false
    else false.

(* ===================================================================== *)
(** * shared/schemas.py *)
(* ===================================================================== *)

Inductive JobStatus : Type := PENDING | PROCESSING | COMPLETED | ERROR.

(** [status.value] *)
Definition JobStatus_value (st : JobStatus) : string :=
  match st with
  | PENDING => "pending"
  | PROCESSING => "processing"
  | COMPLETED => "completed"
  | ERROR => "error"
  end.

(** [JobStatus(s)] *)
Definition JobStatus_of (s : string) : M JobStatus :=
  if String.eqb s "pending" then ret PENDING
  else if String.eqb s "processing" then ret PROCESSING
  else if String.eqb s "completed" then ret COMPLETED
  else if String.eqb s "error" then ret ERROR
  else raise (PyError "ValueError" ("'" +:+ s +:+ "' is not a valid JobStatus")).

(** A [TTSRequest] that has passed pydantic's validation. *)
Record TTSRequest : Type := mkTTSRequest {
  text : string;
  gender : option string;
  area : option string;
  emotion : option string;
  speed : float;
  quality : string;
  reference_audio : option string;
  reference_text : option string;
  trim_audio_to : option float;
}.

Definition opt_str (o : option string) : jval float :=
  match o with Some s => JStr s | None => JNull end.

Definition opt_float (o : option float) : jval float :=
  match o with Some f => JFloat f | None => JNull end.

(** [TTSJob(job_id=..., text=req.text, ..., timeout=timeout).model_dump()],
    with [created_at] the reading of [time.time()] taken by the default
    factory. *)
Definition TTSJob_model_dump (job_id : string) (req : TTSRequest)
    (created_at : float) (timeout : Z) : dict :=
  <["job_id" := JStr job_id]>
  (<["text" := JStr (text req)]>
  (<["gender" := opt_str (gender req)]>
  (<["area" := opt_str (area req)]>
  (<["emotion" := opt_str (emotion req)]>
  (<["speed" := JFloat (speed req)]>
  (<["quality" := JStr (quality req)]>
  (<["reference_audio" := opt_str (reference_audio req)]>
  (<["reference_text" := opt_str (reference_text req)]>
  (<["trim_audio_to" := opt_float (trim_audio_to req)]>
  (<["created_at" := JFloat created_at]>
  {["timeout" := JInt timeout]})))))))))).

(** [TTSAsyncResponse]; the fields are [job_id], [status],
    [queue_position] and [estimated_wait]. *)
Record TTSAsyncResponse : Type := mkTTSAsyncResponse {
  async_job_id : string;
  async_status : JobStatus;
  async_queue_position : Z;
  async_estimated_wait : option float;
}.

(** [JobStatusResponse]; the fields are [job_id], [status],
    [queue_position], [audio_url], [generation_time] and [error]. *)
Record JobStatusResponse : Type := mkJobStatusResponse {
  st_job_id : string;
  st_status : JobStatus;
  st_queue_position : option Z;
  st_audio_url : option string;
  st_generation_time : option (jval float);
  st_error : option (jval float);
}.

(** [fastapi.responses.Response] *)
Record Response : Type := mkResponse {
  content : bytes;
  media_type : string;
  headers : list (string * string);
}.

(* ===================================================================== *)
(** * gateway/main.py *)
(* ===================================================================== *)

Definition AVG_GENERATION_TIME : float := fthree.

(** [a or b] on two optional strings *)
Definition str_or (a b : option string) : option string :=
  match a with
  | None | Some "" => b
  | Some _ => a
  end.

Definition verify_api_key (request : Request) (x_api_key api_key : option string)
  : M (option APIKeyInfo) :=
  if is_localhost_request request then ret None
  else
    match str_or x_api_key api_key with
    | None | Some "" =>
        raise (HTTPException 401
          "API key required. Provide via X-API-Key header or api_key query parameter.")
    | Some key =>
        let* key_info := validate_key key in
        match key_info with
        | None => raise (HTTPException 401 "Invalid API key.")
        | Some info => ret (Some info)
        end
    end.

(** [POST /synthesize/async]. [job_id] is the draw [str(uuid.uuid4())] and
    [now] the reading of [time.time()] that stamps the job. *)
Definition synthesize_async (req : TTSRequest) (api_key_info : option APIKeyInfo)
    (job_id : string) (now : float) : M TTSAsyncResponse :=
  let job := TTSJob_model_dump job_id req now JOB_TIMEOUT in
  let* _ := enqueue_job job (quality req) in
  let* queue_position := get_queue_size (Some (quality req)) in
  let* active := get_active_workers in
  let workers := Z.of_nat (length active) in
  let estimated_wait :=
    if (0 <? workers)%Z
    then Some (fmul (fdiv (float_of_int queue_position) (float_of_int workers))
                 AVG_GENERATION_TIME)
    else None in
  let* _ := match api_key_info with
            | Some info => increment_usage (fstr (key_id info)) fzero
            | None => ret ()
            end in
  ret (mkTTSAsyncResponse job_id PENDING queue_position estimated_wait).

(** [GET /job/{job_id}]; the source calls it [get_job_status], as it does
    the method of [RedisClient]. [get_queue_position] is called without a
    quality and so with its default. *)
Definition get_job_status_endpoint (job_id : string) : M JobStatusResponse :=
  let* status := get_job_status job_id in
  match status with
  | None => raise (HTTPException 404 "Job not found")
  | Some status =>
      let* result := get_result job_id in
      let* st := JobStatus_of status in
      let response := mkJobStatusResponse job_id st None None None None in
      let has_result :=
        match result with
        | Some d => negb (bool_decide (d = ∅))
        | None => false
        end in
      if String.eqb status "pending" then
        let* pos := get_queue_position job_id "high" in
        ret (mkJobStatusResponse job_id st (Some pos) None None None)
      else if (String.eqb status "completed" && has_result)%bool then
        ret (mkJobStatusResponse job_id st None
               (Some ("/job/" +:+ job_id +:+ "/audio"))
               (result ≫= (λ d, d !! "generation_time")) None)
      else if (String.eqb status "error" && has_result)%bool then
        ret (mkJobStatusResponse job_id st None None None
               (result ≫= (λ d, d !! "error")))
      else ret response
  end.

(** [base64.b64decode(v)] *)
Definition py_b64decode (v : jval float) : M bytes :=
  match v with
  | JStr s =>
      match b64decode s with
      | Some bs => ret bs
      | None => raise (PyError "Error" "Incorrect padding")
      end
  | _ => raise (PyError "TypeError"
                  "argument should be a bytes-like object or ASCII string")
  end.

(** [GET /job/{job_id}/audio] *)
Definition get_job_audio (job_id : string) : M Response :=
  let* result := get_result job_id in
  match result with
  | None => raise (HTTPException 404 "Job not found or expired")
  | Some result =>
      if negb (eq_str (result !! "status") "completed") then
        raise (HTTPException 400
                 ("Job status is " +:+ fstr (get_or_null result "status")
                  +:+ ", not completed"))
      else
        let* audio := getitem result "audio" in
        let* audio_bytes := py_b64decode audio in
        ret (mkResponse audio_bytes "audio/wav"
               [("Content-Disposition", "attachment; filename=" +:+ job_id +:+ ".wav");
                ("X-Generation-Time",
                 fstr (default (JInt 0) (result !! "generation_time")))])
  end.

(* ===================================================================== *)
(** * worker/main.py *)
(* ===================================================================== *)

Definition QUALITY_PRESETS : list (string * Z) := [("high", 32); ("fast", 16)].

(** [q in QUALITY_PRESETS] and [QUALITY_PRESETS[q]] *)
Fixpoint preset_lookup (presets : list (string * Z)) (q : string) : option Z :=
  match presets with
  | [] => None
  | (k, v) :: rest => if String.eqb k q then Some v else preset_lookup rest q
  end.

(** The attributes of a [TTSWorker] that [__init__] computes from its
    arguments and that the loop reads. *)
Record TTSWorker : Type := mkTTSWorker {
  self_worker_id : string;
  self_redis_url : string;
  self_quality : string;
  self_nfe_steps : Z;
  self_heartbeat_interval : Z;
  self_running : bool;
  self_last_heartbeat : float;
}.

(** [signal.signal(signum, handler)]: Python refuses it outside the main
    thread of the main interpreter. *)
Definition signal_signal (main_thread : bool) : M unit :=
  if main_thread then ret ()
  else raise (PyError "ValueError"
                "signal only works in main thread of the main interpreter").

(** [TTSWorker.__init__]. [uuid_hex] is the draw [uuid.uuid4().hex], and
    [main_thread] says whether the constructor runs in the main thread,
    which is what its two calls of [signal.signal] depend on. *)
Definition TTSWorker_init (worker_id : option string) (redis_url : string)
    (quality : string) (nfe_steps : option Z) (heartbeat_interval : Z)
    (uuid_hex : string) (main_thread : bool) : M TTSWorker :=
  let worker_id :=
    match worker_id with
    | None | Some "" => "worker-" +:+ String.substring 0 8 uuid_hex
    | Some w => w
    end in
  let quality :=
    match preset_lookup QUALITY_PRESETS quality with
    | Some _ => quality
    | None => "high"
    end in
  let* nfe_steps :=
    match nfe_steps with
    | None | Some 0%Z =>
        match preset_lookup QUALITY_PRESETS quality with
        | Some n => ret n
        | None => raise (PyError "KeyError" ("'" +:+ quality +:+ "'"))
        end
    | Some n => ret n
    end in
  let self := mkTTSWorker worker_id redis_url quality nfe_steps
                heartbeat_interval false (float_of_int 0) in
  let* _ := signal_signal main_thread in
  let* _ := signal_signal main_thread in
  ret self.

(** What one run of [_process_job] takes from outside the program: the
    pydub pipeline that decodes the reference audio, trims its silence and
    exports it to a temporary file (the path, or the exception), the speech
    engine, and the three readings of the clock. *)
Record Externals : Type := mkExternals {
  preprocess_reference : bytes → outcome string;
  synthesize_to_bytes :
    jval float → jval float → jval float → jval float →
    option string → jval float → outcome (bytes * float);
  time_start : float;
  time_synthesized : float;
  time_completed : float;
}.

Definition lift {A} (o : outcome A) : M A := λ r, (o, r).

(** [type(e).__name__] and [str(e)] *)
Definition exn_type (e : exn) : string :=
  match e with
  | PyError t _ => t
  | HTTPException _ _ => "HTTPException"
  end.

Definition exn_str (e : exn) : string :=
  match e with
  | PyError _ m => m
  | HTTPException c d => pretty c +:+ ": " +:+ d
  end.

(** [len(v)], which the first log line takes of the text. *)
Definition py_len (v : jval float) : M Z :=
  match v with
  | JStr s => ret (Z.of_nat (String.length s))
  | _ => raise (PyError "TypeError" "object has no len()")
  end.

Definition _update_heartbeat (self : TTSWorker) (now : float) : M TTSWorker :=
  if fle (float_of_int (self_heartbeat_interval self))
         (fsub now (self_last_heartbeat self))
  then
    let* _ := register_worker (self_worker_id self) (self_quality self) now in
    ret (mkTTSWorker (self_worker_id self) (self_redis_url self)
           (self_quality self) (self_nfe_steps self)
           (self_heartbeat_interval self) (self_running self) now)
  else ret self.

(** The reference-audio block of [_process_job]: with both a reference
    audio and a reference text, the decoded audio goes through the pydub
    pipeline and the path of the temporary WAV file comes back; otherwise
    there is no reference. It reads and writes nothing in Redis. *)
Definition load_reference (ext : Externals)
    (reference_audio_b64 reference_text : option (jval float))
  : outcome (option string) :=
  if (truthy reference_audio_b64 && truthy reference_text)%bool then
    match default JNull reference_audio_b64 with
    | JStr s =>
        match b64decode s with
        | Some ref_audio_bytes =>
            match preprocess_reference ext ref_audio_bytes with
            | Ret path => Ret (Some path)
            | Raise e => Raise e
            end
        | None => Raise (PyError "Error" "Incorrect padding")
        end
    | _ => Raise (PyError "TypeError"
                    "argument should be a bytes-like object or ASCII string")
    end
  else Ret None.

(** The result dictionary of a successful run. *)
Definition completed_result (ext : Externals) (audio_bytes : bytes)
    (audio_duration : float) : dict :=
  let generation_time := fsub (time_synthesized ext) (time_start ext) in
  let audio_b64 := b64encode audio_bytes in
  <["status" := JStr (JobStatus_value COMPLETED)]>
  (<["audio" := JStr audio_b64]>
  (<["generation_time" := JFloat (round3 generation_time)]>
  (<["audio_duration" :=
       if fis_zero audio_duration then JNull else JFloat (round3 audio_duration)]>
  {["completed_at" := JFloat (time_completed ext)]}))).

(** The result dictionary of the [except] clause. *)
Definition error_result (ext : Externals) (e : exn) : dict :=
  <["status" := JStr (JobStatus_value ERROR)]>
  (<["error" := JStr (exn_str e)]>
  (<["error_code" := JStr (exn_type e)]>
  {["completed_at" := JFloat (time_completed ext)]})).

(** The [try] block of [_process_job]. *)
Definition _process_job_try (ext : Externals) (job : dict)
    (job_id text : jval float) : M dict :=
  let* ref_audio_path :=
    lift (load_reference ext (job !! "reference_audio") (job !! "reference_text")) in
  let* _ := set_job_status (fstr job_id) (JobStatus_value PROCESSING) in
  let* synthesized :=
    lift (synthesize_to_bytes ext text
            (get_or_null job "gender") (get_or_null job "area")
            (get_or_null job "emotion") ref_audio_path
            (get_or_null job "reference_text")) in
  let '(audio_bytes, audio_duration) := synthesized in
  let result := completed_result ext audio_bytes audio_duration in
  let* _ := increment_metric "jobs_completed" 1 in
  ret result.

(** The [except Exception as e] clause of [_process_job]. *)
Definition _process_job_except (ext : Externals) (e : exn) : M dict :=
  let result := error_result ext e in
  let* _ := increment_metric "jobs_failed" 1 in
  ret result.

(** [_process_job]. The log lines write nothing to Redis; the one thing
    kept of them is that the first takes [len(text)]. The [finally] clause
    removes the temporary file, which is outside the Redis state. *)
Definition _process_job (ext : Externals) (job : dict) : M dict :=
  let* job_id := getitem job "job_id" in
  let* text := getitem job "text" in
  let* _ := py_len text in
  try_except (_process_job_try ext job job_id text) (_process_job_except ext).

(** One turn of the loop of [run]: heartbeat, blocking dequeue, and for a
    job the processing and the storing of its result. [now] is the clock
    reading of the heartbeat. *)
Definition run_iteration (self : TTSWorker) (ext : Externals) (now : float)
  : M TTSWorker :=
  let* self := _update_heartbeat self now in
  let* job := dequeue_job (self_quality self) 5 in
  match job with
  | None => ret self
  | Some job =>
      let* result := _process_job ext job in
      let* job_id := getitem job "job_id" in
      let* _ := store_result (fstr job_id) result in
      ret self
  end.

End WithPlatform.

(* ===================================================================== *)
(** * An executable platform *)
(* ===================================================================== *)

(** A small instance of [Platform] on which the model runs: floats are
    exact rationals, the JSON codec is a tagged, escaped token stream, the
    digest and base64 are stand-ins that lose nothing. The theorems below
    hold for every platform; this one shows that what they assume can be
    had, and evaluates the model on concrete requests. *)
Module Ref.

Fixpoint pos_to_string (p : positive) : string :=
  match p with
  | xH => EmptyString
  | xO p' => String "0" (pos_to_string p')
  | xI p' => String "1" (pos_to_string p')
  end.

Fixpoint string_to_pos (s : string) : option positive :=
  match s with
  | EmptyString => Some xH
  | String c s' =>
      if Ascii.eqb c "0" then xO <$> string_to_pos s'
      else if Ascii.eqb c "1" then xI <$> string_to_pos s'
      else None
  end.

Definition Z_to_string (z : Z) : string :=
  match z with
  | Z0 => "z"
  | Zpos p => String "p" (pos_to_string p)
  | Zneg p => String "n" (pos_to_string p)
  end.

Definition string_to_Z (s : string) : option Z :=
  match s with
  | EmptyString => None
  | String c s' =>
      if Ascii.eqb c "z" then (if String.eqb s' "" then Some Z0 else None)
      else if Ascii.eqb c "p" then Zpos <$> string_to_pos s'
      else if Ascii.eqb c "n" then Zneg <$> string_to_pos s'
      else None
  end.

(** A scalar is three tokens: a tag and two payloads. *)
Definition val_tokens (v : jval Q) : list string :=
  match v with
  | JNull => ["n"; ""; ""]
  | JInt z => ["i"; Z_to_string z; ""]
  | JFloat q => ["f"; Z_to_string (Qnum q); pos_to_string (Qden q)]
  | JStr s => ["s"; s; ""]
  end.

Definition tokens_val (tag a b : string) : option (jval Q) :=
  if String.eqb tag "n" then Some JNull
  else if String.eqb tag "i" then JInt <$> string_to_Z a
  else if String.eqb tag "f" then
    match string_to_Z a, string_to_pos b with
    | Some n, Some d => Some (JFloat (Qmake n d))
    | _, _ => None
    end
  else if String.eqb tag "s" then Some (JStr a)
  else None.

Fixpoint fields_tokens (kvs : list (string * jval Q)) : list string :=
  match kvs with
  | [] => []
  | (k, v) :: rest => k :: val_tokens v ++ fields_tokens rest
  end.

Fixpoint tokens_fields (ts : list string) : option (list (string * jval Q)) :=
  match ts with
  | [] => Some []
  | k :: tag :: a :: b :: rest =>
      match tokens_val tag a b, tokens_fields rest with
      | Some v, Some kvs => Some ((k, v) :: kvs)
      | _, _ => None
      end
  | _ => None
  end.

(** A token on the wire: every character behind a [c], then a [;]. *)
Fixpoint write_token (t : string) (rest : string) : string :=
  match t with
  | EmptyString => String ";" rest
  | String x t' => String "c" (String x (write_token t' rest))
  end.

Fixpoint write_tokens (ts : list string) : string :=
  match ts with
  | [] => EmptyString
  | t :: ts' => write_token t (write_tokens ts')
  end.

Fixpoint read_tokens (s : string) : option (list string) :=
  match s with
  | EmptyString => Some []
  | String c rest =>
      if Ascii.eqb c ";" then cons EmptyString <$> read_tokens rest
      else if Ascii.eqb c "c" then
        match rest with
        | String x rest' =>
            match read_tokens rest' with
            | Some (t :: ts) => Some (String x t :: ts)
            | _ => None
            end
        | EmptyString => None
        end
      else None
  end.

Definition write_dict (d : gmap string (jval Q)) : string :=
  String "{" (write_tokens (fields_tokens (map_to_list d))).

Definition read_dict (s : string) : option (gmap string (jval Q)) :=
  match s with
  | String c s' =>
      if Ascii.eqb c "{" then
        ts ← read_tokens s'; kvs ← tokens_fields ts; Some (list_to_map kvs)
      else None
  | EmptyString => None
  end.

(** [round(q, 3)], halves upwards *)
Definition Qround3 (q : Q) : Q := Qmake (Qfloor (q * 1000 + (1 # 2))) 1000.

Definition Qrepr (q : Q) : string :=
  pretty (Qnum q) +:+ "/" +:+ pretty (Zpos (Qden q)).

(** A digest of 64 characters, as [hexdigest] returns: the input, cut or
    filled up with zeros to that length. Like every digest of fixed
    length it takes the same value on different strings. *)
Definition digest (s : string) : string :=
  String.substring 0 64
    (s +:+ "0000000000000000000000000000000000000000000000000000000000000000").

Definition platform : Platform := {|
  float := Q;
  fzero := 0%Q;
  fthree := 3%Q;
  fadd := Qplus;
  fsub := Qminus;
  fmul := Qmult;
  fdiv := Qdiv;
  float_of_int := inject_Z;
  fis_zero := λ q, Qeq_bool q 0;
  fle := Qle_bool;
  round3 := Qround3;
  frepr := Qrepr;
  json_dumps := write_dict;
  json_loads := read_dict;
  sha256_hexdigest := digest;
  b64encode := String.string_of_list_byte;
  b64decode := λ s, Some (String.list_byte_of_string s);
  JOB_TIMEOUT := 120;
|}.

(** Sample data: a server with nothing in it, a request, and the job the
    gateway makes of it. *)
Definition empty : redis := Redis ∅ [].

Definition request (quality : string) : @TTSRequest platform :=
  @mkTTSRequest platform "xin chao" (Some "female") (Some "northern") None
    1%Q quality None None None.

Definition job (job_id quality : string) : gmap string (jval Q) :=
  @TTSJob_model_dump platform job_id (request quality) (17 # 1)%Q 120.

(** A voice-cloning request: reference audio and its transcript. *)
Definition cloning_request : @TTSRequest platform :=
  @mkTTSRequest platform "xin chao" None None None 1%Q "high"
    (Some "bm90IGF1ZGlv") (Some "loi mau") None.

Definition cloning_job (job_id : string) : gmap string (jval Q) :=
  @TTSJob_model_dump platform job_id cloning_request (17 # 1)%Q 120.

(** An engine that speaks for two and a half seconds, behind a pydub that
    decodes what it is given, and behind one that cannot. *)
Definition engine : jval Q → jval Q → jval Q → jval Q → option string → jval Q
                    → outcome (bytes * Q) :=
  λ _ _ _ _ _ _, Ret ([Byte.x52; Byte.x49; Byte.x46; Byte.x46], (5 # 2)%Q).

Definition externals : @Externals platform :=
  @mkExternals platform (λ _, Ret "/tmp/ref.wav") engine
    (20 # 1)%Q (23 # 1)%Q (23 # 1)%Q.

Definition externals_no_decoder : @Externals platform :=
  @mkExternals platform
    (λ _, Raise (PyError "CouldntDecodeError" "Decoding failed"))
    engine (20 # 1)%Q (23 # 1)%Q (23 # 1)%Q.

Definition worker : @TTSWorker platform :=
  @mkTTSWorker platform "worker-1" "redis://localhost:6379/0" "high" 32 30
    true (19 # 1)%Q.

(** A server that holds one credential, created for the token of 32
    nines. *)
Definition token : string := "99999999999999999999999999999999".

Definition with_key : redis :=
  (@create_key platform "alice" token (3 # 1)%Q empty).2.

(** A server on which the worker has served the cloning job [job-7]. *)
Definition served : redis :=
  (@run_iteration platform worker externals (21 # 1)%Q
     (@enqueue_job platform (cloning_job "job-7") "high" empty).2).2.

End Ref.

(* ===================================================================== *)
(** * Keys of different families never meet *)
(* ===================================================================== *)

Section Keys.
Context `{Platform}.

Lemma queue_key_cases q :
  _get_queue_key q = JOBS_QUEUE_FAST ∨ _get_queue_key q = JOBS_QUEUE_HIGH.
Proof. unfold _get_queue_key. destruct (String.eqb q QUALITY_FAST); auto. Qed.

Lemma status_ne_queue id q : STATUS_PREFIX +:+ id ≠ _get_queue_key q.
Proof. destruct (queue_key_cases q) as [-> | ->]; discriminate. Qed.

Lemma result_ne_queue id q : RESULT_PREFIX +:+ id ≠ _get_queue_key q.
Proof. destruct (queue_key_cases q) as [-> | ->]; discriminate. Qed.

Lemma worker_ne_queue id q : WORKER_PREFIX +:+ id ≠ _get_queue_key q.
Proof. destruct (queue_key_cases q) as [-> | ->]; discriminate. Qed.

Lemma metrics_ne_queue q : METRICS_KEY ≠ _get_queue_key q.
Proof. destruct (queue_key_cases q) as [-> | ->]; discriminate. Qed.

Lemma apikey_ne_queue id q : APIKEY_PREFIX +:+ id ≠ _get_queue_key q.
Proof. destruct (queue_key_cases q) as [-> | ->]; discriminate. Qed.

Lemma status_ne_result id id' : STATUS_PREFIX +:+ id ≠ RESULT_PREFIX +:+ id'.
Proof. discriminate. Qed.

Lemma status_ne_worker id id' : STATUS_PREFIX +:+ id ≠ WORKER_PREFIX +:+ id'.
Proof. discriminate. Qed.

Lemma status_ne_apikey id id' : STATUS_PREFIX +:+ id ≠ APIKEY_PREFIX +:+ id'.
Proof. discriminate. Qed.

Lemma status_ne_metrics id : STATUS_PREFIX +:+ id ≠ METRICS_KEY.
Proof. discriminate. Qed.

Lemma prefix_inj p a b : p +:+ a = p +:+ b → a = b.
Proof. induction p as [|c p IH]; simpl; [done|]. intros [= ?]. auto. Qed.

Lemma fast_ne_high : JOBS_QUEUE_FAST ≠ JOBS_QUEUE_HIGH.
Proof. discriminate. Qed.

End Keys.

(* ===================================================================== *)
(** * The queues *)
(* ===================================================================== *)

Section Queues.
Context `{Platform}.

(** What is assumed of [json]: a dictionary comes back from its own
    serialisation. *)
Hypothesis loads_dumps : ∀ d : dict, json_loads (json_dumps d) = Some d.

(** [queue_holds r key jobs]: the list at [key] holds the serialised
    [jobs], the one pushed first (the oldest) at the tail; [jobs] lists them
    oldest first. *)
Definition queue_holds (r : redis) (key : string) (jobs : list dict) : Prop :=
  redis_lrange_all key r = (Ret (rev (map json_dumps jobs)), r).

(** The calls [enqueue_job(j, quality)] for the jobs of [js], in order. *)
Fixpoint enqueue_all (js : list dict) (quality : string) : M unit :=
  match js with
  | [] => ret ()
  | j :: js' => let* _ := enqueue_job j quality in enqueue_all js' quality
  end.

(** [n] calls of [dequeue_job(quality, timeout)]; the jobs they return, in
    order, up to the first call that returns [None]. *)
Fixpoint dequeue_many (n : nat) (quality : string) (timeout : Z) : M (list dict) :=
  match n with
  | O => ret []
  | S n' =>
      let* job := dequeue_job quality timeout in
      match job with
      | None => ret []
      | Some j =>
          let* rest := dequeue_many n' quality timeout in ret (j :: rest)
      end
  end.

Lemma split_last_snoc l x : split_last (l ++ [x]) = Some (l, x).
Proof.
  induction l as [|y l IH]; simpl; [done|].
  rewrite IH. destruct l; done.
Qed.

Lemma queue_holds_nil r key :
  queue_holds r key [] ↔ db r !! key = None ∨ db r !! key = Some (RList []).
Proof.
  unfold queue_holds, redis_lrange_all. simpl.
  destruct (db r !! key) as [[| l |]|]; split; intros Hq;
    try (destruct Hq; done); try done.
  - right. by inversion Hq.
  - destruct Hq as [|[= ->]]; done.
  - by left.
Qed.

Lemma queue_holds_cons r key j rest :
  queue_holds r key (j :: rest) ↔
  db r !! key = Some (RList (rev (map json_dumps rest) ++ [json_dumps j])).
Proof.
  unfold queue_holds, redis_lrange_all. simpl.
  destruct (db r !! key) as [[| l |]|]; split; intros Hq; try done.
  - by inversion Hq.
  - by inversion Hq.
  - inversion Hq as [Hnil]. by apply app_cons_not_nil in Hnil.
Qed.

Lemma enqueue_job_spec r quality jobs job v :
  queue_holds r (_get_queue_key quality) jobs →
  job !! "job_id" = Some v →
  ∃ r', enqueue_job job quality r = (Ret (), r')
        ∧ queue_holds r' (_get_queue_key quality) (jobs ++ [job])
        ∧ sets r' = sets r ++ [(STATUS_PREFIX +:+ fstr v, "pending")]
        ∧ db r' !! (STATUS_PREFIX +:+ fstr v) = Some (RString "pending" (Some RESULT_TTL))
        ∧ ∀ k, k ≠ _get_queue_key quality → k ≠ STATUS_PREFIX +:+ fstr v →
               db r' !! k = db r !! k.
Proof.
  intros Hq Hid.
  unfold enqueue_job, bind, redis_lpush, getitem. rewrite Hid.
  unfold queue_holds, redis_lrange_all in Hq.
  pose proof (status_ne_queue (fstr v) quality) as Hne.
  destruct (db r !! _get_queue_key quality) as [[| l |]|] eqn:Hk; try done.
  - inversion Hq as [Hl]. eexists. split; [reflexivity|].
    unfold queue_holds, redis_lrange_all, ret, redis_set; simpl.
    rewrite lookup_insert_ne by done. rewrite lookup_insert_eq.
    rewrite map_app, rev_app_distr. simpl. rewrite <- Hl.
    repeat split; try done.
    + by rewrite lookup_insert_eq.
    + intros k Hk1 Hk2. by rewrite !lookup_insert_ne.
  - inversion Hq as [Hl]. eexists. split; [reflexivity|].
    unfold queue_holds, redis_lrange_all, ret, redis_set; simpl.
    rewrite lookup_insert_ne by done. rewrite lookup_insert_eq.
    rewrite map_app, rev_app_distr. simpl. rewrite <- Hl.
    repeat split; try done.
    + by rewrite lookup_insert_eq.
    + intros k Hk1 Hk2. by rewrite !lookup_insert_ne.
Qed.

Lemma dequeue_job_some r quality timeout j rest :
  queue_holds r (_get_queue_key quality) (j :: rest) →
  ∃ r', dequeue_job quality timeout r = (Ret (Some j), r')
        ∧ queue_holds r' (_get_queue_key quality) rest
        ∧ sets r' = sets r
        ∧ ∀ k, k ≠ _get_queue_key quality → db r' !! k = db r !! k.
Proof.
  intros Hq. apply queue_holds_cons in Hq.
  unfold dequeue_job, bind, redis_brpop. rewrite Hq, split_last_snoc.
  destruct (rev (map json_dumps rest)) as [|x l] eqn:Hrest;
    unfold loads; rewrite loads_dumps.
  - eexists. split; [reflexivity|]. simpl.
    assert (rest = []) as ->.
    { destruct rest as [|j' rest]; [done|]. simpl in Hrest.
      symmetry in Hrest. by apply app_cons_not_nil in Hrest. }
    repeat split; try done.
    + apply queue_holds_nil. left. simpl. apply lookup_delete_eq.
    + intros k Hk. simpl. by rewrite lookup_delete_ne.
  - eexists. split; [reflexivity|]. simpl.
    repeat split; try done.
    + unfold queue_holds, redis_lrange_all. simpl.
      rewrite lookup_insert_eq. by rewrite Hrest.
    + intros k Hk. simpl. by rewrite lookup_insert_ne.
Qed.

Lemma dequeue_job_none r quality timeout :
  queue_holds r (_get_queue_key quality) [] →
  dequeue_job quality timeout r = (Ret None, r).
Proof.
  intros Hq. apply queue_holds_nil in Hq.
  unfold dequeue_job, bind, redis_brpop.
  destruct Hq as [-> | ->]; done.
Qed.

Lemma enqueue_all_spec js : ∀ r quality jobs,
  queue_holds r (_get_queue_key quality) jobs →
  Forall (λ j : dict, is_Some (j !! "job_id")) js →
  ∃ r', enqueue_all js quality r = (Ret (), r')
        ∧ queue_holds r' (_get_queue_key quality) (jobs ++ js).
Proof.
  induction js as [|j js IH]; intros r quality jobs Hq Hall; simpl.
  - exists r. by rewrite app_nil_r.
  - inversion Hall as [|? ? [v Hv] Hall']; subst.
    destruct (enqueue_job_spec r quality jobs j v Hq Hv) as (r1 & He & Hq1 & _).
    destruct (IH r1 quality (jobs ++ [j]) Hq1 Hall') as (r2 & He2 & Hq2).
    exists r2. unfold bind. rewrite He. split; [done|].
    by rewrite <- app_assoc in Hq2.
Qed.

Lemma dequeue_many_spec pre : ∀ r quality timeout post,
  queue_holds r (_get_queue_key quality) (pre ++ post) →
  ∃ r', dequeue_many (length pre) quality timeout r = (Ret pre, r')
        ∧ queue_holds r' (_get_queue_key quality) post.
Proof.
  induction pre as [|j pre IH]; intros r quality timeout post Hq; simpl.
  - by exists r.
  - destruct (dequeue_job_some r quality timeout j (pre ++ post) Hq)
      as (r1 & Hd & Hq1 & _).
    destruct (IH r1 quality timeout post Hq1) as (r2 & Hd2 & Hq2).
    exists r2. unfold bind. rewrite Hd. unfold bind in Hd2 |- *.
    rewrite Hd2. done.
Qed.

Lemma dequeue_job_same_class quality quality' timeout :
  _get_queue_key quality' = _get_queue_key quality →
  dequeue_job quality' timeout = dequeue_job quality timeout.
Proof. intros Hk. unfold dequeue_job. by rewrite Hk. Qed.

(** C3. After any sequence of [enqueue_job] calls on one quality class,
    made on a queue that already holds the jobs [old], a [dequeue_job] of
    that class returns the oldest job of the queue (the head of
    [old ++ js]) as the very dictionary that was enqueued, and leaves the
    others in the queue in their order; on an empty queue it returns
    [None] and changes nothing. *)
Theorem dequeue_returns_oldest r quality quality' timeout (old js : list dict) :
  _get_queue_key quality' = _get_queue_key quality →
  queue_holds r (_get_queue_key quality) old →
  Forall (λ j : dict, is_Some (j !! "job_id")) js →
  ∃ r1, enqueue_all js quality r = (Ret (), r1)
    ∧ match old ++ js with
      | [] => dequeue_job quality' timeout r1 = (Ret None, r1)
      | j :: rest =>
          ∃ r2, dequeue_job quality' timeout r1 = (Ret (Some j), r2)
                ∧ queue_holds r2 (_get_queue_key quality) rest
      end.
Proof.
  intros Hclass Hq Hall.
  destruct (enqueue_all_spec js r quality old Hq Hall) as (r1 & He & Hq1).
  exists r1. split; [done|].
  rewrite (dequeue_job_same_class _ _ timeout Hclass).
  destruct (old ++ js) as [|j rest].
  - by apply dequeue_job_none.
  - destruct (dequeue_job_some r1 quality timeout j rest Hq1) as (r2 & Hd & Hq2 & _).
    by exists r2.
Qed.

Lemma position_scan_spec job_id jobs : ∀ i r,
  (position_scan job_id (map json_dumps jobs) i r = (Ret (-1), r)
   ∧ Forall (λ j : dict, eq_str (j !! "job_id") job_id = false) jobs)
  ∨ (∃ pre j post,
       jobs = pre ++ j :: post
       ∧ position_scan job_id (map json_dumps jobs) i r
         = (Ret (i + Z.of_nat (length pre)), r)
       ∧ eq_str (j !! "job_id") job_id = true
       ∧ Forall (λ j' : dict, eq_str (j' !! "job_id") job_id = false) pre).
Proof.
  induction jobs as [|j jobs IH]; intros i r; simpl.
  - left. split; [done|constructor].
  - unfold bind, loads. rewrite loads_dumps. simpl.
    destruct (eq_str (j !! "job_id") job_id) eqn:Hj.
    + right. exists [], j, jobs. simpl. rewrite Z.add_0_r. repeat split; done.
    + destruct (IH (i + 1) r) as [[Hs Hall] | (pre & j' & post & -> & Hs & Hj' & Hpre)].
      * left. split; [done|]. by constructor.
      * right. exists (j :: pre), j', post. simpl. rewrite Hs.
        repeat split; try done.
        -- do 2 f_equal. lia.
        -- by constructor.
Qed.

(** C5. [get_queue_position(job_id, quality)] changes nothing and returns
    either -1, when no job of the queue has that id, or the number [n] of
    jobs in front of the first job with that id; and that is what the
    workers see: [n + 1] calls of [dequeue_job] on that quality return
    those [n] jobs, none of which has the id, and then the job itself. *)
Theorem queue_position_is_fifo_position r quality job_id timeout (jobs : list dict) :
  queue_holds r (_get_queue_key quality) jobs →
  ∃ p, get_queue_position job_id quality r = (Ret p, r)
    ∧ ((p = -1
        ∧ Forall (λ j : dict, eq_str (j !! "job_id") job_id = false) jobs)
       ∨ (∃ pre j post r',
            jobs = pre ++ j :: post
            ∧ p = Z.of_nat (length pre)
            ∧ eq_str (j !! "job_id") job_id = true
            ∧ Forall (λ j' : dict, eq_str (j' !! "job_id") job_id = false) pre
            ∧ dequeue_many (S (length pre)) quality timeout r
              = (Ret (pre ++ [j]), r'))).
Proof.
  intros Hq.
  unfold get_queue_position, bind. rewrite Hq, rev_involutive.
  destruct (position_scan_spec job_id jobs 0 r)
    as [[Hs Hall] | (pre & j & post & Hjobs & Hs & Hj & Hpre)].
  - exists (-1). split; [done|]. by left.
  - exists (Z.of_nat (length pre)). split; [by rewrite Hs|]. right.
    rewrite Hjobs in Hq.
    assert (pre ++ j :: post = (pre ++ [j]) ++ post) as Heq
      by (by rewrite <- app_assoc).
    rewrite Heq in Hq.
    destruct (dequeue_many_spec (pre ++ [j]) r quality timeout post Hq)
      as (r' & Hd & _).
    rewrite length_app in Hd. simpl in Hd. rewrite Nat.add_1_r in Hd.
    exists pre, j, post, r'. repeat split; done.
Qed.

End Queues.

(* ===================================================================== *)
(** * The executable platform meets the assumptions *)
(* ===================================================================== *)

Lemma ref_pos_round_trip p : Ref.string_to_pos (Ref.pos_to_string p) = Some p.
Proof. induction p as [p IH|p IH|]; simpl; by rewrite ?IH. Qed.

Lemma ref_Z_round_trip z : Ref.string_to_Z (Ref.Z_to_string z) = Some z.
Proof. destruct z as [|p|p]; simpl; by rewrite ?ref_pos_round_trip. Qed.

Lemma ref_val_round_trip (v : jval Q) :
  ∃ tag a b, Ref.val_tokens v = [tag; a; b] ∧ Ref.tokens_val tag a b = Some v.
Proof.
  destruct v as [|z|q|s]; do 3 eexists; (split; [reflexivity|]);
    unfold Ref.tokens_val; simpl.
  - done.
  - by rewrite ref_Z_round_trip.
  - rewrite ref_Z_round_trip, ref_pos_round_trip. by destruct q.
  - done.
Qed.

Lemma ref_fields_round_trip kvs :
  Ref.tokens_fields (Ref.fields_tokens kvs) = Some kvs.
Proof.
  induction kvs as [|[k v] kvs IH]; [done|].
  destruct (ref_val_round_trip v) as (tag & a & b & Hv & Ht).
  cbn [Ref.fields_tokens]. rewrite Hv. cbn [app Ref.tokens_fields].
  by rewrite Ht, IH.
Qed.

Lemma ref_read_write_token t rest :
  Ref.read_tokens (Ref.write_token t rest) = cons t <$> Ref.read_tokens rest.
Proof.
  induction t as [|x t IH]; [done|].
  cbn [Ref.write_token Ref.read_tokens]. simpl Ascii.eqb. cbv iota.
  rewrite IH. by destruct (Ref.read_tokens rest).
Qed.

Lemma ref_tokens_round_trip ts : Ref.read_tokens (Ref.write_tokens ts) = Some ts.
Proof.
  induction ts as [|t ts IH]; [done|].
  cbn [Ref.write_tokens]. by rewrite ref_read_write_token, IH.
Qed.

Lemma ref_loads_dumps (d : gmap string (jval Q)) :
  Ref.read_dict (Ref.write_dict d) = Some d.
Proof.
  unfold Ref.read_dict, Ref.write_dict. simpl Ascii.eqb. cbv iota.
  rewrite ref_tokens_round_trip. simpl.
  rewrite ref_fields_round_trip. simpl.
  by rewrite list_to_map_to_list.
Qed.

Lemma ref_dumps_nonempty (d : gmap string (jval Q)) : Ref.write_dict d ≠ "".
Proof. done. Qed.

Lemma ref_b64_round_trip bs :
  @b64decode Ref.platform (@b64encode Ref.platform bs) = Some bs.
Proof. simpl. by rewrite String.list_byte_of_string_of_list_byte. Qed.

(* ===================================================================== *)
(** * The queue theorems on the executable platform *)
(* ===================================================================== *)

Lemma dequeue_returns_oldest_witness :
  (∀ d, Ref.read_dict (Ref.write_dict d) = Some d)
  ∧ ∃ r1, @enqueue_all Ref.platform [Ref.job "a" "fast"; Ref.job "b" "fast"]
            "fast" Ref.empty = (Ret (), r1)
      ∧ ∃ r2, @dequeue_job Ref.platform "fast" 5 r1
              = (Ret (Some (Ref.job "a" "fast")), r2)
          ∧ @queue_holds Ref.platform r2 JOBS_QUEUE_FAST [Ref.job "b" "fast"].
Proof.
  split; [exact ref_loads_dumps|].
  apply (@dequeue_returns_oldest Ref.platform ref_loads_dumps Ref.empty
           "fast" "fast" 5 [] [Ref.job "a" "fast"; Ref.job "b" "fast"]).
  - reflexivity.
  - vm_compute. reflexivity.
  - repeat constructor.
    + exists (JStr "a"). vm_compute. reflexivity.
    + exists (JStr "b"). vm_compute. reflexivity.
Defined.

Lemma queue_position_is_fifo_position_witness :
  let r := Redis {[JOBS_QUEUE_HIGH :=
                     RList [Ref.write_dict (Ref.job "b" "high");
                            Ref.write_dict (Ref.job "a" "high")]]} [] in
  ∃ p, @get_queue_position Ref.platform "b" "high" r = (Ret p, r)
    ∧ ((p = -1
        ∧ Forall (λ j : gmap string (jval Q), @eq_str Ref.platform (j !! "job_id") "b" = false)
            [Ref.job "a" "high"; Ref.job "b" "high"])
       ∨ (∃ pre j post r',
            [Ref.job "a" "high"; Ref.job "b" "high"] = pre ++ j :: post
            ∧ p = Z.of_nat (length pre)
            ∧ @eq_str Ref.platform (j !! "job_id") "b" = true
            ∧ Forall (λ j' : gmap string (jval Q),
                        @eq_str Ref.platform (j' !! "job_id") "b" = false) pre
            ∧ @dequeue_many Ref.platform (S (length pre)) "high" 5 r
              = (Ret (pre ++ [j]), r'))).
Proof.
  apply (@queue_position_is_fifo_position Ref.platform ref_loads_dumps).
  vm_compute. reflexivity.
Defined.

(* ===================================================================== *)
(** * The credential store *)
(* ===================================================================== *)

Section Credentials.
Context `{Platform}.

Hypothesis loads_dumps : ∀ d : dict, json_loads (json_dumps d) = Some d.
Hypothesis dumps_nonempty : ∀ d : dict, json_dumps d ≠ "".

Lemma string_drop_length n : ∀ s,
  String.length (string_drop n s) = (String.length s - n)%nat.
Proof.
  induction n as [|n IH]; intros [|c s]; simpl; done.
Qed.

Lemma string_drop_app p s : string_drop (String.length p) (p +:+ s) = s.
Proof. induction p as [|c p IH]; simpl; [by destruct s|done]. Qed.

Lemma prefix_app p s : String.prefix p (p +:+ s) = true.
Proof.
  induction p as [|c p IH]; simpl; [by destruct s|].
  by destruct (ascii_dec c c).
Qed.

Lemma string_length_zero s : String.length s = 0%nat → s = "".
Proof. by destruct s. Qed.

Lemma key_id_of_generated token :
  String.length token = KEY_LENGTH →
  get_key_id_from_full_key (KEY_PREFIX +:+ token) = Some (string_last 8 token)
  ∧ string_last 8 token ≠ "".
Proof.
  intros Hlen. unfold get_key_id_from_full_key.
  rewrite prefix_app, string_drop_app, Hlen. split; [done|].
  intros Hempty. apply (f_equal String.length) in Hempty.
  unfold string_last in Hempty. rewrite string_drop_length, Hlen in Hempty.
  done.
Qed.

(** The record [create_key] writes. *)
Definition key_record (key_id full_key name : string) (now : float) : dict :=
  <["audio_seconds" := JFloat fzero]>
  (<["requests_count" := JInt 0]>
  (<["created_at" := JFloat now]>
  (<["name" := JStr name]>
  (<["full_key_hash" := JStr (_hash_key full_key)]>
  {["key_id" := JStr key_id]})))).

Lemma create_key_run name token now r :
  create_key name token now r
  = (Ret (KEY_PREFIX +:+ token,
          mkAPIKeyInfo (JStr (string_last 8 token)) (JStr name) (JFloat now)
            (JInt 0) (JFloat fzero)),
     Redis (<[APIKEY_PREFIX +:+ string_last 8 token :=
                RString (json_dumps (key_record (string_last 8 token)
                                       (KEY_PREFIX +:+ token) name now)) None]>
              (db r))
           (sets r ++ [(APIKEY_PREFIX +:+ string_last 8 token,
                        json_dumps (key_record (string_last 8 token)
                                      (KEY_PREFIX +:+ token) name now))])).
Proof. reflexivity. Qed.

(** What [validate_key] does on a store whose record for the key id is a
    serialised dictionary [d]. *)
Lemma validate_key_on_record full_key kid (d : dict) ex r :
  get_key_id_from_full_key full_key = Some kid →
  kid ≠ "" →
  db r !! (APIKEY_PREFIX +:+ kid) = Some (RString (json_dumps d) ex) →
  validate_key full_key r =
    (if negb (eq_str (d !! "full_key_hash") (_hash_key full_key))
     then ret None
     else
       let* key_id := getitem d "key_id" in
       let* name := getitem d "name" in
       let* created_at := getitem d "created_at" in
       ret (Some (mkAPIKeyInfo key_id name created_at
                    (default (JInt 0) (d !! "requests_count"))
                    (default (JFloat fzero) (d !! "audio_seconds"))))) r.
Proof.
  intros Hkid Hne Hrec. unfold validate_key. rewrite Hkid.
  destruct kid as [|c kid]; [done|].
  unfold bind at 1. unfold redis_get. rewrite Hrec.
  pose proof (dumps_nonempty d) as Hd.
  destruct (json_dumps d) as [|c' s'] eqn:Hs; [done|].
  unfold bind at 1. unfold loads. rewrite <- Hs, loads_dumps. done.
Qed.

Lemma increment_usage_absent r kid secs :
  db r !! (APIKEY_PREFIX +:+ kid) = None →
  increment_usage kid secs r = (Ret (), r).
Proof. intros Hnone. unfold increment_usage, bind, redis_get. by rewrite Hnone. Qed.

(** The record [increment_usage] writes back. *)
Definition charged (d : dict) (n : Z) (a secs : float) : dict :=
  <["audio_seconds" := JFloat (fadd a secs)]>
  (<["requests_count" := JInt (n + 1)]> d).

Lemma increment_usage_on_record r kid secs (d : dict) ex n a :
  db r !! (APIKEY_PREFIX +:+ kid) = Some (RString (json_dumps d) ex) →
  default (JInt 0) (d !! "requests_count") = JInt n →
  default (JFloat fzero) (d !! "audio_seconds") = JFloat a →
  increment_usage kid secs r
  = (Ret (),
     Redis (<[APIKEY_PREFIX +:+ kid := RString (json_dumps (charged d n a secs)) None]>
              (db r))
           (sets r ++ [(APIKEY_PREFIX +:+ kid, json_dumps (charged d n a secs))])).
Proof.
  intros Hrec Hn Ha.
  unfold increment_usage. unfold bind at 1. unfold redis_get. rewrite Hrec.
  pose proof (dumps_nonempty d) as Hd.
  destruct (json_dumps d) as [|c' s'] eqn:Hs; [done|].
  unfold bind at 1. unfold loads. rewrite <- Hs, loads_dumps.
  unfold ret at 1. rewrite Hn.
  unfold bind at 1. unfold py_add at 1. unfold ret at 1.
  rewrite lookup_insert_ne by done. rewrite Ha.
  reflexivity.
Qed.

(** A key id that [increment_usage] can charge: it has no record, or a
    record with an [int] request count and a [float] of audio seconds. *)
Definition chargeable (r : redis) (kid : string) : Prop :=
  db r !! (APIKEY_PREFIX +:+ kid) = None
  ∨ ∃ (d : dict) ex n a,
      db r !! (APIKEY_PREFIX +:+ kid) = Some (RString (json_dumps d) ex)
      ∧ default (JInt 0) (d !! "requests_count") = JInt n
      ∧ default (JFloat fzero) (d !! "audio_seconds") = JFloat a.

Lemma increment_usage_returns r kid secs :
  chargeable r kid → ∃ r', increment_usage kid secs r = (Ret (), r').
Proof.
  intros [Hnone | (d & ex & n & a & Hrec & Hn & Ha)].
  - exists r. by apply increment_usage_absent.
  - eexists. by apply (increment_usage_on_record r kid secs d ex n a).
Qed.

(** C9. [increment_usage] on a key id without a record returns without an
    exception and leaves the server as it was. On a record it writes the
    record back with [requests_count] one higher, whatever [audio_seconds]
    is, with [audio_seconds] added to the field of that name, and with every
    other field, [key_id], [name], [created_at] and [full_key_hash] among
    them, as it was. *)
Theorem increment_usage_spec r kid secs :
  (db r !! (APIKEY_PREFIX +:+ kid) = None →
   increment_usage kid secs r = (Ret (), r))
  ∧ (∀ (d : dict) ex n a,
       db r !! (APIKEY_PREFIX +:+ kid) = Some (RString (json_dumps d) ex) →
       default (JInt 0) (d !! "requests_count") = JInt n →
       default (JFloat fzero) (d !! "audio_seconds") = JFloat a →
       ∃ d' : dict,
         increment_usage kid secs r
         = (Ret (),
            Redis (<[APIKEY_PREFIX +:+ kid := RString (json_dumps d') None]> (db r))
                  (sets r ++ [(APIKEY_PREFIX +:+ kid, json_dumps d')]))
         ∧ d' !! "requests_count" = Some (JInt (n + 1))
         ∧ d' !! "audio_seconds" = Some (JFloat (fadd a secs))
         ∧ d' !! "key_id" = d !! "key_id"
         ∧ d' !! "name" = d !! "name"
         ∧ d' !! "created_at" = d !! "created_at"
         ∧ d' !! "full_key_hash" = d !! "full_key_hash"
         ∧ ∀ k, k ≠ "requests_count" → k ≠ "audio_seconds" → d' !! k = d !! k).
Proof.
  split; [apply increment_usage_absent|].
  intros d ex n a Hrec Hn Ha. exists (charged d n a secs).
  split; [by apply (increment_usage_on_record r kid secs d ex n a)|].
  unfold charged. repeat split.
  - rewrite lookup_insert_ne by done. by rewrite lookup_insert_eq.
  - by rewrite lookup_insert_eq.
  - by rewrite !lookup_insert_ne.
  - by rewrite !lookup_insert_ne.
  - by rewrite !lookup_insert_ne.
  - by rewrite !lookup_insert_ne.
  - intros k Hk1 Hk2. by rewrite !lookup_insert_ne.
Qed.

(** ** Validation *)

(** The calls [create_key(name)] for the requests of [reqs], in order, each
    with its draw of the token and its clock reading; the full keys they
    return. *)
Fixpoint create_keys (reqs : list (string * string * float)) : M (list string) :=
  match reqs with
  | [] => ret []
  | (name, token, now) :: rest =>
      let* created := create_key name token now in
      let* more := create_keys rest in
      ret (created.1 :: more)
  end.

Definition secrets_of (reqs : list (string * string * float)) : list string :=
  map (λ q, KEY_PREFIX +:+ q.1.2) reqs.

(** Every credential record of the store was written for one of
    [secrets]. *)
Definition keys_from (r : redis) (secrets : list string) : Prop :=
  ∀ kid v, db r !! (APIKEY_PREFIX +:+ kid) = Some v →
    ∃ secret (d : dict) ex,
      secret ∈ secrets ∧ v = RString (json_dumps d) ex
      ∧ d !! "full_key_hash" = Some (JStr (_hash_key secret))
      ∧ is_Some (d !! "key_id") ∧ is_Some (d !! "name")
      ∧ is_Some (d !! "created_at").

Lemma keys_from_mono r S S' : keys_from r S → S ⊆ S' → keys_from r S'.
Proof.
  intros Hk Hsub kid v Hv.
  destruct (Hk kid v Hv) as (secret & d & ex & Hin & Hrest).
  exists secret, d, ex. split; [by apply Hsub|done].
Qed.

Lemma keys_from_create r S name token now :
  keys_from r S →
  keys_from (create_key name token now r).2 ((KEY_PREFIX +:+ token) :: S).
Proof.
  intros Hk kid v. rewrite create_key_run. simpl.
  destruct (decide (APIKEY_PREFIX +:+ string_last 8 token = APIKEY_PREFIX +:+ kid))
    as [Heq|Hne].
  - rewrite Heq, lookup_insert_eq. intros [= <-].
    eexists _, _, _. split; [apply list_elem_of_here|]. split; [reflexivity|].
    unfold key_record. repeat split; try (eexists; reflexivity).
  - rewrite lookup_insert_ne by done. intros Hv.
    destruct (Hk kid v Hv) as (secret & d & ex & Hin & Hrest).
    exists secret, d, ex. split; [by apply list_elem_of_further|done].
Qed.

Lemma create_keys_spec reqs : ∀ r S,
  keys_from r S →
  ∃ r', create_keys reqs r = (Ret (secrets_of reqs), r')
        ∧ keys_from r' (secrets_of reqs ++ S).
Proof.
  induction reqs as [|[[name token] now] reqs IH]; intros r S Hk.
  - by exists r.
  - pose proof (keys_from_create r S name token now Hk) as Hk1.
    destruct (IH _ _ Hk1) as (r' & Hc & Hk').
    exists r'. cbn [create_keys]. unfold bind at 1.
    rewrite create_key_run in Hc, Hk1 |- *. simpl in Hc.
    unfold bind at 1. rewrite Hc. split; [done|].
    apply (keys_from_mono _ _ _ Hk').
    cbn [secrets_of map fst snd]. intros x Hx.
    apply elem_of_app in Hx as [Hx|Hx]; [|apply elem_of_cons in Hx as [->|Hx]].
    + apply elem_of_cons. right. apply elem_of_app. by left.
    + apply elem_of_cons. by left.
    + apply elem_of_cons. right. apply elem_of_app. by right.
Qed.

Lemma get_key_id_Some s kid :
  get_key_id_from_full_key s = Some kid →
  String.prefix KEY_PREFIX s = true
  ∧ String.length (string_drop (String.length KEY_PREFIX) s) = KEY_LENGTH
  ∧ kid = string_last 8 (string_drop (String.length KEY_PREFIX) s).
Proof.
  unfold get_key_id_from_full_key.
  destruct (String.eqb s ""); cbn [orb negb]; [discriminate|].
  destruct (String.prefix KEY_PREFIX s); cbn [orb negb]; [|discriminate].
  destruct (Nat.eqb_spec
              (String.length (string_drop (String.length KEY_PREFIX) s)) KEY_LENGTH)
    as [Hlen|]; cbn [negb]; [|discriminate].
  by intros [= <-].
Qed.

(** On a store of created keys, [validate_key] raises nothing, and accepts
    only on a record whose stored digest is the digest of the candidate. *)
Lemma validate_key_created r S s :
  keys_from r S →
  validate_key s r = (Ret None, r)
  ∨ ∃ info secret, validate_key s r = (Ret (Some info), r)
                   ∧ secret ∈ S ∧ _hash_key secret = _hash_key s.
Proof.
  intros Hk. unfold validate_key.
  destruct (get_key_id_from_full_key s) as [kid|] eqn:Hkid; [|by left].
  destruct (decide (kid = "")) as [->|Hne]; [by left|].
  destruct (db r !! (APIKEY_PREFIX +:+ kid)) as [v|] eqn:Hv.
  - destruct (Hk kid v Hv) as (secret & d & ex & Hin & -> & Hh & [a Ha] & [b Hb] & [c Hc]).
    pose proof (validate_key_on_record s kid d ex r Hkid Hne Hv) as Hrun.
    unfold validate_key in Hrun. rewrite Hkid in Hrun. rewrite Hrun.
    rewrite Hh. simpl.
    destruct (String.eqb_spec (_hash_key secret) (_hash_key s)) as [Heq|Hneq].
    + right. simpl. unfold bind, getitem. rewrite Ha, Hb, Hc. simpl.
      eexists _, secret. split; [reflexivity|done].
    + by left.
  - left. destruct kid as [|c kid]; [done|].
    unfold bind, redis_get. by rewrite Hv.
Qed.

(** C7. Validating the full key that [create_key] has just returned gives
    the [APIKeyInfo] that [create_key] returned with it, whatever the
    digest is. A candidate is accepted only if it has the prefix, a
    32-character token, a record under the last 8 characters of the token,
    and a digest equal to the stored one; so, on a store whose credential
    records all come from [create_key], every string that is not one of
    the created full keys, and whose digest is not that of one of them, is
    refused with [None]. *)
Theorem validate_key_spec r0 reqs name token now s :
  (∀ kid, db r0 !! (APIKEY_PREFIX +:+ kid) = None) →
  String.length token = KEY_LENGTH →
  ∃ r, create_keys reqs r0 = (Ret (secrets_of reqs), r)
    ∧ (∃ info r',
         create_key name token now r = (Ret (KEY_PREFIX +:+ token, info), r')
         ∧ validate_key (KEY_PREFIX +:+ token) r' = (Ret (Some info), r'))
    ∧ (s ∉ secrets_of reqs →
       (∀ secret, secret ∈ secrets_of reqs →
                  sha256_hexdigest secret ≠ sha256_hexdigest s) →
       validate_key s r = (Ret None, r))
    ∧ (∀ info r', validate_key s r = (Ret (Some info), r') →
         String.prefix KEY_PREFIX s = true
         ∧ String.length (string_drop (String.length KEY_PREFIX) s) = KEY_LENGTH
         ∧ ∃ (d : dict) ex,
             db r !! (APIKEY_PREFIX +:+
                        string_last 8 (string_drop (String.length KEY_PREFIX) s))
             = Some (RString (json_dumps d) ex)
             ∧ d !! "full_key_hash" = Some (JStr (_hash_key s))).
Proof.
  intros Hempty Hlen.
  assert (keys_from r0 []) as Hk0.
  { intros kid v Hv. by rewrite Hempty in Hv. }
  destruct (create_keys_spec reqs r0 [] Hk0) as (r & Hc & Hk).
  rewrite app_nil_r in Hk.
  exists r. split; [done|]. split; [|split].
  - rewrite create_key_run. eexists _, _. split; [reflexivity|].
    destruct (key_id_of_generated token Hlen) as [Hkid Hne].
    erewrite validate_key_on_record; [|exact Hkid|exact Hne|by apply lookup_insert_eq].
    unfold key_record, _hash_key.
    rewrite lookup_insert_ne by done. rewrite lookup_insert_ne by done.
    rewrite lookup_insert_ne by done. rewrite lookup_insert_ne by done.
    rewrite lookup_insert_eq. simpl. rewrite String.eqb_refl. simpl.
    reflexivity.
  - intros Hnot Hfree.
    destruct (validate_key_created r _ s Hk) as [Hv | (info & secret & Hv & Hin & Hh)];
      [done|].
    by destruct (Hfree secret Hin).
  - intros info r' Hv.
    unfold validate_key in Hv.
    destruct (get_key_id_from_full_key s) as [kid|] eqn:Hkid; [|done].
    destruct (get_key_id_Some s kid Hkid) as (Hp & Hl & ->).
    split; [done|]. split; [done|].
    set (kid := string_last 8 (string_drop (String.length KEY_PREFIX) s)) in *.
    destruct (decide (kid = "")) as [Hz|Hne]; [by rewrite Hz in Hv|].
    destruct (db r !! (APIKEY_PREFIX +:+ kid)) as [v|] eqn:Hrec.
    + destruct (Hk kid v Hrec) as (secret & d & ex & Hin & -> & Hh & _).
      exists d, ex. split; [done|].
      pose proof (validate_key_on_record s kid d ex r Hkid Hne Hrec) as Hrun.
      unfold validate_key in Hrun. rewrite Hkid in Hrun. rewrite Hrun in Hv.
      rewrite Hh in Hv |- *. simpl in Hv.
      destruct (String.eqb_spec (_hash_key secret) (_hash_key s)) as [->|]; done.
    + destruct kid as [|c kid]; [done|].
      unfold bind, redis_get in Hv. by rewrite Hrec in Hv.
Qed.

End Credentials.

(* ===================================================================== *)
(** * The credential gate *)
(* ===================================================================== *)

Section Gate.
Context `{Platform}.

Definition local_name (s : string) : Prop :=
  s = "127.0.0.1" ∨ s = "::1" ∨ s = "localhost".

Lemma localhost_ips_spec s : localhost_ips s = true ↔ local_name s.
Proof.
  unfold localhost_ips, local_name.
  destruct (String.eqb_spec s "127.0.0.1"), (String.eqb_spec s "::1"),
    (String.eqb_spec s "localhost"); simpl; split; intros Hs; try done;
    try tauto; by destruct Hs as [|[|]].
Qed.

Lemma is_localhost_request_spec request :
  is_localhost_request request = true ↔
  (∃ h, client_host request = Some h ∧ local_name h)
  ∨ (∃ f, x_forwarded_for request = Some f ∧ local_name (strip (before_comma f))).
Proof.
  unfold is_localhost_request.
  destruct (client_host request) as [h|].
  - destruct (localhost_ips h) eqn:Hh.
    + split; [|done]. intros _. left. exists h. split; [done|].
      by apply localhost_ips_spec.
    + assert (¬ local_name h) as Hnot.
      { intros Hl. apply localhost_ips_spec in Hl. congruence. }
      destruct (x_forwarded_for request) as [f|]; simpl.
      * destruct (String.eqb_spec f "") as [->|Hf]; simpl.
        -- split; [done|]. intros [(h' & [= <-] & Hl)|(f' & [= <-] & Hl)]; [done|].
           by destruct Hl as [|[|]].
        -- destruct (localhost_ips (strip (before_comma f))) eqn:Hx.
           ++ split; [|done]. intros _. right. exists f. split; [done|].
              by apply localhost_ips_spec.
           ++ split; [done|].
              intros [(h' & [= <-] & Hl)|(f' & [= <-] & Hl)]; [done|].
              apply localhost_ips_spec in Hl. congruence.
      * split; [done|]. by intros [(h' & [= <-] & Hl)|(f' & [=] & _)].
  - destruct (x_forwarded_for request) as [f|]; simpl.
    + destruct (String.eqb_spec f "") as [->|Hf]; simpl.
      * split; [done|]. intros [(h' & [=] & _)|(f' & [= <-] & Hl)].
        by destruct Hl as [|[|]].
      * destruct (localhost_ips (strip (before_comma f))) eqn:Hx.
        -- split; [|done]. intros _. right. exists f. split; [done|].
           by apply localhost_ips_spec.
        -- split; [done|].
           intros [(h' & [=] & _)|(f' & [= <-] & Hl)].
           apply localhost_ips_spec in Hl. congruence.
    + split; [done|]. by intros [(h' & [=] & _)|(f' & [=] & _)].
Qed.

Definition MSG_KEY_REQUIRED : string :=
  "API key required. Provide via X-API-Key header or api_key query parameter.".
Definition MSG_KEY_INVALID : string := "Invalid API key.".

(** ** The policy in its own words *)

(** [first] is the first comma-separated element of [f]: it holds no comma,
    and [f] is [first] alone or [first], a comma and the rest. *)
Definition spec_first_element (f first : string) : Prop :=
  (f = first ∨ ∃ rest, f = first +:+ String "," rest)
  ∧ ∀ a b, first ≠ a +:+ String "," b.

(** [s] is white space only. *)
Fixpoint spec_blank (s : string) : bool :=
  match s with
  | EmptyString => true
  | String c s' => isspace c && spec_blank s'
  end.

(** [t] is [s] without the white space at its two ends: [s] is [t] between
    two blank strings, and [t] neither starts nor ends with white space. *)
Definition spec_trimmed (s t : string) : Prop :=
  ∃ l r, s = l +:+ t +:+ r
    ∧ spec_blank l = true ∧ spec_blank r = true
    ∧ (∀ c t', t = String c t' → isspace c = false)
    ∧ (∀ t' c, t = t' +:+ String c "" → isspace c = false).

(** A request is local when its client host is one of the three local
    names, or the first comma-separated element of its X-Forwarded-For
    header, without the white space around it, is one of them. *)
Definition spec_local (request : Request) : Prop :=
  (∃ h, client_host request = Some h ∧ local_name h)
  ∨ (∃ f first ip, x_forwarded_for request = Some f
       ∧ spec_first_element f first ∧ spec_trimmed first ip ∧ local_name ip).

(** The key of a request: the X-API-Key header when it is there and not
    empty, and otherwise the [api_key] query parameter when that is there
    and not empty. *)
Definition spec_request_key (x_api_key api_key : option string) (key : string)
  : Prop :=
  key ≠ ""
  ∧ (x_api_key = Some key
     ∨ ((x_api_key = None ∨ x_api_key = Some "") ∧ api_key = Some key)).

(** A request without a key: neither the header nor the parameter is there
    and not empty. *)
Definition spec_no_key (x_api_key api_key : option string) : Prop :=
  (x_api_key = None ∨ x_api_key = Some "")
  ∧ (api_key = None ∨ api_key = Some "").

(** ** The code meets these words *)

Lemma string_app_cons x a b : String x a +:+ b = String x (a +:+ b).
Proof. reflexivity. Qed.

Lemma string_app_nil_l b : "" +:+ b = b.
Proof. reflexivity. Qed.

Lemma string_app_assoc a b c : (a +:+ b) +:+ c = a +:+ (b +:+ c).
Proof.
  induction a as [|x a IH]; [done|]. by rewrite !string_app_cons, IH.
Qed.

Lemma string_app_nil_r a : a +:+ "" = a.
Proof. induction a as [|x a IH]; [done|]. by rewrite string_app_cons, IH. Qed.

Lemma no_comma_cons c s :
  (∀ a b, String c s ≠ a +:+ String "," b) →
  c ≠ ","%char ∧ ∀ a b, s ≠ a +:+ String "," b.
Proof.
  intros Hno. split.
  - intros ->. by apply (Hno "" s).
  - intros a b ->. by apply (Hno (String c a) b).
Qed.

Lemma no_comma_nil a b : "" ≠ a +:+ String "," b.
Proof. by destruct a. Qed.

Lemma before_comma_spec f : spec_first_element f (before_comma f).
Proof.
  induction f as [|c f [IHf IHno]]; simpl.
  - split; [by left|]. apply no_comma_nil.
  - destruct (Ascii.eqb_spec c ","%char) as [->|Hc].
    + split; [right; by exists f|]. apply no_comma_nil.
    + split.
      * destruct IHf as [Heq|[rest Heq]].
        -- left. by rewrite <- Heq.
        -- right. exists rest. by rewrite string_app_cons, <- Heq.
      * intros [|x a] b.
        -- rewrite string_app_nil_l. by intros [= ? _].
        -- rewrite string_app_cons. intros [= _ Heq]. by apply (IHno a b).
Qed.

Lemma before_comma_whole s :
  (∀ a b, s ≠ a +:+ String "," b) → before_comma s = s.
Proof.
  induction s as [|c s IH]; [done|]. intros Hno.
  apply no_comma_cons in Hno as [Hc Hno]. simpl.
  destruct (Ascii.eqb_spec c ","%char) as [->|_]; [done|]. by rewrite IH.
Qed.

Lemma before_comma_app first rest :
  (∀ a b, first ≠ a +:+ String "," b) →
  before_comma (first +:+ String "," rest) = first.
Proof.
  induction first as [|c s IH]; [done|]. intros Hno.
  apply no_comma_cons in Hno as [Hc Hno]. rewrite string_app_cons. simpl.
  destruct (Ascii.eqb_spec c ","%char) as [->|_]; [done|]. by rewrite IH.
Qed.

Lemma before_comma_unique f first :
  spec_first_element f first → first = before_comma f.
Proof.
  intros [[->|[rest ->]] Hno].
  - by rewrite before_comma_whole.
  - by rewrite before_comma_app.
Qed.

Lemma string_rev_app_spec s1 :
  ∀ s2, String.rev_app s1 s2 = String.rev s1 +:+ s2.
Proof.
  induction s1 as [|a s1 IH]; intros s2; [done|].
  unfold String.rev. simpl. rewrite (IH (String a s2)), (IH (String a "")).
  by rewrite string_app_assoc.
Qed.

Lemma string_rev_cons a s :
  String.rev (String a s) = String.rev s +:+ String a "".
Proof. unfold String.rev. simpl. by rewrite string_rev_app_spec. Qed.

Lemma string_rev_app_distr a b :
  String.rev (a +:+ b) = String.rev b +:+ String.rev a.
Proof.
  induction a as [|x a IH].
  - by rewrite string_app_nil_l, string_app_nil_r.
  - by rewrite string_app_cons, !string_rev_cons, IH, string_app_assoc.
Qed.

Lemma string_rev_involutive s : String.rev (String.rev s) = s.
Proof.
  induction s as [|x s IH]; [done|].
  by rewrite string_rev_cons, string_rev_app_distr, IH.
Qed.

Lemma spec_blank_app a b :
  spec_blank (a +:+ b) = (spec_blank a && spec_blank b)%bool.
Proof.
  induction a as [|x a IH]; [done|]. rewrite string_app_cons. simpl.
  rewrite IH. by rewrite andb_assoc.
Qed.

Lemma spec_blank_rev s : spec_blank (String.rev s) = spec_blank s.
Proof.
  induction s as [|x s IH]; [done|].
  rewrite string_rev_cons, spec_blank_app, IH. simpl.
  rewrite andb_true_r. apply andb_comm.
Qed.

Lemma lstrip_split s :
  ∃ l, s = l +:+ lstrip s ∧ spec_blank l = true
       ∧ ∀ c t, lstrip s = String c t → isspace c = false.
Proof.
  induction s as [|c s (l & Hs & Hl & Hfirst)]; simpl.
  - by exists "".
  - destruct (isspace c) eqn:Hc.
    + exists (String c l). rewrite string_app_cons. simpl. rewrite Hc, Hl.
      by rewrite <- Hs.
    + exists "". split; [done|]. split; [done|]. by intros c' t [= -> _].
Qed.

Lemma lstrip_blank l : spec_blank l = true → lstrip l = "".
Proof.
  induction l as [|c l IH]; [done|]. simpl.
  intros [Hc Hl]%andb_true_iff. rewrite Hc. by apply IH.
Qed.

Lemma lstrip_unique l t :
  spec_blank l = true → (∀ c t', t = String c t' → isspace c = false) →
  lstrip (l +:+ t) = t.
Proof.
  intros Hl Ht. induction l as [|c l IH].
  - rewrite string_app_nil_l. destruct t as [|c t']; [done|]. simpl.
    by rewrite (Ht c t').
  - simpl in Hl. apply andb_true_iff in Hl as [Hc Hl].
    rewrite string_app_cons. simpl. rewrite Hc. by apply IH.
Qed.

Lemma no_space_last_rev t :
  (∀ t' c, t = t' +:+ String c "" → isspace c = false) →
  ∀ c u, String.rev t = String c u → isspace c = false.
Proof.
  intros Hlast c u Hrev. apply (Hlast (String.rev u) c).
  by rewrite <- (string_rev_involutive t), Hrev, string_rev_cons.
Qed.

Lemma strip_spec s : spec_trimmed s (strip s).
Proof.
  unfold strip.
  destruct (lstrip_split s) as (l & Hs & Hl & Hfirst).
  destruct (lstrip_split (String.rev (lstrip s))) as (l2 & Hm & Hl2 & Hfirst2).
  set (n := lstrip (String.rev (lstrip s))) in *.
  assert (lstrip s = String.rev n +:+ String.rev l2) as Hmid.
  { by rewrite <- (string_rev_involutive (lstrip s)), Hm, string_rev_app_distr. }
  exists l, (String.rev l2). split; [by rewrite <- Hmid|].
  split; [done|]. split; [by rewrite spec_blank_rev|]. split.
  - intros c t' Hn. apply (Hfirst c (t' +:+ String.rev l2)).
    by rewrite Hmid, Hn.
  - intros t' c Hn. apply (Hfirst2 c (String.rev t')).
    by rewrite <- (string_rev_involutive n), Hn, string_rev_app_distr.
Qed.

Lemma strip_unique s t : spec_trimmed s t → strip s = t.
Proof.
  intros (l & r & -> & Hl & Hr & Hfirst & Hlast). unfold strip.
  destruct t as [|c u].
  - rewrite string_app_nil_l. rewrite (lstrip_blank (l +:+ r)); [done|].
    by rewrite spec_blank_app, Hl, Hr.
  - assert (lstrip (l +:+ String c u +:+ r) = String c u +:+ r) as ->.
    { apply lstrip_unique; [done|]. rewrite string_app_cons.
      intros c' t' [= <- _]. by apply (Hfirst c u). }
    rewrite string_rev_app_distr.
    rewrite (lstrip_unique (String.rev r) (String.rev (String c u))).
    + apply string_rev_involutive.
    + by rewrite spec_blank_rev.
    + by apply no_space_last_rev.
Qed.

Lemma spec_local_spec request :
  is_localhost_request request = true ↔ spec_local request.
Proof.
  rewrite is_localhost_request_spec. unfold spec_local.
  split; (intros [Hhost|Hfwd]; [by left|right]).
  - destruct Hfwd as (f & Hf & Hl).
    exists f, (before_comma f), (strip (before_comma f)).
    split; [done|]. split; [apply before_comma_spec|]. split; [apply strip_spec|done].
  - destruct Hfwd as (f & first & ip & Hf & Hfirst & Hip & Hl).
    exists f. split; [done|].
    by rewrite <- (before_comma_unique f first Hfirst), (strip_unique first ip Hip).
Qed.

Lemma spec_request_key_spec x_api_key api_key key :
  (str_or x_api_key api_key = Some key ∧ key ≠ "")
  ↔ spec_request_key x_api_key api_key key.
Proof.
  unfold spec_request_key, str_or.
  destruct x_api_key as [[|c k]|]; split.
  - intros [-> Hne]. split; [done|]. right. split; [by right|done].
  - intros [Hne [[= <-]|[_ ->]]]; done.
  - intros [[= <-] Hne]. split; [done|by left].
  - intros [Hne [[= <-]|[[|] _]]]; done.
  - intros [-> Hne]. split; [done|]. right. split; [by left|done].
  - intros [Hne [|[_ ->]]]; done.
Qed.

Lemma spec_no_key_spec x_api_key api_key :
  (str_or x_api_key api_key = None ∨ str_or x_api_key api_key = Some "")
  ↔ spec_no_key x_api_key api_key.
Proof.
  unfold spec_no_key, str_or.
  destruct x_api_key as [[|c k]|]; split.
  - intros [->| ->]; (split; [by right|]); [by left|by right].
  - intros [_ [->| ->]]; [by left|by right].
  - by intros [|].
  - by intros [[|] _].
  - intros [->| ->]; (split; [by left|]); [by left|by right].
  - intros [_ [->| ->]]; [by left|by right].
Qed.

(** C2. A request is local when its client host is one of 127.0.0.1, ::1
    and localhost, or when the first comma-separated element of its
    X-Forwarded-For header, without the white space around it, is one of
    them. The key of a request is its X-API-Key header when that is there
    and not empty, and only otherwise its [api_key] query parameter.
    [verify_api_key] lets the request through exactly when it is local or
    its key validates. Of the others, a request without a key gets 401 with
    a message that starts "API key required", and a request whose key
    [validate_key] refuses gets 401 with "Invalid API key.", also when the
    parameter behind a refused header would validate. *)
Theorem verify_api_key_spec request x_api_key api_key r :
  let local := spec_local request in
  let keyed := spec_request_key x_api_key api_key in
  ((∃ info r', verify_api_key request x_api_key api_key r = (Ret info, r'))
   ↔ local ∨ ∃ k info r', keyed k ∧ validate_key k r = (Ret (Some info), r'))
  ∧ (local → verify_api_key request x_api_key api_key r = (Ret None, r))
  ∧ (¬ local → spec_no_key x_api_key api_key →
     verify_api_key request x_api_key api_key r
     = (Raise (HTTPException 401
         "API key required. Provide via X-API-Key header or api_key query parameter."),
        r))
  ∧ (¬ local → ∀ k r', keyed k →
     validate_key k r = (Ret None, r') →
     verify_api_key request x_api_key api_key r
     = (Raise (HTTPException 401 "Invalid API key."), r'))
  ∧ (¬ local → ∀ k info r', keyed k →
     validate_key k r = (Ret (Some info), r') →
     verify_api_key request x_api_key api_key r = (Ret (Some info), r')).
Proof.
  intros local keyed.
  pose proof (spec_local_spec request) as Hloc. fold local in Hloc.
  assert (local → verify_api_key request x_api_key api_key r = (Ret None, r))
    as Hyes.
  { intros Hl. apply Hloc in Hl. unfold verify_api_key. by rewrite Hl. }
  assert (¬ local → is_localhost_request request = false) as Hno.
  { intros Hl. destruct (is_localhost_request request); [|done].
    exfalso. apply Hl. by apply Hloc. }
  split; [split|split; [done|split; [|split]]].
  - intros (info & r' & Hv).
    destruct (is_localhost_request request) eqn:Hl; [left; by apply Hloc|].
    right. unfold verify_api_key in Hv. rewrite Hl in Hv.
    destruct (str_or x_api_key api_key) as [[|c k]|] eqn:Hkey; [done| |done].
    unfold bind in Hv.
    destruct (validate_key (String c k) r) as [[[i|]|e] r''] eqn:Hk; [|done|done].
    exists (String c k), i, r''. split; [|done].
    by apply spec_request_key_spec.
  - intros [Hl | (k & info & r' & Hk & Hv)].
    + exists None, r. by apply Hyes.
    + destruct (is_localhost_request request) eqn:Hl.
      * exists None, r. apply Hyes. by apply Hloc.
      * exists (Some info), r'. unfold verify_api_key. rewrite Hl.
        apply spec_request_key_spec in Hk as [-> Hne].
        destruct k as [|c k]; [done|]. unfold bind. by rewrite Hv.
  - intros Hl Hk. unfold verify_api_key. rewrite (Hno Hl).
    apply spec_no_key_spec in Hk. by destruct Hk as [-> | ->].
  - intros Hl k r' Hk Hv. unfold verify_api_key. rewrite (Hno Hl).
    apply spec_request_key_spec in Hk as [-> Hne].
    destruct k as [|c k]; [done|]. unfold bind. by rewrite Hv.
  - intros Hl k info r' Hk Hv. unfold verify_api_key. rewrite (Hno Hl).
    apply spec_request_key_spec in Hk as [-> Hne].
    destruct k as [|c k]; [done|]. unfold bind. by rewrite Hv.
Qed.

End Gate.

(* ===================================================================== *)
(** * Results and their download *)
(* ===================================================================== *)

Section Results.
Context `{Platform}.

Hypothesis loads_dumps : ∀ d : dict, json_loads (json_dumps d) = Some d.
Hypothesis dumps_nonempty : ∀ d : dict, json_dumps d ≠ "".

Lemma eq_str_spec (v : option (jval float)) s :
  eq_str v s = true ↔ v = Some (JStr s).
Proof.
  destruct v as [[| | |s']|]; simpl; try (split; done).
  destruct (String.eqb_spec s' s) as [->|Hne]; split; try done.
  intros [= ->]. done.
Qed.

(** [result_stored r job_id o]: the result key of [job_id] is absent
    ([o = None]: never written, or expired), or holds the serialised
    dictionary [d] ([o = Some d]), as [store_result] writes it. *)
Definition result_stored (r : redis) (job_id : string) (o : option dict) : Prop :=
  match o with
  | None => db r !! (RESULT_PREFIX +:+ job_id) = None
  | Some d =>
      ∃ ex, db r !! (RESULT_PREFIX +:+ job_id) = Some (RString (json_dumps d) ex)
  end.

Definition is_completed (d : dict) : Prop := d !! "status" = Some (JStr "completed").

(** The audio a result carries: its [audio] field, decoded. *)
Definition audio_of (d : dict) : option bytes :=
  match d !! "audio" with
  | Some (JStr a) => b64decode a
  | _ => None
  end.

Lemma get_result_stored r job_id o :
  result_stored r job_id o → get_result job_id r = (Ret o, r).
Proof.
  unfold get_result, bind, redis_get. destruct o as [d|]; simpl.
  - intros [ex ->]. pose proof (dumps_nonempty d) as Hd.
    destruct (json_dumps d) as [|c s] eqn:Hs; [done|].
    unfold loads. by rewrite <- Hs, loads_dumps.
  - by intros ->.
Qed.

Lemma store_result_stored r job_id (d : dict) s :
  d !! "status" = Some (JStr s) →
  ∃ r', store_result job_id d r = (Ret (), r')
        ∧ result_stored r' job_id (Some d)
        ∧ db r' !! (STATUS_PREFIX +:+ job_id) = Some (RString s (Some RESULT_TTL))
        ∧ sets r' = sets r ++ [(RESULT_PREFIX +:+ job_id, json_dumps d);
                               (STATUS_PREFIX +:+ job_id, s)]
        ∧ ∀ k, k ≠ RESULT_PREFIX +:+ job_id → k ≠ STATUS_PREFIX +:+ job_id →
               db r' !! k = db r !! k.
Proof.
  intros Hs. unfold store_result, bind, redis_set. rewrite Hs. simpl.
  eexists. split; [reflexivity|]. simpl. repeat split.
  - exists (Some RESULT_TTL). rewrite lookup_insert_ne by done.
    by rewrite lookup_insert_eq.
  - by rewrite lookup_insert_eq.
  - by rewrite <- app_assoc.
  - intros k Hk1 Hk2. by rewrite !lookup_insert_ne.
Qed.

(** C8. With the result key of the job absent, [GET /job/{id}/audio] is a
    404. With a stored result whose status is not ["completed"] it is a
    400. With a stored result whose status is ["completed"] it answers with
    the decoded bytes of the [audio] field. So, for results that carry
    decodable audio when they are completed, as those of the worker do,
    the audio is returned if and only if a result is stored and completed.
    Nothing is written. *)
Theorem get_job_audio_spec r job_id o :
  result_stored r job_id o →
  (∀ d, o = Some d → is_completed d → is_Some (audio_of d)) →
  (o = None →
   get_job_audio job_id r
   = (Raise (HTTPException 404 "Job not found or expired"), r))
  ∧ (∀ d, o = Some d → ¬ is_completed d →
     get_job_audio job_id r
     = (Raise (HTTPException 400
                 ("Job status is " +:+ fstr (get_or_null d "status")
                  +:+ ", not completed")), r))
  ∧ (∀ d, o = Some d → is_completed d →
     ∃ resp, get_job_audio job_id r = (Ret resp, r)
             ∧ Some (content resp) = audio_of d
             ∧ media_type resp = "audio/wav")
  ∧ ((∃ resp r', get_job_audio job_id r = (Ret resp, r'))
     ↔ ∃ d, o = Some d ∧ is_completed d).
Proof.
  intros Hst Hwf. apply get_result_stored in Hst.
  assert (∀ d, o = Some d → ¬ is_completed d →
          get_job_audio job_id r
          = (Raise (HTTPException 400
                      ("Job status is " +:+ fstr (get_or_null d "status")
                       +:+ ", not completed")), r)) as H400.
  { intros d -> Hnot. unfold get_job_audio, bind. rewrite Hst.
    destruct (eq_str (d !! "status") "completed") eqn:Hs; [|done].
    by apply eq_str_spec in Hs. }
  assert (∀ d, o = Some d → is_completed d →
          ∃ resp, get_job_audio job_id r = (Ret resp, r)
                  ∧ Some (content resp) = audio_of d
                  ∧ media_type resp = "audio/wav") as H200.
  { intros d -> Hc. destruct (Hwf d eq_refl Hc) as [bs Hbs].
    unfold get_job_audio, bind. rewrite Hst.
    pose proof (proj2 (eq_str_spec (d !! "status") "completed") Hc) as Hs.
    rewrite Hs. simpl. unfold audio_of in Hbs |- *. unfold getitem.
    destruct (d !! "audio") as [[| | |a]|]; try done. simpl.
    unfold py_b64decode. rewrite Hbs. simpl.
    eexists. split; [reflexivity|]. done. }
  repeat split.
  - intros ->. unfold get_job_audio, bind. by rewrite Hst.
  - done.
  - done.
  - intros (resp & r' & Hrun). destruct o as [d|].
    + exists d. split; [done|].
      destruct (eq_str (d !! "status") "completed") eqn:Hs.
      * by apply eq_str_spec.
      * rewrite (H400 d eq_refl) in Hrun; [done|].
        intros Hc. apply eq_str_spec in Hc. congruence.
    + unfold get_job_audio, bind in Hrun. by rewrite Hst in Hrun.
  - intros (d & -> & Hc). destruct (H200 d eq_refl Hc) as (resp & Hrun & _).
    by exists resp, r.
Qed.

End Results.

(* ===================================================================== *)
(** * Submission and inspection *)
(* ===================================================================== *)

Section Gateway.
Context `{Platform}.

Hypothesis loads_dumps : ∀ d : dict, json_loads (json_dumps d) = Some d.
Hypothesis dumps_nonempty : ∀ d : dict, json_dumps d ≠ "".

(** The keys of the registered workers, as [scan_iter] lists them. *)
Definition worker_keys (r : redis) : list string :=
  filter (λ k, String.prefix WORKER_PREFIX k = true) (elements (dom (db r))).

Lemma get_active_workers_length r :
  ∃ ids, get_active_workers r = (Ret ids, r)
         ∧ length ids = length (worker_keys r).
Proof.
  eexists. split; [reflexivity|]. by rewrite length_map.
Qed.

Lemma worker_keys_insert (m : gmap string rval) k v s s' :
  String.prefix WORKER_PREFIX k = false →
  length (worker_keys (Redis (<[k := v]> m) s)) = length (worker_keys (Redis m s')).
Proof.
  intros Hk. unfold worker_keys. simpl.
  destruct (m !! k) as [v'|] eqn:Hm.
  - by rewrite dom_insert_lookup_L.
  - rewrite dom_insert_L.
    assert (k ∉ dom m) as Hnot by (by apply not_elem_of_dom).
    rewrite (elements_union_singleton _ _ Hnot).
    rewrite filter_cons_False; [done|]. by rewrite Hk.
Qed.

Lemma queue_key_not_worker quality :
  String.prefix WORKER_PREFIX (_get_queue_key quality) = false.
Proof. by destruct (queue_key_cases quality) as [-> | ->]. Qed.

Lemma status_key_not_worker id :
  String.prefix WORKER_PREFIX (STATUS_PREFIX +:+ id) = false.
Proof. done. Qed.

Lemma apikey_not_worker id :
  String.prefix WORKER_PREFIX (APIKEY_PREFIX +:+ id) = false.
Proof. done. Qed.

Lemma get_queue_size_holds r quality (jobs : list dict) :
  quality ≠ "" →
  queue_holds r (_get_queue_key quality) jobs →
  get_queue_size (Some quality) r = (Ret (Z.of_nat (length jobs)), r).
Proof.
  intros Hq Hh. unfold get_queue_size.
  destruct quality as [|c q]; [done|].
  unfold queue_holds, redis_lrange_all in Hh. unfold redis_llen.
  destruct (db r !! _get_queue_key (String c q)) as [[| l |]|]; try done.
  - inversion Hh as [Hl]. by rewrite length_rev, length_map.
  - inversion Hh as [Hl]. destruct jobs as [|j jobs]; [done|].
    simpl in Hl. by apply app_cons_not_nil in Hl.
Qed.

Lemma position_scan_absent job_id (jobs : list dict) : ∀ i r,
  Forall (λ j : dict, eq_str (j !! "job_id") job_id = false) jobs →
  position_scan job_id (map json_dumps jobs) i r = (Ret (-1), r).
Proof.
  induction jobs as [|j jobs IH]; intros i r Hall; [done|].
  inversion Hall as [|? ? Hj Hall']; subst. simpl.
  unfold bind, loads. rewrite loads_dumps. simpl. rewrite Hj.
  by apply IH.
Qed.

Lemma position_scan_found job_id (pre : list dict) j post : ∀ i r,
  Forall (λ j' : dict, eq_str (j' !! "job_id") job_id = false) pre →
  eq_str (j !! "job_id") job_id = true →
  position_scan job_id (map json_dumps (pre ++ j :: post)) i r
  = (Ret (i + Z.of_nat (length pre)), r).
Proof.
  induction pre as [|j' pre IH]; intros i r Hall Hj; simpl.
  - unfold bind, loads. rewrite loads_dumps. simpl. rewrite Hj.
    by rewrite Z.add_0_r.
  - inversion Hall as [|? ? Hj' Hall']; subst.
    unfold bind, loads. rewrite loads_dumps. simpl. rewrite Hj'.
    rewrite (IH (i + 1) r Hall' Hj). do 2 f_equal. lia.
Qed.

Lemma get_queue_position_absent r quality job_id (jobs : list dict) :
  queue_holds r (_get_queue_key quality) jobs →
  Forall (λ j : dict, eq_str (j !! "job_id") job_id = false) jobs →
  get_queue_position job_id quality r = (Ret (-1), r).
Proof.
  intros Hq Hall. unfold get_queue_position, bind. rewrite Hq, rev_involutive.
  by apply position_scan_absent.
Qed.

Lemma get_queue_position_found r quality job_id (pre : list dict) j post :
  queue_holds r (_get_queue_key quality) (pre ++ j :: post) →
  Forall (λ j' : dict, eq_str (j' !! "job_id") job_id = false) pre →
  eq_str (j !! "job_id") job_id = true →
  get_queue_position job_id quality r = (Ret (Z.of_nat (length pre)), r).
Proof.
  intros Hq Hall Hj. unfold get_queue_position, bind.
  rewrite Hq, rev_involutive. by rewrite position_scan_found.
Qed.

Lemma model_dump_job_id job_id req created_at timeout :
  TTSJob_model_dump job_id req created_at timeout !! "job_id" = Some (JStr job_id).
Proof. unfold TTSJob_model_dump. by rewrite lookup_insert_eq. Qed.

Lemma queue_holds_lookup r r' key (jobs : list dict) :
  db r' !! key = db r !! key →
  queue_holds r key jobs → queue_holds r' key jobs.
Proof.
  unfold queue_holds, redis_lrange_all. intros ->.
  destruct (db r !! key) as [[| l |]|]; try done.
  - by intros [= ->].
  - by intros [= <-].
Qed.

Lemma enqueue_job_run r quality (jobs : list dict) (job : dict) v :
  queue_holds r (_get_queue_key quality) jobs →
  job !! "job_id" = Some v →
  enqueue_job job quality r
  = (Ret (),
     Redis (<[STATUS_PREFIX +:+ fstr v := RString "pending" (Some RESULT_TTL)]>
              (<[_get_queue_key quality :=
                   RList (json_dumps job :: rev (map json_dumps jobs))]> (db r)))
           (sets r ++ [(STATUS_PREFIX +:+ fstr v, "pending")])).
Proof.
  intros Hq Hid. unfold enqueue_job, bind, redis_lpush, getitem. rewrite Hid.
  unfold queue_holds, redis_lrange_all in Hq.
  destruct (db r !! _get_queue_key quality) as [[| l |]|] eqn:Hk; try done.
  - by inversion Hq.
  - by inversion Hq.
Qed.

Lemma charge_frame r kid secs :
  chargeable r kid →
  ∃ r', increment_usage kid secs r = (Ret (), r')
        ∧ ∀ k, k ≠ APIKEY_PREFIX +:+ kid → db r' !! k = db r !! k.
Proof.
  intros [Hnone | (d & ex & n & a & Hrec & Hn & Ha)].
  - exists r. split; [|done].
    by apply (increment_usage_absent r kid secs).
  - eexists. split.
    + by apply (increment_usage_on_record loads_dumps dumps_nonempty r kid secs d ex n a).
    + intros k Hk. simpl. by rewrite lookup_insert_ne.
Qed.

(** C4, as the code has it. [POST /synthesize/async] answers with status
    pending and with, as [queue_position], the length of the job's quality
    queue taken after the job has been pushed: one more than the number of
    jobs that were in the queue, so 1, not 0, on an empty queue, while the
    zero-based position that [get_queue_position] computes for the job is
    one less. [estimated_wait] is
    [queue_position / workers * AVG_GENERATION_TIME] on that
    [queue_position], with [workers] the number of registered workers, and
    [None] when there is none. *)
Theorem synthesize_async_reports_queue_length
    req api_key_info job_id now r (jobs : list dict) :
  quality req = QUALITY_HIGH ∨ quality req = QUALITY_FAST →
  queue_holds r (_get_queue_key (quality req)) jobs →
  match api_key_info with
  | Some info => chargeable r (fstr (key_id info))
  | None => True
  end →
  let job := TTSJob_model_dump job_id req now JOB_TIMEOUT in
  let workers := Z.of_nat (length (worker_keys r)) in
  let position := Z.of_nat (length jobs) + 1 in
  ∃ r', synthesize_async req api_key_info job_id now r
        = (Ret (mkTTSAsyncResponse job_id PENDING position
                  (if (0 <? workers)%Z
                   then Some (fmul (fdiv (float_of_int position)
                                      (float_of_int workers))
                                AVG_GENERATION_TIME)
                   else None)), r')
      ∧ queue_holds r' (_get_queue_key (quality req)) (jobs ++ [job])
      ∧ (Forall (λ j : dict, eq_str (j !! "job_id") job_id = false) jobs →
         get_queue_position job_id (quality req) r'
         = (Ret (position - 1), r')).
Proof.
  intros Hquality Hq Hcharge job workers position.
  assert (quality req ≠ "") as Hne by (by destruct Hquality as [-> | ->]).
  pose proof (model_dump_job_id job_id req now JOB_TIMEOUT) as Hid.
  fold job in Hid.
  pose proof (enqueue_job_run r (quality req) jobs job _ Hq Hid) as He.
  destruct (enqueue_job_spec r (quality req) jobs job _ Hq Hid)
    as (r1 & He' & Hq1 & _ & _ & Hframe).
  rewrite He in He'. injection He' as <-.
  set (r1 := Redis _ _) in He, Hq1, Hframe.
  assert (length (worker_keys r1) = length (worker_keys r)) as Hw.
  { unfold r1. rewrite (worker_keys_insert _ _ _ _ (sets r)) by done.
    destruct r as [m s]. simpl.
    by rewrite (worker_keys_insert _ _ _ _ s) by apply queue_key_not_worker. }
  assert (∃ r', match api_key_info with
                | Some info => increment_usage (fstr (key_id info)) fzero
                | None => ret ()
                end r1 = (Ret (), r')
                ∧ db r' !! _get_queue_key (quality req)
                  = db r1 !! _get_queue_key (quality req)) as (r' & Hinc & Hsame).
  { destruct api_key_info as [info|]; [|by exists r1].
    assert (chargeable r1 (fstr (key_id info))) as Hc1.
    { assert (db r1 !! (APIKEY_PREFIX +:+ fstr (key_id info))
              = db r !! (APIKEY_PREFIX +:+ fstr (key_id info))) as Hk.
      { apply Hframe; [apply apikey_ne_queue|].
        intros Heq. symmetry in Heq. by apply status_ne_apikey in Heq. }
      unfold chargeable. rewrite Hk. exact Hcharge. }
    destruct (charge_frame r1 _ fzero Hc1) as (r' & Hinc & Hfr).
    exists r'. split; [done|]. apply Hfr.
    intros Heq. symmetry in Heq. by apply apikey_ne_queue in Heq. }
  pose proof (queue_holds_lookup r1 r' _ _ Hsame Hq1) as Hq'.
  exists r'. split; [|split].
  - unfold synthesize_async. fold job. unfold bind at 1. rewrite He.
    unfold bind at 1. rewrite (get_queue_size_holds r1 _ _ Hne Hq1).
    unfold bind at 1. unfold get_active_workers at 1. unfold bind at 1.
    unfold redis_scan_iter at 1. unfold ret at 1.
    rewrite length_map. fold (worker_keys r1). rewrite Hw. fold workers.
    rewrite length_app. simpl length. rewrite Nat2Z.inj_add. simpl Z.of_nat.
    fold position. unfold bind at 1. rewrite Hinc. done.
  - done.
  - intros Hall.
    rewrite (get_queue_position_found r' (quality req) job_id jobs job []).
    + do 2 f_equal. unfold position. lia.
    + done.
    + done.
    + apply eq_str_spec. done.
Qed.

(** C6: what the code does for a pending job of the fast queue. After
    [enqueue_job(job, "fast")], [GET /job/{id}] answers pending with
    [queue_position] -1 whenever no job of the high-quality queue has the
    id, because it asks [get_queue_position] for the default quality; asked
    for ["fast"], [get_queue_position] gives the position, the number of
    jobs that were in the fast queue. *)
Theorem pending_fast_job_reports_minus_one r job_id (job : dict)
    (fasts highs : list dict) :
  job !! "job_id" = Some (JStr job_id) →
  queue_holds r JOBS_QUEUE_FAST fasts →
  queue_holds r JOBS_QUEUE_HIGH highs →
  Forall (λ j : dict, eq_str (j !! "job_id") job_id = false) (fasts ++ highs) →
  db r !! (RESULT_PREFIX +:+ job_id) = None →
  ∃ r1, enqueue_job job QUALITY_FAST r = (Ret (), r1)
    ∧ get_job_status_endpoint job_id r1
      = (Ret (mkJobStatusResponse job_id PENDING (Some (-1)) None None None), r1)
    ∧ get_queue_position job_id QUALITY_FAST r1
      = (Ret (Z.of_nat (length fasts)), r1).
Proof.
  intros Hid Hf Hh Hall Hres.
  apply Forall_app in Hall as [Hallf Hallh].
  destruct (enqueue_job_spec r QUALITY_FAST fasts job _ Hf Hid)
    as (r1 & He & Hq1 & _ & Hst & Hframe).
  simpl fstr in Hst, Hframe.
  change (_get_queue_key QUALITY_FAST) with JOBS_QUEUE_FAST in Hq1, Hframe.
  exists r1. split; [done|].
  assert (queue_holds r1 (_get_queue_key QUALITY_HIGH) highs) as Hh1.
  { apply (queue_holds_lookup r); [|done]. by apply Hframe. }
  split.
  - unfold get_job_status_endpoint. unfold bind at 1.
    unfold get_job_status, redis_get. rewrite Hst.
    unfold bind at 1. unfold get_result. unfold bind at 1.
    unfold redis_get. rewrite Hframe by done. rewrite Hres.
    unfold ret at 1. unfold bind at 1.
    change (JobStatus_of "pending" r1) with (Ret PENDING, r1).
    change (String.eqb "pending" "pending") with true. cbv beta iota.
    unfold bind.
    by rewrite (get_queue_position_absent r1 "high" job_id highs).
  - rewrite (get_queue_position_found r1 QUALITY_FAST job_id fasts job []);
      [done|done|done|].
    by apply eq_str_spec.
Qed.

End Gateway.

(* ===================================================================== *)
(** * The worker and the status of a job *)
(* ===================================================================== *)

Section Worker.
Context `{Platform}.

Hypothesis loads_dumps : ∀ d : dict, json_loads (json_dumps d) = Some d.

(** The values written to the status key of a job, oldest first. *)
Definition status_writes (job_id : string) (r : redis) : list string :=
  (filter (λ kv, kv.1 = STATUS_PREFIX +:+ job_id) (sets r)).*2.

(** The metrics key is free or holds a hash, so that [HINCRBY] works. *)
Definition metrics_ok (r : redis) : Prop :=
  db r !! METRICS_KEY = None ∨ ∃ h, db r !! METRICS_KEY = Some (RHash h).

Lemma status_writes_app job_id r r' l :
  sets r' = sets r ++ l →
  status_writes job_id r'
  = status_writes job_id r
    ++ (filter (λ kv, kv.1 = STATUS_PREFIX +:+ job_id) l).*2.
Proof.
  intros Hs. unfold status_writes. by rewrite Hs, filter_app, fmap_app.
Qed.

Lemma status_writes_same job_id r r' :
  sets r' = sets r → status_writes job_id r' = status_writes job_id r.
Proof. intros Hs. unfold status_writes. by rewrite Hs. Qed.

Lemma metrics_ok_lookup r r' :
  db r' !! METRICS_KEY = db r !! METRICS_KEY → metrics_ok r → metrics_ok r'.
Proof. unfold metrics_ok. by intros ->. Qed.

Lemma increment_metric_ok metric amount r :
  metrics_ok r →
  ∃ r', increment_metric metric amount r = (Ret (), r')
        ∧ sets r' = sets r
        ∧ ∀ k, k ≠ METRICS_KEY → db r' !! k = db r !! k.
Proof.
  unfold increment_metric, redis_hincrby.
  intros [-> | [h ->]]; eexists; (split; [reflexivity|]); simpl;
    (split; [done|]); intros k Hk; by rewrite lookup_insert_ne.
Qed.

Lemma heartbeat_frame self now r :
  ∃ self' r', _update_heartbeat self now r = (Ret self', r')
    ∧ self_quality self' = self_quality self
    ∧ (∀ k, k ≠ WORKER_PREFIX +:+ self_worker_id self → db r' !! k = db r !! k)
    ∧ ∀ job_id, status_writes job_id r' = status_writes job_id r.
Proof.
  unfold _update_heartbeat.
  destruct (fle _ _).
  - eexists _, _. split; [reflexivity|]. simpl. split; [done|]. split.
    + intros k Hk. by rewrite lookup_insert_ne.
    + intros job_id. erewrite status_writes_app; [|reflexivity].
      rewrite filter_cons_False; [by rewrite filter_nil, app_nil_r|].
      simpl. intros Heq. symmetry in Heq. by apply status_ne_worker in Heq.
  - by exists self, r.
Qed.

(** The status a run of [_process_job] leads to, and the writes to the
    status key it makes on the way: none when the reference audio cannot be
    loaded, ["processing"] otherwise. *)
Definition reference_of (ext : Externals) (job : dict) : outcome (option string) :=
  load_reference ext (job !! "reference_audio") (job !! "reference_text").

Definition synthesis_of (ext : Externals) (job : dict) (text : string)
    (path : option string) : outcome (bytes * float) :=
  synthesize_to_bytes ext (JStr text)
    (get_or_null job "gender") (get_or_null job "area")
    (get_or_null job "emotion") path (get_or_null job "reference_text").

Definition outcome_of (ext : Externals) (job : dict) (text : string) : dict :=
  match reference_of ext job with
  | Raise e => error_result ext e
  | Ret path =>
      match synthesis_of ext job text path with
      | Ret (audio_bytes, audio_duration) =>
          completed_result ext audio_bytes audio_duration
      | Raise e => error_result ext e
      end
  end.

Definition writes_while_processing (ext : Externals) (job : dict) : list string :=
  match reference_of ext job with
  | Raise _ => []
  | Ret _ => ["processing"]
  end.

Definition final_status (ext : Externals) (job : dict) (text : string) : string :=
  match reference_of ext job with
  | Raise _ => "error"
  | Ret path =>
      match synthesis_of ext job text path with
      | Ret _ => "completed"
      | Raise _ => "error"
      end
  end.

Lemma outcome_status ext job text :
  outcome_of ext job text !! "status" = Some (JStr (final_status ext job text)).
Proof.
  unfold outcome_of, final_status.
  destruct (reference_of ext job) as [path|e]; [|done].
  by destruct (synthesis_of ext job text path) as [[b d]|e].
Qed.

Lemma process_job_run ext (job : dict) job_id text r :
  job !! "job_id" = Some (JStr job_id) →
  job !! "text" = Some (JStr text) →
  metrics_ok r →
  ∃ r', _process_job ext job r = (Ret (outcome_of ext job text), r')
    ∧ status_writes job_id r'
      = status_writes job_id r ++ writes_while_processing ext job
    ∧ ∀ k, k ≠ METRICS_KEY → k ≠ STATUS_PREFIX +:+ job_id →
           db r' !! k = db r !! k.
Proof.
  intros Hid Htext Hm.
  unfold _process_job. unfold bind at 1. unfold getitem at 1. rewrite Hid.
  unfold ret at 1. unfold bind at 1. unfold getitem at 1. rewrite Htext.
  unfold ret at 1. unfold bind at 1. simpl py_len. unfold ret at 1.
  unfold try_except, _process_job_try.
  unfold bind at 1. unfold lift at 1.
  unfold outcome_of, writes_while_processing.
  fold (reference_of ext job).
  destruct (reference_of ext job) as [path|e].
  - unfold bind at 1. unfold set_job_status, redis_set. simpl fstr.
    set (r1 := Redis _ _).
    assert (metrics_ok r1) as Hm1.
    { apply (metrics_ok_lookup r); [|done]. unfold r1. simpl.
      rewrite lookup_insert_ne; [done|]. apply status_ne_metrics. }
    unfold bind at 1. unfold lift at 1. fold (synthesis_of ext job text path).
    destruct (synthesis_of ext job text path) as [[audio_bytes audio_duration]|e].
    + destruct (increment_metric_ok "jobs_completed" 1 r1 Hm1) as (r2 & Hi & Hs & Hf).
      unfold bind. rewrite Hi. exists r2. split; [done|]. split.
      * rewrite (status_writes_same _ r1 r2 Hs).
        unfold r1. erewrite status_writes_app; [|reflexivity].
        by rewrite filter_cons_True, filter_nil.
      * intros k Hk1 Hk2. rewrite Hf by done. unfold r1. simpl.
        by rewrite lookup_insert_ne.
    + unfold _process_job_except.
      destruct (increment_metric_ok "jobs_failed" 1 r1 Hm1) as (r2 & Hi & Hs & Hf).
      unfold bind. rewrite Hi. exists r2. split; [done|]. split.
      * rewrite (status_writes_same _ r1 r2 Hs).
        unfold r1. erewrite status_writes_app; [|reflexivity].
        by rewrite filter_cons_True, filter_nil.
      * intros k Hk1 Hk2. rewrite Hf by done. unfold r1. simpl.
        by rewrite lookup_insert_ne.
  - unfold _process_job_except.
    destruct (increment_metric_ok "jobs_failed" 1 r Hm) as (r2 & Hi & Hs & Hf).
    unfold bind. rewrite Hi. exists r2. split; [done|]. split.
    + rewrite (status_writes_same _ r r2 Hs). by rewrite app_nil_r.
    + intros k Hk1 Hk2. by apply Hf.
Qed.

Lemma metrics_ne_worker id : METRICS_KEY ≠ WORKER_PREFIX +:+ id.
Proof. discriminate. Qed.

Lemma metrics_ne_result id : METRICS_KEY ≠ RESULT_PREFIX +:+ id.
Proof. discriminate. Qed.

(** One turn of the worker loop on a queue whose oldest job is [job]. *)
Lemma run_iteration_on_job self ext now r (job : dict) job_id text rest :
  queue_holds r (_get_queue_key (self_quality self)) (job :: rest) →
  job !! "job_id" = Some (JStr job_id) →
  job !! "text" = Some (JStr text) →
  metrics_ok r →
  ∃ self' r', run_iteration self ext now r = (Ret self', r')
    ∧ status_writes job_id r'
      = status_writes job_id r ++ writes_while_processing ext job
        ++ [final_status ext job text]
    ∧ get_job_status job_id r' = (Ret (Some (final_status ext job text)), r')
    ∧ queue_holds r' (_get_queue_key (self_quality self)) rest
    ∧ result_stored r' job_id (Some (outcome_of ext job text)).
Proof.
  intros Hq Hid Htext Hm.
  destruct (heartbeat_frame self now r) as (self1 & r1 & Hhb & Hqual & Hf1 & Hw1).
  assert (queue_holds r1 (_get_queue_key (self_quality self)) (job :: rest)) as Hq1.
  { apply (queue_holds_lookup r); [|done]. apply Hf1.
    intros Heq. symmetry in Heq. by apply worker_ne_queue in Heq. }
  assert (metrics_ok r1) as Hm1.
  { apply (metrics_ok_lookup r); [|done]. apply Hf1. apply metrics_ne_worker. }
  destruct (dequeue_job_some loads_dumps r1 (self_quality self) 5 job rest Hq1)
    as (r2 & Hd & Hq2 & Hs2 & Hf2).
  assert (metrics_ok r2) as Hm2.
  { apply (metrics_ok_lookup r1); [|done]. apply Hf2. apply metrics_ne_queue. }
  destruct (process_job_run ext job job_id text r2 Hid Htext Hm2)
    as (r3 & Hp & Hw3 & Hf3).
  destruct (store_result_stored r3 job_id _ _ (outcome_status ext job text))
    as (r4 & Hst & Hres & Hstatus & Hs4 & Hf4).
  exists self1, r4. split; [|split; [|split; [|split]]].
  - unfold run_iteration. unfold bind at 1. rewrite Hhb.
    unfold bind at 1. rewrite Hqual, Hd.
    unfold bind at 1. rewrite Hp.
    unfold bind at 1. unfold getitem. rewrite Hid. unfold ret at 1.
    unfold bind. simpl fstr. by rewrite Hst.
  - erewrite (status_writes_app job_id r3 r4); [|exact Hs4].
    rewrite filter_cons_False.
    2:{ simpl. intros Heq. symmetry in Heq. by apply status_ne_result in Heq. }
    rewrite filter_cons_True by done. rewrite filter_nil.
    rewrite Hw3, (status_writes_same _ r1 r2 Hs2), Hw1.
    by rewrite <- app_assoc.
  - unfold get_job_status, redis_get. by rewrite Hstatus.
  - apply (queue_holds_lookup r2); [|done].
    rewrite Hf4, Hf3; [done| | | |].
    + intros Heq. symmetry in Heq. by apply metrics_ne_queue in Heq.
    + intros Heq. symmetry in Heq. by apply status_ne_queue in Heq.
    + intros Heq. symmetry in Heq. by apply result_ne_queue in Heq.
    + intros Heq. symmetry in Heq. by apply status_ne_queue in Heq.
  - done.
Qed.

(** The status trace of a job from its submission to the end of the worker
    turn that takes it. *)
Lemma job_status_trace self ext now r quality (job : dict) job_id text :
  _get_queue_key quality = _get_queue_key (self_quality self) →
  queue_holds r (_get_queue_key quality) [] →
  metrics_ok r →
  job !! "job_id" = Some (JStr job_id) →
  job !! "text" = Some (JStr text) →
  ∃ r1 r2 self',
    enqueue_job job quality r = (Ret (), r1)
    ∧ run_iteration self ext now r1 = (Ret self', r2)
    ∧ status_writes job_id r2
      = status_writes job_id r ++ "pending" :: writes_while_processing ext job
        ++ [final_status ext job text]
    ∧ get_job_status job_id r2 = (Ret (Some (final_status ext job text)), r2).
Proof.
  intros Hclass Hq Hm Hid Htext.
  destruct (enqueue_job_spec r quality [] job _ Hq Hid)
    as (r1 & He & Hq1 & Hs1 & _ & Hf1).
  simpl fstr in Hs1, Hf1. simpl app in Hq1. rewrite Hclass in Hq1.
  assert (metrics_ok r1) as Hm1.
  { apply (metrics_ok_lookup r); [|done]. apply Hf1.
    - apply metrics_ne_queue.
    - intros Heq. symmetry in Heq. by apply status_ne_metrics in Heq. }
  destruct (run_iteration_on_job self ext now r1 job job_id text [] Hq1 Hid Htext Hm1)
    as (self' & r2 & Hrun & Hw & Hg & _).
  exists r1, r2, self'. split; [done|]. split; [done|]. split; [|done].
  rewrite Hw. erewrite (status_writes_app job_id r r1); [|exact Hs1].
  rewrite filter_cons_True by done. rewrite filter_nil. simpl.
  by rewrite <- app_assoc.
Qed.

(** C1: what the code does with a job whose reference audio cannot be
    loaded. The job is enqueued and a worker of its class takes it; decoding
    or preprocessing the reference audio raises. The values written to the
    status key of the job are then ["pending"] and ["error"]:
    ["processing"] is never written, and the status read back is
    ["error"]. *)
Theorem failed_reference_skips_processing self ext now r quality
    (job : dict) job_id text e :
  _get_queue_key quality = _get_queue_key (self_quality self) →
  queue_holds r (_get_queue_key quality) [] →
  metrics_ok r →
  job !! "job_id" = Some (JStr job_id) →
  job !! "text" = Some (JStr text) →
  reference_of ext job = Raise e →
  ∃ r1 r2 self',
    enqueue_job job quality r = (Ret (), r1)
    ∧ run_iteration self ext now r1 = (Ret self', r2)
    ∧ status_writes job_id r2 = status_writes job_id r ++ ["pending"; "error"]
    ∧ get_job_status job_id r2 = (Ret (Some "error"), r2).
Proof.
  intros Hclass Hq Hm Hid Htext Href.
  destruct (job_status_trace self ext now r quality job job_id text
              Hclass Hq Hm Hid Htext) as (r1 & r2 & self' & He & Hrun & Hw & Hg).
  exists r1, r2, self'. unfold writes_while_processing, final_status in Hw, Hg.
  rewrite Href in Hw, Hg. done.
Qed.

(** X22. The regular case: when a job is enqueued on an idle queue and a
    worker of its class takes it, with no reference audio or one that
    loads, the values written to the status key of the job are
    ["pending"], ["processing"] and then one of ["completed"] and
    ["error"], in that order, and the last one is the status read back. *)
Lemma loaded_reference_status_order self ext now r quality
    (job : dict) job_id text path :
  _get_queue_key quality = _get_queue_key (self_quality self) →
  queue_holds r (_get_queue_key quality) [] →
  metrics_ok r →
  job !! "job_id" = Some (JStr job_id) →
  job !! "text" = Some (JStr text) →
  reference_of ext job = Ret path →
  ∃ r1 r2 self' final,
    enqueue_job job quality r = (Ret (), r1)
    ∧ run_iteration self ext now r1 = (Ret self', r2)
    ∧ status_writes job_id r2
      = status_writes job_id r ++ ["pending"; "processing"; final]
    ∧ (final = "completed" ∨ final = "error")
    ∧ get_job_status job_id r2 = (Ret (Some final), r2).
Proof.
  intros Hclass Hq Hm Hid Htext Href.
  destruct (job_status_trace self ext now r quality job job_id text
              Hclass Hq Hm Hid Htext) as (r1 & r2 & self' & He & Hrun & Hw & Hg).
  exists r1, r2, self', (final_status ext job text).
  unfold writes_while_processing in Hw. rewrite Href in Hw.
  repeat split; try done.
  unfold final_status. rewrite Href.
  destruct (synthesis_of ext job text path); auto.
Qed.

End Worker.

Section WorkerResults.
Context `{Platform}.

Hypothesis b64_round_trip : ∀ bs, b64decode (b64encode bs) = Some bs.

(** The results of the worker are the results [get_job_audio_spec] is
    about: a completed one carries the audio, encoded. *)
Lemma worker_result_audio ext (job : dict) text :
  is_completed (outcome_of ext job text) →
  is_Some (audio_of (outcome_of ext job text)).
Proof.
  unfold outcome_of.
  destruct (reference_of ext job) as [path|e]; [|done].
  destruct (synthesis_of ext job text path) as [[audio_bytes audio_duration]|e];
    [|done].
  intros _. exists audio_bytes. unfold audio_of, completed_result.
  rewrite lookup_insert_ne by done. rewrite lookup_insert_eq.
  apply b64_round_trip.
Qed.

Lemma worker_result_status ext (job : dict) text :
  is_completed (outcome_of ext job text) ∨
  outcome_of ext job text !! "status" = Some (JStr "error").
Proof.
  unfold outcome_of, is_completed.
  destruct (reference_of ext job) as [path|e]; [|by right].
  destruct (synthesis_of ext job text path) as [[audio_bytes audio_duration]|e];
    [by left|by right].
Qed.

End WorkerResults.

(* ===================================================================== *)
(** * The gate on a store of created keys *)
(* ===================================================================== *)

Section GateOnKeys.
Context `{Platform}.

Hypothesis loads_dumps : ∀ d : dict, json_loads (json_dumps d) = Some d.
Hypothesis dumps_nonempty : ∀ d : dict, json_dumps d ≠ "".

(** Charging a key keeps the store a store of created keys: the digest and
    the descriptive fields of the record stay. *)
Lemma keys_from_increment r S kid secs :
  keys_from r S → keys_from (increment_usage kid secs r).2 S.
Proof.
  intros Hk. unfold increment_usage. unfold bind at 1. unfold redis_get.
  destruct (db r !! (APIKEY_PREFIX +:+ kid)) as [v|] eqn:Hv; [|done].
  destruct (Hk kid v Hv) as (secret & d & ex & Hin & -> & Hh & Hid & Hname & Hat).
  pose proof (dumps_nonempty d) as Hd.
  destruct (json_dumps d) as [|c s] eqn:Hs; [done|].
  unfold bind at 1. unfold loads. rewrite <- Hs, loads_dumps. unfold ret at 1.
  unfold bind at 1.
  destruct (py_add (default (JInt 0) (d !! "requests_count")) (JInt 1) r)
    as [[rc|e] r1] eqn:Hrc.
  2:{ assert (r1 = r) as ->; [|done].
      unfold py_add in Hrc.
      destruct (default (JInt 0) (d !! "requests_count")); by inversion Hrc. }
  assert (r1 = r) as ->.
  { unfold py_add in Hrc.
    destruct (default (JInt 0) (d !! "requests_count")); by inversion Hrc. }
  unfold bind at 1.
  destruct (py_add _ (JFloat secs) r) as [[a|e] r1] eqn:Ha.
  2:{ assert (r1 = r) as ->; [|done].
      unfold py_add in Ha.
      destruct (default (JFloat fzero) _); by inversion Ha. }
  assert (r1 = r) as ->.
  { unfold py_add in Ha. destruct (default (JFloat fzero) _); by inversion Ha. }
  intros kid' v'. simpl.
  destruct (decide (APIKEY_PREFIX +:+ kid = APIKEY_PREFIX +:+ kid')) as [Heq|Hne].
  - rewrite Heq, lookup_insert_eq. intros [= <-].
    exists secret, (<["audio_seconds" := a]> (<["requests_count" := rc]> d)), None.
    split; [done|]. split; [done|].
    by rewrite !lookup_insert_ne.
  - rewrite lookup_insert_ne by done. apply Hk.
Qed.

Lemma keys_from_delete r S kid :
  keys_from r S → keys_from (delete_key kid r).2 S.
Proof.
  intros Hk. unfold delete_key, bind, redis_delete.
  destruct (db r !! (APIKEY_PREFIX +:+ kid)) as [v|] eqn:Hv; [|done].
  intros kid' v'. simpl.
  destruct (decide (APIKEY_PREFIX +:+ kid = APIKEY_PREFIX +:+ kid')) as [Heq|Hne].
  - by rewrite Heq, lookup_delete_eq.
  - rewrite lookup_delete_ne by done. apply Hk.
Qed.

(** X23. On a store of created keys [verify_api_key] has no other way out
    than those of the policy: it returns [None] (a local request), returns
    the info of a key, or raises one of the two 401s; it raises nothing
    else and writes nothing. *)
Lemma verify_api_key_on_created_keys request x_api_key api_key r S :
  keys_from r S →
  verify_api_key request x_api_key api_key r = (Ret None, r)
  ∨ (∃ info, verify_api_key request x_api_key api_key r = (Ret (Some info), r))
  ∨ verify_api_key request x_api_key api_key r
    = (Raise (HTTPException 401 MSG_KEY_REQUIRED), r)
  ∨ verify_api_key request x_api_key api_key r
    = (Raise (HTTPException 401 MSG_KEY_INVALID), r).
Proof.
  intros Hk. unfold verify_api_key.
  destruct (is_localhost_request request); [by left|].
  destruct (str_or x_api_key api_key) as [[|c k]|]; [by right; right; left| |by right; right; left].
  unfold bind.
  destruct (validate_key_created loads_dumps dumps_nonempty r S (String c k) Hk)
    as [-> | (info & secret & -> & _)].
  - by right; right; right.
  - right. left. by exists info.
Qed.

End GateOnKeys.

(* ===================================================================== *)
(** * The theorems on the executable platform *)
(* ===================================================================== *)

Lemma failed_reference_skips_processing_witness :
  @reference_of Ref.platform Ref.externals_no_decoder (Ref.cloning_job "job-7")
  = Raise (PyError "CouldntDecodeError" "Decoding failed")
  ∧ ∃ r1 r2 self',
      @enqueue_job Ref.platform (Ref.cloning_job "job-7") "high" Ref.empty
      = (Ret (), r1)
      ∧ @run_iteration Ref.platform Ref.worker Ref.externals_no_decoder
          (21 # 1)%Q r1 = (Ret self', r2)
      ∧ status_writes "job-7" r2
        = status_writes "job-7" Ref.empty ++ ["pending"; "error"]
      ∧ get_job_status "job-7" r2 = (Ret (Some "error"), r2).
Proof.
  split; [vm_compute; reflexivity|].
  apply (@failed_reference_skips_processing Ref.platform ref_loads_dumps
           Ref.worker Ref.externals_no_decoder (21 # 1)%Q Ref.empty "high"
           (Ref.cloning_job "job-7") "job-7" "xin chao"
           (PyError "CouldntDecodeError" "Decoding failed")).
  - reflexivity.
  - vm_compute. reflexivity.
  - left. reflexivity.
  - vm_compute. reflexivity.
  - vm_compute. reflexivity.
  - vm_compute. reflexivity.
Defined.

Lemma synthesize_async_reports_queue_length_witness :
  ∃ r', @synthesize_async Ref.platform (Ref.request "high") None "job-1"
          (17 # 1)%Q Ref.empty
        = (Ret (@mkTTSAsyncResponse Ref.platform "job-1" PENDING 1 None), r')
      ∧ @queue_holds Ref.platform r' JOBS_QUEUE_HIGH [Ref.job "job-1" "high"]
      ∧ (Forall (λ j : gmap string (jval Q),
                   @eq_str Ref.platform (j !! "job_id") "job-1" = false) [] →
         @get_queue_position Ref.platform "job-1" "high" r' = (Ret 0, r')).
Proof.
  apply (@synthesize_async_reports_queue_length Ref.platform
           ref_loads_dumps ref_dumps_nonempty
           (Ref.request "high") None "job-1" (17 # 1)%Q Ref.empty []).
  - left. reflexivity.
  - vm_compute. reflexivity.
  - exact I.
Defined.

(** C4 as it is stated fails on an empty queue with no worker: the body of
    the answer carries [queue_position] 1. *)
Lemma async_queue_position_counterexample :
  @queue_holds Ref.platform Ref.empty JOBS_QUEUE_HIGH []
  ∧ ∃ resp r',
      @synthesize_async Ref.platform (Ref.request "high") None "job-1"
        (17 # 1)%Q Ref.empty = (Ret resp, r')
      ∧ async_status resp = PENDING
      ∧ async_queue_position resp = 1
      ∧ async_queue_position resp ≠ 0.
Proof.
  split; [vm_compute; reflexivity|].
  eexists _, _. split; [vm_compute; reflexivity|]. simpl. done.
Defined.

Lemma pending_fast_job_reports_minus_one_witness :
  ∃ r1, @enqueue_job Ref.platform (Ref.job "job-2" "fast") QUALITY_FAST Ref.empty
        = (Ret (), r1)
    ∧ @get_job_status_endpoint Ref.platform "job-2" r1
      = (Ret (@mkJobStatusResponse Ref.platform "job-2" PENDING (Some (-1))
                None None None), r1)
    ∧ @get_queue_position Ref.platform "job-2" QUALITY_FAST r1 = (Ret 0, r1).
Proof.
  apply (@pending_fast_job_reports_minus_one Ref.platform ref_loads_dumps
           Ref.empty "job-2" (Ref.job "job-2" "fast") [] []).
  - vm_compute. reflexivity.
  - vm_compute. reflexivity.
  - vm_compute. reflexivity.
  - constructor.
  - reflexivity.
Defined.

Lemma increment_usage_spec_witness :
  @increment_usage Ref.platform "00000000" (5 # 2)%Q Ref.with_key
  = (Ret (), Ref.with_key)
  ∧ ∃ d' : gmap string (jval Q),
      (@increment_usage Ref.platform "99999999" (5 # 2)%Q Ref.with_key).1 = Ret ()
      ∧ d' !! "requests_count" = Some (JInt 1)
      ∧ d' !! "audio_seconds" = Some (JFloat (0 + (5 # 2))%Q)
      ∧ d' !! "name" = Some (JStr "alice").
Proof.
  destruct (@increment_usage_spec Ref.platform ref_loads_dumps ref_dumps_nonempty
              Ref.with_key "00000000" (5 # 2)%Q) as [Habsent _].
  split; [apply Habsent; vm_compute; reflexivity|].
  destruct (@increment_usage_spec Ref.platform ref_loads_dumps ref_dumps_nonempty
              Ref.with_key "99999999" (5 # 2)%Q) as [_ Hrecord].
  destruct (Hrecord
              (@key_record Ref.platform "99999999" ("vvtts_" +:+ Ref.token)
                 "alice" (3 # 1)%Q) None 0 0%Q)
    as (d' & Hrun & Hcount & Hsecs & _ & Hname & _).
  - vm_compute. reflexivity.
  - vm_compute. reflexivity.
  - vm_compute. reflexivity.
  - exists d'. rewrite Hrun. repeat split; done.
Defined.

Lemma validate_key_spec_witness :
  ∃ r, @create_keys Ref.platform [("alice", Ref.token, (3 # 1)%Q)] Ref.empty
       = (Ret ["vvtts_" +:+ Ref.token], r)
    ∧ (∃ info r',
         @create_key Ref.platform "bob" "0123456789abcdef0123456789abcdef"
           (4 # 1)%Q r
         = (Ret ("vvtts_0123456789abcdef0123456789abcdef", info), r')
         ∧ @validate_key Ref.platform "vvtts_0123456789abcdef0123456789abcdef" r'
           = (Ret (Some info), r'))
    ∧ @validate_key Ref.platform "vvtts_89999999999999999999999999999999" r
      = (Ret None, r).
Proof.
  destruct (@validate_key_spec Ref.platform ref_loads_dumps ref_dumps_nonempty
              Ref.empty [("alice", Ref.token, (3 # 1)%Q)] "bob"
              "0123456789abcdef0123456789abcdef" (4 # 1)%Q
              "vvtts_89999999999999999999999999999999")
    as (r & Hcreate & Hfresh & Hother & _).
  - intros kid. apply lookup_empty.
  - reflexivity.
  - exists r. split; [exact Hcreate|]. split; [exact Hfresh|].
    apply Hother.
    + intros Hin. apply list_elem_of_singleton in Hin. discriminate Hin.
    + intros secret Hin. apply list_elem_of_singleton in Hin. subst secret.
      vm_compute. discriminate.
Defined.

Lemma get_job_audio_spec_witness :
  ∃ resp, @get_job_audio Ref.platform "job-7" Ref.served = (Ret resp, Ref.served)
    ∧ Some (content resp)
      = @audio_of Ref.platform
          (@outcome_of Ref.platform Ref.externals (Ref.cloning_job "job-7") "xin chao")
    ∧ media_type resp = "audio/wav".
Proof.
  destruct (@get_job_audio_spec Ref.platform ref_loads_dumps ref_dumps_nonempty
              Ref.served "job-7"
              (Some (@outcome_of Ref.platform Ref.externals
                       (Ref.cloning_job "job-7") "xin chao")))
    as (_ & _ & Hcompleted & _).
  - exists (Some 300). vm_compute. reflexivity.
  - intros d [= <-]. apply (@worker_result_audio Ref.platform ref_b64_round_trip).
  - apply (Hcompleted _ eq_refl). vm_compute. reflexivity.
Defined.

(* ===================================================================== *)
(** * More of shared/redis_client.py: sizes, metrics, the workers' registry *)
(* ===================================================================== *)

Section MoreRedisClient.
Context `{Platform}.

(** [get_queue_sizes]: the dictionary [{"high": ..., "fast": ...}]. *)
Definition get_queue_sizes : M (gmap string Z) :=
  let* high := redis_llen JOBS_QUEUE_HIGH in
  let* fast := redis_llen JOBS_QUEUE_FAST in
  ret (<["high" := high]> {["fast" := fast]}).

(** [HGETALL key], the counters as the integers they are. *)
Definition redis_hgetall (key : string) : M (gmap string Z) :=
  λ r, match db r !! key with
       | None => (Ret ∅, r)
       | Some (RHash h) => (Ret h, r)
       | Some _ => (Raise WRONGTYPE, r)
       end.

(** [get_metrics]: [{k: int(v) for k, v in metrics.items()}] *)
Definition get_metrics : M (gmap string Z) :=
  redis_hgetall METRICS_KEY.

(** [workers[quality].append(worker_id)] on the dictionary
    [{"high": [...], "fast": [...]}], held as the pair of its two lists; any
    other key is a [KeyError]. *)
Definition append_worker (workers : list string * list string)
    (quality : jval float) (worker_id : string)
  : M (list string * list string) :=
  match quality with
  | JStr q =>
      if String.eqb q "high" then ret (workers.1 ++ [worker_id], workers.2)
      else if String.eqb q "fast" then ret (workers.1, workers.2 ++ [worker_id])
      else raise (PyError "KeyError" ("'" +:+ q +:+ "'"))
  | v => raise (PyError "KeyError" (fstr v))
  end.

(** The loop of [get_workers_by_quality] over the scanned keys. A value
    that has gone ([TypeError]) or does not parse ([JSONDecodeError]), and
    equally one that parses to something that is no dictionary, puts the
    worker under ["high"]. *)
Fixpoint group_workers (keys : list string) (workers : list string * list string)
  : M (list string * list string) :=
  match keys with
  | [] => ret workers
  | key :: rest =>
      let worker_id := remove_all (String.length key) WORKER_PREFIX key in
      let* worker_data := redis_get key in
      let* workers :=
        match worker_data ≫= json_loads with
        | Some data =>
            append_worker workers (default (JStr "high") (data !! "quality"))
              worker_id
        | None => ret (workers.1 ++ [worker_id], workers.2)
        end in
      group_workers rest workers
  end.

Definition get_workers_by_quality : M (list string * list string) :=
  let* keys := redis_scan_iter WORKER_PREFIX in
  group_workers keys ([], []).

End MoreRedisClient.

Section QueueSizes.
Context `{Platform}.

Hypothesis loads_dumps : ∀ d : dict, json_loads (json_dumps d) = Some d.

Lemma llen_holds r key (jobs : list dict) :
  queue_holds r key jobs →
  redis_llen key r = (Ret (Z.of_nat (length jobs)), r).
Proof.
  unfold queue_holds, redis_lrange_all, redis_llen.
  destruct (db r !! key) as [[| l |]|]; try done.
  - intros [= ->]. by rewrite length_rev, length_map.
  - intros [= Hl]. destruct jobs as [|j jobs]; [done|].
    simpl in Hl. by apply app_cons_not_nil in Hl.
Qed.

Lemma get_queue_sizes_holds r (highs fasts : list dict) :
  queue_holds r JOBS_QUEUE_HIGH highs →
  queue_holds r JOBS_QUEUE_FAST fasts →
  get_queue_sizes r
  = (Ret (<["high" := Z.of_nat (length highs)]>
            {["fast" := Z.of_nat (length fasts)]}), r)
  ∧ get_queue_size None r
    = (Ret (Z.of_nat (length highs) + Z.of_nat (length fasts)), r).
Proof.
  intros Hh Hf. unfold get_queue_sizes, get_queue_size, bind.
  by rewrite (llen_holds _ _ _ Hh), (llen_holds _ _ _ Hf).
Qed.

(** What a quality adds to the two queues: one job to the fast queue for
    ["fast"], one to the high-quality queue for anything else. *)
Definition in_fast (quality : string) : bool := String.eqb quality QUALITY_FAST.

Lemma queue_key_in_fast quality :
  _get_queue_key quality
  = if in_fast quality then JOBS_QUEUE_FAST else JOBS_QUEUE_HIGH.
Proof. done. Qed.

(** X1. [enqueue_job] adds one job to the queue of its quality and none to
    the other: after it [get_queue_sizes] shows the size of that queue one
    higher and the other as it was, and the total that
    [get_queue_size()] returns is one higher. *)
Theorem enqueue_job_counts r quality (job : dict) v (highs fasts : list dict) :
  queue_holds r JOBS_QUEUE_HIGH highs →
  queue_holds r JOBS_QUEUE_FAST fasts →
  job !! "job_id" = Some v →
  ∃ r', enqueue_job job quality r = (Ret (), r')
    ∧ get_queue_sizes r'
      = (Ret (<["high" := Z.of_nat (length highs)
                          + (if in_fast quality then 0 else 1)]>
                {["fast" := Z.of_nat (length fasts)
                            + (if in_fast quality then 1 else 0)]}), r')
    ∧ get_queue_size None r'
      = (Ret (Z.of_nat (length highs) + Z.of_nat (length fasts) + 1), r').
Proof.
  intros Hh Hf Hid.
  pose proof (queue_key_in_fast quality) as Hkey.
  destruct (in_fast quality) eqn:Hq.
  - rewrite <- Hkey in Hf.
    destruct (enqueue_job_spec r quality fasts job v Hf Hid)
      as (r' & He & Hq' & _ & _ & Hframe).
    rewrite Hkey in Hq', Hframe.
    assert (queue_holds r' JOBS_QUEUE_HIGH highs) as Hh'.
    { apply (queue_holds_lookup r); [|done]. apply Hframe; [done|].
      intros Heq. symmetry in Heq. by apply (status_ne_queue _ QUALITY_HIGH) in Heq. }
    exists r'. split; [done|].
    destruct (get_queue_sizes_holds r' _ _ Hh' Hq') as [-> ->].
    rewrite length_app, Nat2Z.inj_add. simpl.
    split; do 2 f_equal; [by rewrite Z.add_0_r|lia].
  - rewrite <- Hkey in Hh.
    destruct (enqueue_job_spec r quality highs job v Hh Hid)
      as (r' & He & Hq' & _ & _ & Hframe).
    rewrite Hkey in Hq', Hframe.
    assert (queue_holds r' JOBS_QUEUE_FAST fasts) as Hf'.
    { apply (queue_holds_lookup r); [|done]. apply Hframe; [done|].
      intros Heq. symmetry in Heq. by apply (status_ne_queue _ QUALITY_FAST) in Heq. }
    exists r'. split; [done|].
    destruct (get_queue_sizes_holds r' _ _ Hq' Hf') as [-> ->].
    rewrite length_app, Nat2Z.inj_add. simpl.
    split; do 2 f_equal; [by rewrite Z.add_0_r|lia].
Qed.

(** X2. [dequeue_job] takes the oldest job of the queue of its quality, if
    there is one, and leaves the other queue alone: the sizes that
    [get_queue_sizes] shows afterwards are those of the two queues without
    that job, and on an empty queue nothing changes. *)
Theorem dequeue_job_counts r quality timeout (highs fasts : list dict) :
  queue_holds r JOBS_QUEUE_HIGH highs →
  queue_holds r JOBS_QUEUE_FAST fasts →
  let mine := if in_fast quality then fasts else highs in
  ∃ r', dequeue_job quality timeout r = (Ret (head mine), r')
    ∧ (mine = [] → r' = r)
    ∧ queue_holds r' JOBS_QUEUE_HIGH (if in_fast quality then highs else tail highs)
    ∧ queue_holds r' JOBS_QUEUE_FAST (if in_fast quality then tail fasts else fasts)
    ∧ get_queue_sizes r'
      = (Ret (<["high" := Z.of_nat (length (if in_fast quality then highs
                                             else tail highs))]>
                {["fast" := Z.of_nat (length (if in_fast quality then tail fasts
                                               else fasts))]}), r').
Proof.
  intros Hh Hf mine. unfold mine.
  pose proof (queue_key_in_fast quality) as Hkey.
  destruct (in_fast quality) eqn:Hq.
  - rewrite <- Hkey in Hf. destruct fasts as [|j rest].
    + exists r. rewrite (dequeue_job_none r quality timeout Hf).
      rewrite Hkey in Hf. repeat split; try done.
      by destruct (get_queue_sizes_holds r _ _ Hh Hf).
    + destruct (dequeue_job_some loads_dumps r quality timeout j rest Hf)
        as (r' & Hd & Hq' & _ & Hframe).
      rewrite Hkey in Hq', Hframe.
      assert (queue_holds r' JOBS_QUEUE_HIGH highs) as Hh'.
      { apply (queue_holds_lookup r); [|done]. by apply Hframe. }
      exists r'. repeat split; try done.
      by destruct (get_queue_sizes_holds r' _ _ Hh' Hq').
  - rewrite <- Hkey in Hh. destruct highs as [|j rest].
    + exists r. rewrite (dequeue_job_none r quality timeout Hh).
      rewrite Hkey in Hh. repeat split; try done.
      by destruct (get_queue_sizes_holds r _ _ Hh Hf).
    + destruct (dequeue_job_some loads_dumps r quality timeout j rest Hh)
        as (r' & Hd & Hq' & _ & Hframe).
      rewrite Hkey in Hq', Hframe.
      assert (queue_holds r' JOBS_QUEUE_FAST fasts) as Hf'.
      { apply (queue_holds_lookup r); [|done]. by apply Hframe. }
      exists r'. repeat split; try done.
      by destruct (get_queue_sizes_holds r' _ _ Hq' Hf').
Qed.

End QueueSizes.

Section StoredResults.
Context `{Platform}.

Hypothesis loads_dumps : ∀ d : dict, json_loads (json_dumps d) = Some d.
Hypothesis dumps_nonempty : ∀ d : dict, json_dumps d ≠ "".

(** X3. A result comes back as stored: after [store_result(job_id, d)],
    [get_result(job_id)] is the dictionary [d] and [get_job_status(job_id)]
    is its [status] field, or ["completed"] when [d] has none; the result
    and the status of every other job are as before. *)
Theorem store_result_round_trip r job_id (d : dict) :
  let status := default (JStr "completed") (d !! "status") in
  status ≠ JNull →
  ∃ r', store_result job_id d r = (Ret (), r')
    ∧ get_result job_id r' = (Ret (Some d), r')
    ∧ get_job_status job_id r' = (Ret (Some (fstr status)), r')
    ∧ ∀ other, other ≠ job_id →
        get_result other r' = (let (o, _) := get_result other r in o, r')
        ∧ get_job_status other r'
          = (let (o, _) := get_job_status other r in o, r').
Proof.
  intros status Hstatus.
  assert (redis_encode status
          = ret (fstr status)) as Henc by (by destruct status).
  unfold store_result. fold status. rewrite Henc.
  eexists. split; [reflexivity|]. simpl. split; [|split].
  - apply (get_result_stored loads_dumps dumps_nonempty _ _ (Some d)).
    exists (Some RESULT_TTL). simpl.
    rewrite lookup_insert_ne by done. by rewrite lookup_insert_eq.
  - unfold get_job_status, redis_get. simpl. by rewrite lookup_insert_eq.
  - intros other Hother.
    assert (RESULT_PREFIX +:+ job_id ≠ RESULT_PREFIX +:+ other) as Hr.
    { intros Heq. by apply prefix_inj in Heq. }
    assert (STATUS_PREFIX +:+ job_id ≠ STATUS_PREFIX +:+ other) as Hs.
    { intros Heq. by apply prefix_inj in Heq. }
    split.
    + unfold get_result, bind, redis_get. simpl.
      rewrite lookup_insert_ne by done. rewrite lookup_insert_ne by done.
      destruct (db r !! (RESULT_PREFIX +:+ other)) as [[s ?| |]|]; try done.
      destruct s as [|c s]; [done|]. unfold loads.
      by destruct (json_loads (String c s)).
    + unfold get_job_status, redis_get. simpl.
      rewrite lookup_insert_ne by done. rewrite lookup_insert_ne by done.
      by destruct (db r !! (STATUS_PREFIX +:+ other)) as [[| |]|].
Qed.

End StoredResults.

(* ===================================================================== *)
(** * The workers' registry *)
(* ===================================================================== *)

Section Registry.
Context `{Platform}.

Hypothesis loads_dumps : ∀ d : dict, json_loads (json_dumps d) = Some d.

(** Worker ids without a colon, such as the generated [worker-1a2b3c4d]:
    no part of them reads as the key prefix. *)
Fixpoint no_colon (s : string) : bool :=
  match s with
  | EmptyString => true
  | String c s' => (negb (Ascii.eqb c ":") && no_colon s')%bool
  end.

(** The value [register_worker] writes. *)
Definition worker_record (timestamp : float) (quality : string) : dict :=
  <["timestamp" := JFloat timestamp]> {["quality" := JStr quality]}.

(** [registered r id q]: the key of worker [id] holds a record of
    [register_worker] with quality [q]. *)
Definition registered (r : redis) (id q : string) : Prop :=
  ∃ ts ex, db r !! (WORKER_PREFIX +:+ id)
           = Some (RString (json_dumps (worker_record ts q)) ex).

Definition entry_ok (r : redis) (key : string) : Prop :=
  ∃ id q, key = WORKER_PREFIX +:+ id ∧ no_colon id = true
          ∧ registered r id q ∧ (q = "high" ∨ q = "fast").

(** Every worker key of the store was written by [register_worker] for a
    colon-free id and one of the two qualities. *)
Definition registry_ok (r : redis) : Prop :=
  ∀ key, key ∈ worker_keys r → entry_ok r key.

Lemma prefix_split p s : String.prefix p s = true → ∃ t, s = p +:+ t.
Proof.
  revert s. induction p as [|c p IH]; intros s.
  - intros _. by exists s.
  - destruct s as [|c' s]; simpl; [discriminate|].
    destruct (ascii_dec c c') as [<-|]; [|discriminate].
    intros Hp. destruct (IH s Hp) as [t ->]. by exists t.
Qed.

Lemma no_colon_no_prefix s :
  no_colon s = true → String.prefix WORKER_PREFIX s = false.
Proof.
  intros Hs. destruct (String.prefix WORKER_PREFIX s) eqn:Hp; [|done].
  apply prefix_split in Hp as [t ->]. done.
Qed.

Lemma remove_all_no_colon n : ∀ s,
  no_colon s = true → remove_all n WORKER_PREFIX s = s.
Proof.
  induction n as [|n IH]; intros s Hs; [by destruct s|].
  destruct s as [|c s]; [done|].
  cbn [remove_all]. rewrite (no_colon_no_prefix _ Hs).
  rewrite andb_false_r.
  simpl in Hs. apply andb_true_iff in Hs as [_ Hs]. by rewrite IH.
Qed.

Lemma worker_id_of_key id :
  no_colon id = true →
  remove_all (String.length (WORKER_PREFIX +:+ id)) WORKER_PREFIX
    (WORKER_PREFIX +:+ id) = id.
Proof.
  intros Hid.
  change (String.length (WORKER_PREFIX +:+ id))
    with (S (10 + String.length id)).
  change (WORKER_PREFIX +:+ id)
    with (String "t" ("ts:worker:" +:+ id)) at 1.
  cbn [remove_all].
  change (String "t" ("ts:worker:" +:+ id)) with (WORKER_PREFIX +:+ id).
  rewrite prefix_app, string_drop_app. simpl negb. cbn [andb].
  by apply remove_all_no_colon.
Qed.

Lemma worker_keys_elem r key :
  key ∈ worker_keys r ↔
  String.prefix WORKER_PREFIX key = true ∧ is_Some (db r !! key).
Proof.
  unfold worker_keys. rewrite list_elem_of_filter, elem_of_elements, elem_of_dom.
  done.
Qed.

Lemma worker_record_quality ts q :
  worker_record ts q !! "quality" = Some (JStr q).
Proof. unfold worker_record. by rewrite lookup_insert_ne, lookup_singleton_eq. Qed.

Lemma registered_functional r id q q' :
  registered r id q → registered r id q' → q = q'.
Proof.
  intros (ts & ex & H1) (ts' & ex' & H2). rewrite H1 in H2.
  injection H2 as Hd _. apply (f_equal json_loads) in Hd.
  rewrite !loads_dumps in Hd. apply (inj Some) in Hd.
  apply (f_equal (λ d : dict, d !! "quality")) in Hd.
  rewrite !worker_record_quality in Hd. by injection Hd.
Qed.

(** The loop over keys that are all in order. *)
Lemma group_workers_ok r keys : ∀ hs0 fs0,
  Forall (entry_ok r) keys →
  ∃ hs fs,
    group_workers keys (hs0, fs0) r = (Ret (hs0 ++ hs, fs0 ++ fs), r)
    ∧ (∀ id, id ∈ hs ↔ WORKER_PREFIX +:+ id ∈ keys ∧ registered r id "high")
    ∧ (∀ id, id ∈ fs ↔ WORKER_PREFIX +:+ id ∈ keys ∧ registered r id "fast")
    ∧ (length hs + length fs = length keys)%nat.
Proof.
  induction keys as [|key keys IH]; intros hs0 fs0 Hall.
  - exists [], []. rewrite !app_nil_r. split; [done|].
    split; [|split]; [| |done]; intros id;
      (split; [by intros Hin%elem_of_nil|by intros [Hin%elem_of_nil _]]).
  - inversion Hall as [|? ? (id & q & -> & Hid & Hreg & Hq) Hall']; subst.
    pose proof Hreg as (ts & ex & Hrec).
    cbn [group_workers]. rewrite (worker_id_of_key id Hid).
    unfold bind at 1. unfold redis_get. rewrite Hrec.
    cbn [mbind option_bind]. rewrite loads_dumps, worker_record_quality.
    cbn [default].
    destruct Hq as [-> | ->].
    + destruct (IH (hs0 ++ [id]) fs0 Hall') as (hs & fs & Hrun & Hhs & Hfs & Hlen).
      exists (id :: hs), fs. unfold bind.
      change (append_worker (hs0, fs0) _ id r) with (Ret (hs0 ++ [id], fs0), r).
      cbv beta iota. rewrite Hrun.
      rewrite <- app_assoc. split; [done|]. split; [|split].
      * intros id'. rewrite !elem_of_cons, Hhs. split.
        -- intros [-> | [Hin Hr]]; [by split; [left|]|by split; [right|]].
        -- intros [[Heq | Hin] Hr]; [left; by apply prefix_inj in Heq|by right].
      * intros id'. rewrite elem_of_cons, Hfs. split.
        -- intros [Hin Hr]. by split; [right|].
        -- intros [[Heq | Hin] Hr]; [|done].
           apply prefix_inj in Heq as ->.
           by pose proof (registered_functional r id _ _ Hreg Hr).
      * simpl. lia.
    + destruct (IH hs0 (fs0 ++ [id]) Hall') as (hs & fs & Hrun & Hhs & Hfs & Hlen).
      exists hs, (id :: fs). unfold bind.
      change (append_worker (hs0, fs0) _ id r) with (Ret (hs0, fs0 ++ [id]), r).
      cbv beta iota. rewrite Hrun.
      rewrite <- app_assoc. split; [done|]. split; [|split].
      * intros id'. rewrite elem_of_cons, Hhs. split.
        -- intros [Hin Hr]. by split; [right|].
        -- intros [[Heq | Hin] Hr]; [|done].
           apply prefix_inj in Heq as ->.
           by pose proof (registered_functional r id _ _ Hreg Hr).
      * intros id'. rewrite !elem_of_cons, Hfs. split.
        -- intros [-> | [Hin Hr]]; [by split; [left|]|by split; [right|]].
        -- intros [[Heq | Hin] Hr]; [left; by apply prefix_inj in Heq|by right].
      * simpl. lia.
Qed.

Lemma registered_is_worker_key r id q :
  registered r id q → WORKER_PREFIX +:+ id ∈ worker_keys r.
Proof.
  intros (ts & ex & Hrec). apply worker_keys_elem.
  split; [apply prefix_app|]. by rewrite Hrec.
Qed.

Lemma registry_listing r :
  registry_ok r →
  ∃ hs fs ids,
    get_workers_by_quality r = (Ret (hs, fs), r)
    ∧ get_active_workers r = (Ret ids, r)
    ∧ (∀ id, id ∈ hs ↔ registered r id "high")
    ∧ (∀ id, id ∈ fs ↔ registered r id "fast")
    ∧ (∀ id, id ∈ ids ↔ ∃ q, registered r id q)
    ∧ length ids = (length hs + length fs)%nat.
Proof.
  intros Hok.
  assert (Forall (entry_ok r) (worker_keys r)) as Hall
    by (by apply Forall_forall).
  destruct (group_workers_ok r (worker_keys r) [] [] Hall)
    as (hs & fs & Hrun & Hhs & Hfs & Hlen).
  exists hs, fs, (map (λ key, remove_all (String.length key) WORKER_PREFIX key)
                    (worker_keys r)).
  split; [done|]. split; [done|]. split; [|split; [|split]].
  - intros id. rewrite Hhs. split; [by intros [_ ?]|].
    intros Hr. split; [|done]. by apply (registered_is_worker_key r id "high").
  - intros id. rewrite Hfs. split; [by intros [_ ?]|].
    intros Hr. split; [|done]. by apply (registered_is_worker_key r id "fast").
  - intros id. rewrite list_elem_of_fmap. split.
    + intros (key & -> & Hin).
      destruct (Hok key Hin) as (id' & q & -> & Hid & Hreg & _).
      rewrite (worker_id_of_key id' Hid). by exists q.
    + intros (q & Hreg).
      pose proof (registered_is_worker_key r id q Hreg) as Hin.
      exists (WORKER_PREFIX +:+ id). split; [|done].
      destruct (Hok _ Hin) as (id' & q' & Heq & Hid & _).
      apply prefix_inj in Heq as ->. by rewrite (worker_id_of_key id' Hid).
  - by rewrite length_map.
Qed.

(** X4. On a registry that [register_worker] has filled for colon-free ids
    and the two qualities, [get_workers_by_quality] returns and writes
    nothing; a worker is in its ["high"] list exactly when it is registered
    with quality ["high"], in its ["fast"] list exactly when registered with
    ["fast"], and never in both; the two lists together hold what
    [get_active_workers] returns, one entry for each. *)
Theorem workers_by_quality_partition r :
  registry_ok r →
  ∃ hs fs ids,
    get_workers_by_quality r = (Ret (hs, fs), r)
    ∧ get_active_workers r = (Ret ids, r)
    ∧ (∀ id, id ∈ hs ↔ registered r id "high")
    ∧ (∀ id, id ∈ fs ↔ registered r id "fast")
    ∧ (∀ id, ¬ (id ∈ hs ∧ id ∈ fs))
    ∧ (∀ id, id ∈ ids ↔ id ∈ hs ∨ id ∈ fs)
    ∧ length ids = (length hs + length fs)%nat.
Proof.
  intros Hok.
  destruct (registry_listing r Hok) as (hs & fs & ids & Hg & Ha & Hhs & Hfs & Hids & Hlen).
  exists hs, fs, ids. split; [done|]. split; [done|]. split; [done|].
  split; [done|]. split; [|split; [|done]].
  - intros id [Hh Hf]. apply Hhs in Hh. apply Hfs in Hf.
    by pose proof (registered_functional r id _ _ Hh Hf).
  - intros id. rewrite Hids, Hhs, Hfs. split.
    + intros (q & Hreg).
      pose proof (registered_is_worker_key r id q Hreg) as Hin.
      destruct (Hok _ Hin) as (id' & q' & Heq & _ & Hreg' & Hq').
      apply prefix_inj in Heq as <-.
      destruct Hq' as [-> | ->]; [by left|by right].
    + intros [Hreg | Hreg]; by eexists.
Qed.

Lemma register_worker_run id q ts r :
  register_worker id q ts r
  = (Ret (),
     Redis (<[WORKER_PREFIX +:+ id :=
                RString (json_dumps (worker_record ts q))
                  (Some WORKER_HEARTBEAT_TTL)]> (db r))
           (sets r ++ [(WORKER_PREFIX +:+ id, json_dumps (worker_record ts q))])).
Proof. reflexivity. Qed.

Lemma registered_other (m m' : gmap string rval) s s' id id' q :
  id' ≠ id →
  m' !! (WORKER_PREFIX +:+ id') = m !! (WORKER_PREFIX +:+ id') →
  registered (Redis m s) id' q → registered (Redis m' s') id' q.
Proof. intros Hne Hsame (ts & ex & Hrec). exists ts, ex. simpl in *. by rewrite Hsame. Qed.

Lemma entry_ok_other (m m' : gmap string rval) s s' key :
  m' !! key = m !! key →
  entry_ok (Redis m s) key → entry_ok (Redis m' s') key.
Proof.
  intros Hsame (id & q & -> & Hid & (ts & ex & Hrec) & Hq).
  exists id, q. repeat split; try done. exists ts, ex. simpl in *.
  by rewrite Hsame.
Qed.

Lemma registry_ok_register r id q ts :
  registry_ok r → no_colon id = true → q = "high" ∨ q = "fast" →
  registry_ok (register_worker id q ts r).2.
Proof.
  intros Hok Hid Hq key Hin. rewrite register_worker_run in Hin |- *.
  simpl in *. apply worker_keys_elem in Hin as [Hp Hsome]. simpl in Hsome.
  destruct (decide (key = WORKER_PREFIX +:+ id)) as [->|Hne].
  - exists id, q. repeat split; try done.
    exists ts, (Some WORKER_HEARTBEAT_TTL). simpl. by rewrite lookup_insert_eq.
  - rewrite lookup_insert_ne in Hsome by done.
    assert (key ∈ worker_keys r) as Hin by (by apply worker_keys_elem).
    destruct r as [m s]. apply (entry_ok_other m _ s); [|by apply Hok].
    simpl. by rewrite lookup_insert_ne.
Qed.

Lemma registry_ok_unregister r id :
  registry_ok r → registry_ok (unregister_worker id r).2.
Proof.
  intros Hok key Hin. unfold unregister_worker, bind, redis_delete in *.
  destruct (db r !! (WORKER_PREFIX +:+ id)) as [v|] eqn:Hv; simpl in *;
    [|by apply Hok].
  apply worker_keys_elem in Hin as [Hp Hsome]. simpl in Hsome.
  destruct (decide (key = WORKER_PREFIX +:+ id)) as [->|Hne];
    [by rewrite lookup_delete_eq in Hsome; destruct Hsome|].
  rewrite lookup_delete_ne in Hsome by done.
  assert (key ∈ worker_keys r) as Hin by (by apply worker_keys_elem).
  destruct r as [m s]. apply (entry_ok_other m _ s); [|by apply Hok].
  simpl. by rewrite lookup_delete_ne.
Qed.

(** X5. [register_worker(id, q)] for a colon-free id and one of the two
    qualities puts the worker in the list of its quality, and only there,
    and among the active workers; [unregister_worker(id)] takes it out of
    both lists and out of the active workers again. *)
Theorem register_then_unregister r id q ts :
  registry_ok r → no_colon id = true → q = "high" ∨ q = "fast" →
  ∃ r1 hs fs ids r2 hs' fs' ids',
    register_worker id q ts r = (Ret (), r1)
    ∧ get_workers_by_quality r1 = (Ret (hs, fs), r1)
    ∧ get_active_workers r1 = (Ret ids, r1)
    ∧ (id ∈ hs ↔ q = "high") ∧ (id ∈ fs ↔ q = "fast") ∧ id ∈ ids
    ∧ unregister_worker id r1 = (Ret (), r2)
    ∧ get_workers_by_quality r2 = (Ret (hs', fs'), r2)
    ∧ get_active_workers r2 = (Ret ids', r2)
    ∧ (id ∉ hs') ∧ (id ∉ fs') ∧ (id ∉ ids').
Proof.
  intros Hok Hid Hq.
  pose proof (registry_ok_register r id q ts Hok Hid Hq) as Hok1.
  pose proof (registry_ok_unregister _ id Hok1) as Hok2.
  rewrite register_worker_run in Hok1, Hok2. simpl in Hok1, Hok2.
  set (r1 := Redis _ _) in Hok1, Hok2.
  assert (registered r1 id q) as Hreg.
  { exists ts, (Some WORKER_HEARTBEAT_TTL). simpl. by rewrite lookup_insert_eq. }
  assert (unregister_worker id r1
          = (Ret (), Redis (delete (WORKER_PREFIX +:+ id) (db r1)) (sets r1)))
    as Hun.
  { unfold unregister_worker, bind, redis_delete. simpl.
    by rewrite lookup_insert_eq. }
  rewrite Hun in Hok2. simpl in Hok2. set (r2 := Redis _ _) in Hok2, Hun.
  assert (∀ q', ¬ registered r2 id q') as Hgone.
  { intros q' (ts' & ex' & Hrec). simpl in Hrec.
    by rewrite lookup_delete_eq in Hrec. }
  destruct (registry_listing r1 Hok1)
    as (hs & fs & ids & Hg & Ha & Hhs & Hfs & Hids & _).
  destruct (registry_listing r2 Hok2)
    as (hs' & fs' & ids' & Hg' & Ha' & Hhs' & Hfs' & Hids' & _).
  exists r1, hs, fs, ids, r2, hs', fs', ids'.
  rewrite register_worker_run. fold r1.
  split; [done|]. split; [done|]. split; [done|].
  split; [|split; [|split]].
  - rewrite Hhs. split; [intros Hr; by apply (registered_functional r1 id)|].
    by intros ->.
  - rewrite Hfs. split; [intros Hr; by apply (registered_functional r1 id)|].
    by intros ->.
  - apply Hids. by exists q.
  - split; [done|]. split; [done|]. split; [done|].
    rewrite Hhs', Hfs', Hids'. split; [apply Hgone|]. split; [apply Hgone|].
    intros [q' Hr]. by apply (Hgone q').
Qed.

Lemma group_workers_app pre : ∀ rest workers r,
  group_workers (pre ++ rest) workers r
  = (let* workers := group_workers pre workers in group_workers rest workers) r.
Proof.
  induction pre as [|key pre IH]; intros rest workers r; [done|].
  cbn [app group_workers]. unfold bind.
  destruct (redis_get key r) as [[worker_data|e] r1]; [|done].
  match goal with
  | |- context [match ?m ≫= json_loads with Some _ => _ | None => _ end r1] =>
      destruct (m ≫= json_loads) as [data|]
  end.
  - destruct (append_worker workers (default (JStr "high") (data !! "quality"))
                (remove_all (String.length key) WORKER_PREFIX key) r1)
      as [[w|e] r2]; [|done].
    by rewrite IH.
  - unfold ret. by rewrite IH.
Qed.

(** X6. [register_worker] takes any quality, but the grouping does not: once
    a worker is registered with a quality that is neither ["high"] nor
    ["fast"], [get_active_workers] still lists it, and
    [get_workers_by_quality] raises [KeyError] on that quality. *)
Theorem unknown_quality_breaks_grouping r id q ts :
  registry_ok r → no_colon id = true → q ≠ "high" → q ≠ "fast" →
  ∃ r1 ids,
    register_worker id q ts r = (Ret (), r1)
    ∧ get_active_workers r1 = (Ret ids, r1) ∧ id ∈ ids
    ∧ get_workers_by_quality r1
      = (Raise (PyError "KeyError" ("'" +:+ q +:+ "'")), r1).
Proof.
  intros Hok Hid Hq1 Hq2. rewrite register_worker_run.
  set (r1 := Redis _ _).
  assert (db r1 !! (WORKER_PREFIX +:+ id)
          = Some (RString (json_dumps (worker_record ts q))
                    (Some WORKER_HEARTBEAT_TTL))) as Hrec
    by (by apply lookup_insert_eq).
  assert (WORKER_PREFIX +:+ id ∈ worker_keys r1) as Hin.
  { apply worker_keys_elem. split; [apply prefix_app|]. by rewrite Hrec. }
  eexists r1, _. split; [done|]. split; [reflexivity|]. split.
  - apply list_elem_of_fmap. exists (WORKER_PREFIX +:+ id).
    split; [|done]. by rewrite (worker_id_of_key id Hid).
  - destruct (list_elem_of_split_l _ _ Hin) as (pre & post & Hkeys & Hnot).
    assert (Forall (entry_ok r1) pre) as Hpre.
    { apply Forall_forall. intros key Hkey.
      assert (key ∈ worker_keys r1) as Hk1.
      { rewrite Hkeys. apply elem_of_app. by left. }
      assert (key ≠ WORKER_PREFIX +:+ id) as Hne by (by intros ->).
      apply worker_keys_elem in Hk1 as [Hp Hsome]. unfold r1 in Hsome.
      simpl in Hsome. rewrite lookup_insert_ne in Hsome by done.
      assert (key ∈ worker_keys r) as Hk by (by apply worker_keys_elem).
      destruct r as [m s]. apply (entry_ok_other m _ s); [|by apply Hok].
      simpl. by rewrite lookup_insert_ne. }
    destruct (group_workers_ok r1 pre [] [] Hpre) as (hs & fs & Hrun & _).
    unfold get_workers_by_quality. unfold bind at 1. unfold redis_scan_iter.
    fold (worker_keys r1). rewrite Hkeys, group_workers_app.
    unfold bind at 1. rewrite Hrun. cbn [group_workers].
    unfold bind at 1. unfold redis_get. rewrite Hrec.
    cbn [mbind option_bind]. rewrite loads_dumps, worker_record_quality.
    unfold bind. unfold append_worker. cbv [from_option Datatypes.id].
    destruct (String.eqb_spec q "high") as [|_]; [done|].
    destruct (String.eqb_spec q "fast") as [|_]; [done|].
    done.
Qed.

(** X7. Constructing a [TTSWorker] writes nothing, and raises only for
    the thread it runs in: off the main thread [signal.signal] raises
    [ValueError], in the main thread the constructor returns. The worker's
    quality is then the one asked for when that is ["high"] or ["fast"],
    and ["high"] otherwise; its NFE steps are the override when one is
    given and is not 0, and otherwise the preset of its quality, 32 for
    ["high"] and 16 for ["fast"]; it is not running. *)
Theorem worker_init_total worker_id redis_url quality nfe_steps
    heartbeat_interval uuid_hex r :
  (∃ w, TTSWorker_init worker_id redis_url quality nfe_steps
          heartbeat_interval uuid_hex true r = (Ret w, r)
     ∧ self_quality w
       = (if (String.eqb quality "high" || String.eqb quality "fast")%bool
          then quality else "high")
     ∧ (self_quality w = "high" ∨ self_quality w = "fast")
     ∧ self_nfe_steps w
       = (let preset := if String.eqb (self_quality w) "fast" then 16 else 32 in
          match nfe_steps with
          | Some n => if Z.eqb n 0 then preset else n
          | None => preset
          end)
     ∧ self_running w = false)
  ∧ TTSWorker_init worker_id redis_url quality nfe_steps
      heartbeat_interval uuid_hex false r
    = (Raise (PyError "ValueError"
                "signal only works in main thread of the main interpreter"), r).
Proof.
  unfold TTSWorker_init. unfold QUALITY_PRESETS. cbn [preset_lookup].
  rewrite (String.eqb_sym "high" quality), (String.eqb_sym "fast" quality).
  destruct (String.eqb_spec quality "high") as [->|Hh].
  - destruct nfe_steps as [[|n|n]|]; (split; [|reflexivity]); eexists;
      (split; [reflexivity|]); simpl; auto.
  - destruct (String.eqb_spec quality "fast") as [->|Hf].
    + destruct nfe_steps as [[|n|n]|]; (split; [|reflexivity]); eexists;
        (split; [reflexivity|]); simpl; auto.
    + destruct nfe_steps as [[|n|n]|]; (split; [|reflexivity]); eexists;
        (split; [reflexivity|]); simpl; auto.
Qed.

End Registry.

(* ===================================================================== *)
(** * More of worker/main.py: the loop of [run] and its shutdown *)
(* ===================================================================== *)

Section MoreWorker.
Context `{Platform}.

(** [try: m  finally: cleanup]. The cleanup runs on every way out; an
    exception of the cleanup replaces what [m] left. *)
Definition try_finally {A} (m : M A) (cleanup : M unit) : M A :=
  λ r, match m r with
       | (o, r') =>
           match cleanup r' with
           | (Ret _, r'') => (o, r'')
           | (Raise e, r'') => (Raise e, r'')
           end
       end.

(** The [while self.running] loop of [run]: one entry of [turns] for each
    turn the loop makes before a signal clears [self.running], with the
    engine and the clock of that turn. *)
Fixpoint run_loop (self : TTSWorker) (turns : list (Externals * float))
  : M TTSWorker :=
  match turns with
  | [] => ret self
  | (ext, now) :: rest =>
      let* self := run_iteration self ext now in
      run_loop self rest
  end.

(** [run]. [ping] is the answer of the server to the first [ping()],
    [load_model] what [_load_model] does (it touches nothing in Redis),
    [registered_at] and [started_at] the clock readings of the
    registration and of [self.last_heartbeat]. *)
Definition run (self : TTSWorker) (ping : bool) (load_model : outcome unit)
    (registered_at started_at : float) (turns : list (Externals * float))
  : M unit :=
  let* _ := if ping then ret ()
            else raise (PyError "RuntimeError" "Cannot connect to Redis") in
  let* _ := lift load_model in
  let* _ := register_worker (self_worker_id self) (self_quality self)
              registered_at in
  let self := mkTTSWorker (self_worker_id self) (self_redis_url self)
                (self_quality self) (self_nfe_steps self)
                (self_heartbeat_interval self) true started_at in
  try_finally
    (try_except (let* _ := run_loop self turns in ret ()) (λ e, raise e))
    (unregister_worker (self_worker_id self)).

End MoreWorker.

Section WorkerTurns.
Context `{Platform}.

Hypothesis loads_dumps : ∀ d : dict, json_loads (json_dumps d) = Some d.
Hypothesis dumps_nonempty : ∀ d : dict, json_dumps d ≠ "".

(** The write of a heartbeat that is due. *)
Definition heartbeat_writes (self : TTSWorker) (now : float)
  : list (string * string) :=
  if fle (float_of_int (self_heartbeat_interval self))
         (fsub now (self_last_heartbeat self))
  then [(WORKER_PREFIX +:+ self_worker_id self,
         json_dumps (<["timestamp" := JFloat now]>
                       {["quality" := JStr (self_quality self)]}))]
  else [].

Lemma heartbeat_effect self now r :
  ∃ self' r', _update_heartbeat self now r = (Ret self', r')
    ∧ self_quality self' = self_quality self
    ∧ self_worker_id self' = self_worker_id self
    ∧ sets r' = sets r ++ heartbeat_writes self now
    ∧ ∀ k, k ≠ WORKER_PREFIX +:+ self_worker_id self → db r' !! k = db r !! k.
Proof.
  unfold _update_heartbeat, heartbeat_writes.
  destruct (fle _ _).
  - eexists _, _. split; [reflexivity|]. simpl. repeat split; try done.
    intros k Hk. by rewrite lookup_insert_ne.
  - exists self, r. by rewrite app_nil_r.
Qed.

(** The counter a run of [_process_job] increments. *)
Definition metric_of (ext : Externals) (job : dict) (text : string) : string :=
  if String.eqb (final_status ext job text) "completed"
  then "jobs_completed" else "jobs_failed".

Lemma increment_metric_effect metric amount r (m : gmap string Z) :
  get_metrics r = (Ret m, r) →
  ∃ r', increment_metric metric amount r = (Ret (), r')
    ∧ get_metrics r'
      = (Ret (<[metric := default 0 (m !! metric) + amount]> m), r')
    ∧ sets r' = sets r
    ∧ ∀ k, k ≠ METRICS_KEY → db r' !! k = db r !! k.
Proof.
  unfold get_metrics, redis_hgetall, increment_metric, redis_hincrby.
  destruct (db r !! METRICS_KEY) as [[| |h]|] eqn:Hm; try done.
  - intros [= <-]. eexists. split; [reflexivity|]. simpl.
    rewrite lookup_insert_eq. repeat split; try done.
    intros k Hk. by rewrite lookup_insert_ne.
  - intros [= <-]. eexists. split; [reflexivity|]. simpl.
    rewrite lookup_insert_eq, lookup_empty. simpl.
    rewrite insert_empty. repeat split; try done.
    intros k Hk. by rewrite lookup_insert_ne.
Qed.

Lemma get_metrics_lookup r r' (m : gmap string Z) :
  db r' !! METRICS_KEY = db r !! METRICS_KEY →
  get_metrics r = (Ret m, r) → get_metrics r' = (Ret m, r').
Proof.
  unfold get_metrics, redis_hgetall. intros ->.
  destruct (db r !! METRICS_KEY) as [[| |h]|]; try done; by intros [= <-].
Qed.

(** [_process_job] on a well-formed job, with everything it does to the
    store. *)
Lemma process_job_effect ext (job : dict) job_id text r (m : gmap string Z) :
  job !! "job_id" = Some (JStr job_id) →
  job !! "text" = Some (JStr text) →
  get_metrics r = (Ret m, r) →
  let c := metric_of ext job text in
  ∃ r', _process_job ext job r = (Ret (outcome_of ext job text), r')
    ∧ sets r' = sets r ++ map (λ s, (STATUS_PREFIX +:+ job_id, s))
                            (writes_while_processing ext job)
    ∧ get_metrics r' = (Ret (<[c := default 0 (m !! c) + 1]> m), r')
    ∧ ∀ k, k ≠ METRICS_KEY → k ≠ STATUS_PREFIX +:+ job_id →
           db r' !! k = db r !! k.
Proof.
  intros Hid Htext Hm c. unfold c, metric_of.
  unfold _process_job. unfold bind at 1. unfold getitem at 1. rewrite Hid.
  unfold ret at 1. unfold bind at 1. unfold getitem at 1. rewrite Htext.
  unfold ret at 1. unfold bind at 1. simpl py_len. unfold ret at 1.
  unfold try_except, _process_job_try.
  unfold bind at 1. unfold lift at 1.
  unfold outcome_of, writes_while_processing, final_status.
  fold (reference_of ext job).
  destruct (reference_of ext job) as [path|e].
  - unfold bind at 1. unfold set_job_status, redis_set. simpl fstr.
    set (r1 := Redis _ _).
    assert (get_metrics r1 = (Ret m, r1)) as Hm1.
    { apply (get_metrics_lookup r); [|done]. unfold r1. simpl.
      rewrite lookup_insert_ne; [done|]. apply status_ne_metrics. }
    unfold bind at 1. unfold lift at 1. fold (synthesis_of ext job text path).
    destruct (synthesis_of ext job text path) as [[audio_bytes audio_duration]|e].
    + destruct (increment_metric_effect "jobs_completed" 1 r1 m Hm1)
        as (r2 & Hi & Hg & Hs & Hf).
      unfold bind. rewrite Hi. exists r2. split; [done|]. split; [by rewrite Hs|].
      split; [done|].
      intros k Hk1 Hk2. rewrite Hf by done. unfold r1. simpl.
      by rewrite lookup_insert_ne.
    + unfold _process_job_except.
      destruct (increment_metric_effect "jobs_failed" 1 r1 m Hm1)
        as (r2 & Hi & Hg & Hs & Hf).
      unfold bind. rewrite Hi. exists r2. split; [done|]. split; [by rewrite Hs|].
      split; [done|].
      intros k Hk1 Hk2. rewrite Hf by done. unfold r1. simpl.
      by rewrite lookup_insert_ne.
  - unfold _process_job_except.
    destruct (increment_metric_effect "jobs_failed" 1 r m Hm)
      as (r2 & Hi & Hg & Hs & Hf).
    unfold bind. rewrite Hi. exists r2. split; [done|].
    split; [by rewrite Hs, app_nil_r|]. split; [done|].
    intros k Hk1 Hk2. by apply Hf.
Qed.

(** Everything a turn of the loop does on a queue whose oldest job is a
    well-formed [job]. *)
Lemma turn_on_job self ext now r (job : dict) job_id text rest
    (m : gmap string Z) :
  queue_holds r (_get_queue_key (self_quality self)) (job :: rest) →
  job !! "job_id" = Some (JStr job_id) →
  job !! "text" = Some (JStr text) →
  get_metrics r = (Ret m, r) →
  let c := metric_of ext job text in
  ∃ self' r', run_iteration self ext now r = (Ret self', r')
    ∧ self_quality self' = self_quality self
    ∧ self_worker_id self' = self_worker_id self
    ∧ queue_holds r' (_get_queue_key (self_quality self)) rest
    ∧ sets r' = sets r ++ heartbeat_writes self now
                ++ map (λ s, (STATUS_PREFIX +:+ job_id, s))
                     (writes_while_processing ext job)
                ++ [(RESULT_PREFIX +:+ job_id, json_dumps (outcome_of ext job text));
                    (STATUS_PREFIX +:+ job_id, final_status ext job text)]
    ∧ get_metrics r' = (Ret (<[c := default 0 (m !! c) + 1]> m), r')
    ∧ result_stored r' job_id (Some (outcome_of ext job text))
    ∧ db r' !! (STATUS_PREFIX +:+ job_id)
      = Some (RString (final_status ext job text) (Some RESULT_TTL))
    ∧ ∀ k, k ≠ WORKER_PREFIX +:+ self_worker_id self →
           k ≠ _get_queue_key (self_quality self) →
           k ≠ METRICS_KEY →
           k ≠ STATUS_PREFIX +:+ job_id → k ≠ RESULT_PREFIX +:+ job_id →
           db r' !! k = db r !! k.
Proof.
  intros Hq Hid Htext Hm c.
  destruct (heartbeat_effect self now r) as (self1 & r1 & Hhb & Hqual & Hwid & Hs1 & Hf1).
  assert (queue_holds r1 (_get_queue_key (self_quality self)) (job :: rest)) as Hq1.
  { apply (queue_holds_lookup r); [|done]. apply Hf1.
    intros Heq. symmetry in Heq. by apply worker_ne_queue in Heq. }
  assert (get_metrics r1 = (Ret m, r1)) as Hm1.
  { apply (get_metrics_lookup r); [|done]. apply Hf1. apply metrics_ne_worker. }
  destruct (dequeue_job_some loads_dumps r1 (self_quality self) 5 job rest Hq1)
    as (r2 & Hd & Hq2 & Hs2 & Hf2).
  assert (get_metrics r2 = (Ret m, r2)) as Hm2.
  { apply (get_metrics_lookup r1); [|done]. apply Hf2. apply metrics_ne_queue. }
  destruct (process_job_effect ext job job_id text r2 m Hid Htext Hm2)
    as (r3 & Hp & Hs3 & Hm3 & Hf3).
  destruct (store_result_stored r3 job_id _ _ (outcome_status ext job text))
    as (r4 & Hst & Hres4 & Hstatus4 & Hs4 & Hf4).
  exists self1, r4.
  split; [|split; [|split; [|split; [|split; [|split; [|split; [|split]]]]]]].
  - unfold run_iteration. unfold bind at 1. rewrite Hhb.
    unfold bind at 1. rewrite Hqual, Hd.
    unfold bind at 1. rewrite Hp.
    unfold bind at 1. unfold getitem. rewrite Hid. unfold ret at 1.
    unfold bind. simpl fstr. by rewrite Hst.
  - done.
  - done.
  - apply (queue_holds_lookup r2); [|done].
    rewrite Hf4, Hf3; [done| | | |].
    + intros Heq. symmetry in Heq. by apply metrics_ne_queue in Heq.
    + intros Heq. symmetry in Heq. by apply status_ne_queue in Heq.
    + intros Heq. symmetry in Heq. by apply result_ne_queue in Heq.
    + intros Heq. symmetry in Heq. by apply status_ne_queue in Heq.
  - rewrite Hs4, Hs3, Hs2, Hs1. by rewrite <- !app_assoc.
  - apply (get_metrics_lookup r3); [|done]. apply Hf4.
    + apply metrics_ne_result.
    + intros Heq. symmetry in Heq. by apply status_ne_metrics in Heq.
  - done.
  - done.
  - intros k Hk1 Hk2 Hk3 Hk4 Hk5.
    by rewrite Hf4, Hf3, Hf2, Hf1.
Qed.

(** A turn on an empty queue: a heartbeat if one is due, nothing else. *)
Lemma turn_idle self ext now r :
  queue_holds r (_get_queue_key (self_quality self)) [] →
  ∃ self' r', run_iteration self ext now r = (Ret self', r')
    ∧ self_quality self' = self_quality self
    ∧ self_worker_id self' = self_worker_id self
    ∧ queue_holds r' (_get_queue_key (self_quality self)) []
    ∧ sets r' = sets r ++ heartbeat_writes self now
    ∧ ∀ k, k ≠ WORKER_PREFIX +:+ self_worker_id self → db r' !! k = db r !! k.
Proof.
  intros Hq.
  destruct (heartbeat_effect self now r) as (self1 & r1 & Hhb & Hqual & Hwid & Hs1 & Hf1).
  assert (queue_holds r1 (_get_queue_key (self_quality self)) []) as Hq1.
  { apply (queue_holds_lookup r); [|done]. apply Hf1.
    intros Heq. symmetry in Heq. by apply worker_ne_queue in Heq. }
  exists self1, r1. split; [|done].
  unfold run_iteration. unfold bind at 1. rewrite Hhb.
  unfold bind. rewrite Hqual.
  by rewrite (dequeue_job_none r1 (self_quality self) 5 Hq1).
Qed.

Lemma final_status_cases ext (job : dict) text :
  final_status ext job text = "completed" ∨ final_status ext job text = "error".
Proof.
  unfold final_status. destruct (reference_of ext job) as [path|e]; [|by right].
  destruct (synthesis_of ext job text path); [by left|by right].
Qed.

Lemma is_completed_final ext (job : dict) text :
  is_completed (outcome_of ext job text) ↔ final_status ext job text = "completed".
Proof.
  unfold is_completed. rewrite outcome_status. split; [by intros [= ->]|by intros ->].
Qed.

(** The value of a counter in what [get_metrics] returns; a counter that
    was never incremented is not there and counts as 0. *)
Definition counter (m : gmap string Z) (name : string) : Z :=
  default 0 (m !! name).

(** X8. A worker turn that takes a job increments exactly one of the two
    job counters by one: [jobs_completed] when the result it stores is
    completed, [jobs_failed] when it is an error; every other counter that
    [get_metrics] returns is as before. *)
Theorem turn_counts_the_job self ext now r (job : dict) job_id text rest
    (m : gmap string Z) :
  queue_holds r (_get_queue_key (self_quality self)) (job :: rest) →
  job !! "job_id" = Some (JStr job_id) →
  job !! "text" = Some (JStr text) →
  get_metrics r = (Ret m, r) →
  ∃ self' r' m',
    run_iteration self ext now r = (Ret self', r')
    ∧ get_metrics r' = (Ret m', r')
    ∧ get_result job_id r' = (Ret (Some (outcome_of ext job text)), r')
    ∧ (is_completed (outcome_of ext job text) →
       counter m' "jobs_completed" = counter m "jobs_completed" + 1
       ∧ counter m' "jobs_failed" = counter m "jobs_failed")
    ∧ (¬ is_completed (outcome_of ext job text) →
       counter m' "jobs_failed" = counter m "jobs_failed" + 1
       ∧ counter m' "jobs_completed" = counter m "jobs_completed")
    ∧ ∀ name, name ≠ "jobs_completed" → name ≠ "jobs_failed" →
        m' !! name = m !! name.
Proof.
  intros Hq Hid Htext Hm.
  destruct (turn_on_job self ext now r job job_id text rest m Hq Hid Htext Hm)
    as (self' & r' & Hrun & _ & _ & _ & _ & Hm' & Hres & _).
  eexists self', r', _. split; [done|]. split; [exact Hm'|].
  split; [by apply (get_result_stored loads_dumps dumps_nonempty)|].
  unfold counter, metric_of. split; [|split].
  - intros Hc%is_completed_final. rewrite Hc. simpl.
    rewrite lookup_insert_eq. by rewrite lookup_insert_ne.
  - intros Hc. destruct (final_status_cases ext job text) as [Hf|Hf];
      [by apply is_completed_final in Hf|].
    rewrite Hf. simpl. rewrite lookup_insert_eq. by rewrite lookup_insert_ne.
  - intros name Hn1 Hn2.
    destruct (String.eqb (final_status ext job text) "completed");
      by rewrite lookup_insert_ne.
Qed.

(** X9. A worker turn is confined to its own job and its own queue. The
    queue of the other quality holds what it held; the status and the result
    of every other job id, and every credential record, are as before. For
    the job itself the turn leaves a stored result and a status equal to
    the status of that result. *)
Theorem turn_touches_only_its_job self ext now r (job : dict) job_id text rest
    (m : gmap string Z) other (others : list dict) :
  queue_holds r (_get_queue_key (self_quality self)) (job :: rest) →
  job !! "job_id" = Some (JStr job_id) →
  job !! "text" = Some (JStr text) →
  get_metrics r = (Ret m, r) →
  _get_queue_key other ≠ _get_queue_key (self_quality self) →
  queue_holds r (_get_queue_key other) others →
  ∃ self' r',
    run_iteration self ext now r = (Ret self', r')
    ∧ queue_holds r' (_get_queue_key other) others
    ∧ queue_holds r' (_get_queue_key (self_quality self)) rest
    ∧ (∀ id, id ≠ job_id →
         db r' !! (STATUS_PREFIX +:+ id) = db r !! (STATUS_PREFIX +:+ id)
         ∧ db r' !! (RESULT_PREFIX +:+ id) = db r !! (RESULT_PREFIX +:+ id))
    ∧ (∀ kid, db r' !! (APIKEY_PREFIX +:+ kid) = db r !! (APIKEY_PREFIX +:+ kid))
    ∧ get_result job_id r' = (Ret (Some (outcome_of ext job text)), r')
    ∧ get_job_status job_id r'
      = (Ret (Some (fstr (get_or_null (outcome_of ext job text) "status"))), r').
Proof.
  intros Hq Hid Htext Hm Hother Hoq.
  destruct (turn_on_job self ext now r job job_id text rest m Hq Hid Htext Hm)
    as (self' & r' & Hrun & _ & _ & Hq' & _ & _ & Hres & Hst & Hframe).
  exists self', r'. split; [done|]. split; [|split; [done|split; [|split; [|split]]]].
  - apply (queue_holds_lookup r); [|done]. apply Hframe.
    + intros Heq. symmetry in Heq. by apply worker_ne_queue in Heq.
    + done.
    + intros Heq. symmetry in Heq. by apply metrics_ne_queue in Heq.
    + intros Heq. symmetry in Heq. by apply status_ne_queue in Heq.
    + intros Heq. symmetry in Heq. by apply result_ne_queue in Heq.
  - intros id Hne. split; apply Hframe.
    + apply status_ne_worker.
    + apply status_ne_queue.
    + apply status_ne_metrics.
    + intros Heq. by apply prefix_inj in Heq.
    + apply status_ne_result.
    + discriminate.
    + apply result_ne_queue.
    + discriminate.
    + intros Heq. symmetry in Heq. by apply status_ne_result in Heq.
    + intros Heq. by apply prefix_inj in Heq.
  - intros kid. apply Hframe.
    + discriminate.
    + apply apikey_ne_queue.
    + discriminate.
    + intros Heq. symmetry in Heq. by apply status_ne_apikey in Heq.
    + discriminate.
  - by apply (get_result_stored loads_dumps dumps_nonempty).
  - unfold get_job_status, redis_get. rewrite Hst.
    unfold get_or_null. by rewrite outcome_status.
Qed.

(** X10. A dequeued job without a [text] field is lost: the turn raises
    [KeyError] before anything is written for the job, which by then is off
    the queue. No status and no result is written, so the status key keeps
    what it held. *)
Theorem job_without_text_is_dropped self ext now r (job : dict) v rest :
  queue_holds r (_get_queue_key (self_quality self)) (job :: rest) →
  job !! "job_id" = Some v →
  job !! "text" = None →
  ∃ r', run_iteration self ext now r = (Raise (PyError "KeyError" "'text'"), r')
    ∧ queue_holds r' (_get_queue_key (self_quality self)) rest
    ∧ sets r' = sets r ++ heartbeat_writes self now
    ∧ (∀ id, db r' !! (STATUS_PREFIX +:+ id) = db r !! (STATUS_PREFIX +:+ id)
             ∧ db r' !! (RESULT_PREFIX +:+ id) = db r !! (RESULT_PREFIX +:+ id)).
Proof.
  intros Hq Hid Htext.
  destruct (heartbeat_effect self now r) as (self1 & r1 & Hhb & Hqual & Hwid & Hs1 & Hf1).
  assert (queue_holds r1 (_get_queue_key (self_quality self)) (job :: rest)) as Hq1.
  { apply (queue_holds_lookup r); [|done]. apply Hf1.
    intros Heq. symmetry in Heq. by apply worker_ne_queue in Heq. }
  destruct (dequeue_job_some loads_dumps r1 (self_quality self) 5 job rest Hq1)
    as (r2 & Hd & Hq2 & Hs2 & Hf2).
  exists r2. split; [|split; [done|split; [by rewrite Hs2|]]].
  - unfold run_iteration. unfold bind at 1. rewrite Hhb.
    unfold bind at 1. rewrite Hqual, Hd.
    unfold bind at 1. unfold _process_job. unfold bind at 1.
    unfold getitem at 1. rewrite Hid. unfold ret at 1.
    unfold bind at 1. unfold getitem at 1. rewrite Htext. done.
  - intros id. split.
    + rewrite Hf2 by apply status_ne_queue. apply Hf1. apply status_ne_worker.
    + rewrite Hf2 by apply result_ne_queue. apply Hf1. discriminate.
Qed.

End WorkerTurns.

Section WorkerLoop.
Context `{Platform}.

Hypothesis loads_dumps : ∀ d : dict, json_loads (json_dumps d) = Some d.

(** The id and the text of a job dictionary, for jobs that have them as
    strings, as those of the gateway do. *)
Definition job_id_of (job : dict) : string := fstr (get_or_null job "job_id").
Definition text_of (job : dict) : string := fstr (get_or_null job "text").

Definition well_formed_job (job : dict) : Prop :=
  (∃ id, job !! "job_id" = Some (JStr id)) ∧ (∃ text, job !! "text" = Some (JStr text)).

(** The writes to result keys, oldest first. *)
Definition result_writes (r : redis) : list (string * string) :=
  filter (λ kv, String.prefix RESULT_PREFIX kv.1 = true) (sets r).

(** The result each turn stores for the job it takes: the first turn for
    the oldest job, and so on while there are both turns and jobs. *)
Fixpoint results_of (jobs : list dict) (turns : list (Externals * float))
  : list (string * string) :=
  match jobs, turns with
  | job :: jobs', (ext, _) :: turns' =>
      (RESULT_PREFIX +:+ job_id_of job,
       json_dumps (outcome_of ext job (text_of job)))
      :: results_of jobs' turns'
  | _, _ => []
  end.

Lemma filter_heartbeat self now :
  filter (λ kv : string * string, String.prefix RESULT_PREFIX kv.1 = true)
    (heartbeat_writes self now) = [].
Proof.
  unfold heartbeat_writes. destruct (fle _ _); [|done].
  by rewrite filter_cons_False.
Qed.

Lemma filter_status_writes job_id l :
  filter (λ kv : string * string, String.prefix RESULT_PREFIX kv.1 = true)
    (map (λ s, (STATUS_PREFIX +:+ job_id, s)) l) = [].
Proof.
  induction l as [|s l IH]; [done|]. simpl.
  by rewrite filter_cons_False.
Qed.

(** X11. The loop serves the queue in order. Over any number of turns on a
    queue of well-formed jobs, the worker stores one result for each of the
    first [min(turns, jobs)] jobs, in the order in which the jobs were
    enqueued, each the outcome of the turn that took it, and writes no
    other result; the jobs that are left are still queued, in their
    order. *)
Theorem loop_serves_in_order turns : ∀ self r (jobs : list dict) (m : gmap string Z),
  queue_holds r (_get_queue_key (self_quality self)) jobs →
  Forall well_formed_job jobs →
  get_metrics r = (Ret m, r) →
  ∃ self' r',
    run_loop self turns r = (Ret self', r')
    ∧ queue_holds r' (_get_queue_key (self_quality self)) (drop (length turns) jobs)
    ∧ result_writes r' = result_writes r ++ results_of jobs turns.
Proof.
  induction turns as [|[ext now] turns IH]; intros self r jobs m Hq Hwf Hm.
  - exists self, r. split; [done|]. split; [by rewrite drop_0|].
    destruct jobs; by rewrite app_nil_r.
  - destruct jobs as [|job rest].
    + destruct (turn_idle self ext now r Hq)
        as (self1 & r1 & Hrun & Hqual & _ & Hq1 & Hs1 & Hf1).
      assert (get_metrics r1 = (Ret m, r1)) as Hm1.
      { apply (get_metrics_lookup r); [|done]. apply Hf1. apply metrics_ne_worker. }
      rewrite <- Hqual in Hq1.
      destruct (IH self1 r1 [] m Hq1 Hwf Hm1) as (self' & r' & Hloop & Hq' & Hw').
      exists self', r'. cbn [run_loop]. unfold bind. rewrite Hrun.
      split; [done|]. rewrite Hqual in Hq'. split; [by rewrite drop_nil in *|].
      rewrite Hw'. unfold result_writes. rewrite Hs1, filter_app, filter_heartbeat.
      destruct turns as [|[??] ?]; by rewrite !app_nil_r.
    + inversion Hwf as [|? ? [[id Hid] [text Htext]] Hwf']; subst.
      destruct (turn_on_job loads_dumps self ext now r job id text rest m
                  Hq Hid Htext Hm)
        as (self1 & r1 & Hrun & Hqual & _ & Hq1 & Hs1 & Hm1 & _).
      rewrite <- Hqual in Hq1.
      destruct (IH self1 r1 rest _ Hq1 Hwf' Hm1) as (self' & r' & Hloop & Hq' & Hw').
      exists self', r'. cbn [run_loop]. unfold bind. rewrite Hrun.
      split; [done|]. rewrite Hqual in Hq'. split; [done|].
      rewrite Hw'. unfold result_writes.
      rewrite Hs1, !filter_app, filter_heartbeat, filter_status_writes.
      rewrite filter_cons_True by apply prefix_app.
      rewrite filter_cons_False by done. rewrite filter_nil.
      cbn [results_of app]. unfold job_id_of, text_of, get_or_null.
      rewrite Hid, Htext. simpl. by rewrite <- app_assoc.
Qed.

(** X12. However the loop ends, [run] leaves no registration behind: once
    the server answers the ping and the model loads, the worker runs its
    turns and, whether they all return or one of them raises, its key is
    gone when [run] returns or re-raises. When the ping fails or the model
    does not load, [run] raises without writing anything. *)
Theorem run_unregisters self ping load_model registered_at started_at turns r :
  ∃ o r',
    run self ping load_model registered_at started_at turns r = (o, r')
    ∧ (ping = true → load_model = Ret () →
       db r' !! (WORKER_PREFIX +:+ self_worker_id self) = None)
    ∧ (ping = false →
       o = Raise (PyError "RuntimeError" "Cannot connect to Redis") ∧ r' = r)
    ∧ (∀ e, ping = true → load_model = Raise e → o = Raise e ∧ r' = r).
Proof.
  unfold run. destruct ping.
  - destruct load_model as [[]|e].
    + unfold bind at 1. unfold ret at 1. unfold bind at 1. unfold lift at 1.
      unfold bind at 1. rewrite register_worker_run.
      cbv beta iota. unfold try_finally.
      match goal with
      | |- context [try_except ?m ?h ?s] =>
          destruct (try_except m h s) as [o r1]
      end.
      unfold unregister_worker, bind, redis_delete. cbn [self_worker_id].
      destruct (db r1 !! (WORKER_PREFIX +:+ self_worker_id self)) as [v|] eqn:Hv.
      * eexists _, _. split; [reflexivity|]. split; [|split; [done|done]].
        intros _ _. simpl. apply lookup_delete_eq.
      * eexists _, _. split; [reflexivity|]. split; [|split; [done|done]].
        by intros _ _.
    + eexists _, _. split; [reflexivity|]. split; [done|]. split; [done|].
      by intros e' _ [= ->].
  - eexists _, _. split; [reflexivity|]. split; [done|]. split; [done|]. done.
Qed.

End WorkerLoop.

(* ===================================================================== *)
(** * More of shared/auth.py: the format of a key and the life of one *)
(* ===================================================================== *)

Section KeyLife.
Context `{Platform}.

Hypothesis loads_dumps : ∀ d : dict, json_loads (json_dumps d) = Some d.
Hypothesis dumps_nonempty : ∀ d : dict, json_dumps d ≠ "".

Lemma string_last_length n s :
  (n ≤ String.length s)%nat → String.length (string_last n s) = n.
Proof. intros Hn. unfold string_last. rewrite string_drop_length. lia. Qed.

Lemma string_length_app a b :
  String.length (a +:+ b) = (String.length a + String.length b)%nat.
Proof. induction a as [|c a IH]; simpl; by rewrite ?IH. Qed.

(** X13. [get_key_id_from_full_key] accepts exactly the strings made of the
    prefix [vvtts_] and a token of 32 characters, and returns the last 8
    characters of the token, so a key id always has 8 characters. It gives
    back the key id of every key that [generate_api_key] makes of a
    32-character token, and [None] for one made of a token of another
    length. *)
Theorem key_id_format s kid token :
  (get_key_id_from_full_key s = Some kid ↔
   ∃ t, s = KEY_PREFIX +:+ t ∧ String.length t = KEY_LENGTH
        ∧ kid = string_last 8 t)
  ∧ (get_key_id_from_full_key s = Some kid → String.length kid = 8%nat)
  ∧ (String.length token = KEY_LENGTH →
     get_key_id_from_full_key (generate_api_key token).1
     = Some (generate_api_key token).2)
  ∧ (String.length token ≠ KEY_LENGTH →
     get_key_id_from_full_key (generate_api_key token).1 = None).
Proof.
  assert (get_key_id_from_full_key s = Some kid →
          ∃ t, s = KEY_PREFIX +:+ t ∧ String.length t = KEY_LENGTH
               ∧ kid = string_last 8 t) as Hto.
  { intros Hk. destruct (get_key_id_Some s kid Hk) as (Hp & Hl & ->).
    apply prefix_split in Hp as [t ->]. rewrite string_drop_app in Hl |- *.
    by exists t. }
  split; [split; [done|]|split; [|split]].
  - intros (t & -> & Hl & ->). by apply key_id_of_generated.
  - intros Hk. destruct (Hto Hk) as (t & _ & Hl & ->).
    apply string_last_length. rewrite Hl. unfold KEY_LENGTH. lia.
  - intros Hl. by apply key_id_of_generated.
  - intros Hl. unfold generate_api_key, get_key_id_from_full_key. cbn [fst].
    rewrite prefix_app, string_drop_app.
    destruct (Nat.eqb_spec (String.length token) KEY_LENGTH) as [|_]; [done|].
    by destruct (String.eqb (KEY_PREFIX +:+ token) "").
Qed.

(** X14. The life of a key. After [create_key], one [increment_usage] with
    [secs] seconds makes [validate_key] return the key's info with a
    request count of 1 and [0.0 + secs] audio seconds; [delete_key] then
    returns [True], after which the key no longer validates and a second
    [delete_key] returns [False] and changes nothing. *)
Theorem key_lifecycle r name token now secs :
  String.length token = KEY_LENGTH →
  let full_key := KEY_PREFIX +:+ token in
  let kid := string_last 8 token in
  ∃ r1 r2 r3,
    create_key name token now r
    = (Ret (full_key,
            mkAPIKeyInfo (JStr kid) (JStr name) (JFloat now) (JInt 0)
              (JFloat fzero)), r1)
    ∧ increment_usage kid secs r1 = (Ret (), r2)
    ∧ validate_key full_key r2
      = (Ret (Some (mkAPIKeyInfo (JStr kid) (JStr name) (JFloat now) (JInt 1)
                      (JFloat (fadd fzero secs)))), r2)
    ∧ delete_key kid r2 = (Ret true, r3)
    ∧ validate_key full_key r3 = (Ret None, r3)
    ∧ delete_key kid r3 = (Ret false, r3).
Proof.
  intros Hlen full_key kid.
  destruct (key_id_of_generated token Hlen) as [Hkid Hne].
  fold full_key kid in Hkid, Hne.
  rewrite create_key_run. fold full_key kid. set (r1 := Redis _ _).
  assert (db r1 !! (APIKEY_PREFIX +:+ kid)
          = Some (RString (json_dumps (key_record kid full_key name now)) None))
    as Hrec1 by apply lookup_insert_eq.
  pose proof (increment_usage_on_record loads_dumps dumps_nonempty r1 kid secs
                (key_record kid full_key name now) None 0 fzero Hrec1
                eq_refl eq_refl) as Hinc.
  set (r2 := Redis _ _) in Hinc.
  assert (db r2 !! (APIKEY_PREFIX +:+ kid)
          = Some (RString (json_dumps (charged (key_record kid full_key name now)
                                         0 fzero secs)) None))
    as Hrec2 by apply lookup_insert_eq.
  assert (delete_key kid r2
          = (Ret true, Redis (delete (APIKEY_PREFIX +:+ kid) (db r2)) (sets r2)))
    as Hdel.
  { unfold delete_key, bind, redis_delete. by rewrite Hrec2. }
  set (r3 := Redis _ _) in Hdel.
  assert (db r3 !! (APIKEY_PREFIX +:+ kid) = None) as Hrec3
    by apply lookup_delete_eq.
  exists r1, r2, r3. split; [done|]. split; [done|]. split; [|split; [done|split]].
  - rewrite (validate_key_on_record loads_dumps dumps_nonempty full_key kid _ None r2
               Hkid Hne Hrec2).
    set (d := charged (key_record kid full_key name now) 0 fzero secs).
    assert (d !! "full_key_hash" = Some (JStr (_hash_key full_key))) as ->.
    { unfold d, charged, key_record. rewrite !lookup_insert_ne by done.
      apply lookup_insert_eq. }
    assert (d !! "key_id" = Some (JStr kid)) as Hk.
    { unfold d, charged, key_record. rewrite !lookup_insert_ne by done.
      apply lookup_singleton_eq. }
    assert (d !! "name" = Some (JStr name)) as Hn.
    { unfold d, charged, key_record. rewrite !lookup_insert_ne by done.
      apply lookup_insert_eq. }
    assert (d !! "created_at" = Some (JFloat now)) as Hc.
    { unfold d, charged, key_record. rewrite !lookup_insert_ne by done.
      apply lookup_insert_eq. }
    assert (d !! "requests_count" = Some (JInt 1)) as ->.
    { unfold d, charged, key_record. rewrite lookup_insert_ne by done.
      apply lookup_insert_eq. }
    assert (d !! "audio_seconds" = Some (JFloat (fadd fzero secs))) as ->.
    { unfold d, charged. apply lookup_insert_eq. }
    unfold eq_str. rewrite String.eqb_refl. cbn [negb].
    unfold bind, getitem. rewrite Hk, Hn, Hc. reflexivity.
  - unfold validate_key. rewrite Hkid.
    destruct kid as [|c kid']; [done|].
    unfold bind, redis_get. by rewrite Hrec3.
  - unfold delete_key, bind, redis_delete. by rewrite Hrec3.
Qed.

End KeyLife.

(* ===================================================================== *)
(** * The synchronous path: [wait_for_result] and [POST /synthesize] *)
(* ===================================================================== *)

Section MoreGateway.
Context `{Platform}.

(** [a < b] on floats. *)
Variable flt : float → float → bool.

(** What the thread that waits takes from outside: the readings of
    [time.time()], in the order it takes them, and what the other clients
    of the server (the workers) do to the store during each
    [time.sleep(poll_interval)]. *)
Record World : Type := mkWorld {
  clock : nat → float;
  asleep : nat → redis → redis;
}.

(** [bool(result)] for the [Optional[dict]] that [get_result] returns. *)
Definition dict_truthy (o : option dict) : bool :=
  match o with
  | Some d => negb (bool_decide (d = ∅))
  | None => false
  end.

(** The [while] loop of [wait_for_result], from its round [i] on, for at
    most [polls] rounds; the outer [None] is a loop that has not ended by
    then, [Some None] is the [None] that Python returns at the deadline. *)
Fixpoint wait_loop (polls : nat) (w : World) (i : nat) (job_id : string)
    (timeout start_time : float) : M (option (option dict)) :=
  match polls with
  | O => ret None
  | S polls' =>
      if flt (fsub (clock w (S i)) start_time) timeout then
        let* result := get_result job_id in
        if dict_truthy result then ret (Some result)
        else
          let* _ := (λ r, (Ret (), asleep w i r)) in
          wait_loop polls' w (S i) job_id timeout start_time
      else ret (Some None)
  end.

Definition wait_for_result (polls : nat) (w : World) (job_id : string)
    (timeout : float) : M (option (option dict)) :=
  let start_time := clock w 0 in
  wait_loop polls w 0 job_id timeout start_time.

(** [increment_usage] as the synchronous handler calls it: with whatever
    [result.get("audio_duration", 0.0)] is. *)
Definition increment_usage_of (key_id : string) (audio_seconds : jval float)
  : M unit :=
  let redis_key := APIKEY_PREFIX +:+ key_id in
  let* key_data_json := redis_get redis_key in
  match key_data_json with
  | None | Some "" => ret ()
  | Some key_data_json =>
      let* key_data := loads key_data_json in
      let* rc := py_add (default (JInt 0) (key_data !! "requests_count")) (JInt 1) in
      let key_data := <["requests_count" := rc]> key_data in
      let* secs := py_add (default (JFloat fzero) (key_data !! "audio_seconds"))
                     audio_seconds in
      let key_data := <["audio_seconds" := secs]> key_data in
      redis_set redis_key (json_dumps key_data) None
  end.

(** The [detail] of [HTTPException(500, v)]: [None] is replaced by the
    phrase of the status code, a string is kept, another scalar is shown as
    [str] shows it. *)
Definition detail_500 (v : jval float) : string :=
  match v with
  | JNull => "Internal Server Error"
  | _ => fstr v
  end.

(** [POST /synthesize]. [job_id] is the draw [str(uuid.uuid4())], [now]
    the reading of the clock that stamps the job; the wait runs in the
    world [w] for at most [polls] rounds, and the handler has not answered
    ([None]) if the wait has not ended by then. *)
Definition synthesize (req : TTSRequest) (api_key_info : option APIKeyInfo)
    (job_id : string) (now : float) (polls : nat) (w : World)
  : M (option Response) :=
  let job := TTSJob_model_dump job_id req now JOB_TIMEOUT in
  let* _ := enqueue_job job (quality req) in
  let* queue_position := get_queue_size (Some (quality req)) in
  let* waited := wait_for_result polls w job_id (float_of_int JOB_TIMEOUT) in
  match waited with
  | None => ret None
  | Some None => raise (HTTPException 408 "Synthesis timeout - try again later")
  | Some (Some result) =>
      if eq_str (result !! "status") "error" then
        raise (HTTPException 500
                 (detail_500 (default (JStr "Synthesis failed") (result !! "error"))))
      else
        let* audio := getitem result "audio" in
        let* audio_bytes := py_b64decode audio in
        let* _ := match api_key_info with
                  | Some info =>
                      let audio_duration :=
                        default (JFloat fzero) (result !! "audio_duration") in
                      increment_usage_of (fstr (key_id info)) audio_duration
                  | None => ret ()
                  end in
        ret (Some (mkResponse audio_bytes "audio/wav"
               [("X-Job-Id", job_id);
                ("X-Generation-Time",
                 fstr (default (JInt 0) (result !! "generation_time")));
                ("X-Audio-Duration",
                 fstr (default (JInt 0) (result !! "audio_duration")));
                ("X-Queue-Position", pretty queue_position)]))
  end.

(** The store before round [i] of the wait that starts on [r]. *)
Fixpoint store_at (w : World) (r : redis) (i : nat) : redis :=
  match i with
  | O => r
  | S i' => asleep w i' (store_at w r i')
  end.

End MoreGateway.

Section Synchronous.
Context `{Platform}.
Variable flt : float → float → bool.

Hypothesis loads_dumps : ∀ d : dict, json_loads (json_dumps d) = Some d.
Hypothesis dumps_nonempty : ∀ d : dict, json_dumps d ≠ "".

(** Round [j] of the wait finds the deadline ahead and no result. *)
Definition still_waiting (w : World) (job_id : string) (timeout : float)
    (r : redis) (j : nat) : Prop :=
  flt (fsub (clock w (S j)) (clock w 0)) timeout = true
  ∧ ∃ o, result_stored (store_at w r j) job_id o ∧ dict_truthy o = false.

Lemma wait_loop_skip w job_id timeout r n : ∀ i polls,
  (∀ j, (i ≤ j < i + n)%nat → still_waiting w job_id timeout r j) →
  wait_loop flt (n + polls) w i job_id timeout (clock w 0) (store_at w r i)
  = wait_loop flt polls w (i + n) job_id timeout (clock w 0)
      (store_at w r (i + n)).
Proof.
  induction n as [|n IH]; intros i polls Hw.
  - by rewrite Nat.add_0_r.
  - destruct (Hw i ltac:(lia)) as (Hc & o & Ho & Hf).
    cbn [Nat.add wait_loop]. rewrite Hc.
    unfold bind at 1.
    rewrite (get_result_stored loads_dumps dumps_nonempty _ _ _ Ho), Hf.
    unfold bind at 1. change (asleep w i (store_at w r i)) with (store_at w r (S i)).
    rewrite IH by (intros j Hj; apply Hw; lia).
    by replace (S i + n)%nat with (i + S n)%nat by lia.
Qed.

Lemma wait_loop_reaches w job_id timeout r k polls :
  (k < polls)%nat →
  (∀ j, (j < k)%nat → still_waiting w job_id timeout r j) →
  ∃ p, wait_for_result flt polls w job_id timeout r
       = wait_loop flt (S p) w k job_id timeout (clock w 0) (store_at w r k).
Proof.
  intros Hk Hw. exists (polls - k - 1)%nat.
  unfold wait_for_result. replace polls with (k + S (polls - k - 1))%nat at 1 by lia.
  change r with (store_at w r 0) at 1.
  rewrite wait_loop_skip; [done|]. intros j Hj. apply Hw. lia.
Qed.

Lemma wait_for_result_found w job_id timeout r k polls (d : dict) :
  (k < polls)%nat →
  (∀ j, (j < k)%nat → still_waiting w job_id timeout r j) →
  flt (fsub (clock w (S k)) (clock w 0)) timeout = true →
  result_stored (store_at w r k) job_id (Some d) → d ≠ ∅ →
  wait_for_result flt polls w job_id timeout r
  = (Ret (Some (Some d)), store_at w r k).
Proof.
  intros Hk Hw Hc Hd Hne.
  destruct (wait_loop_reaches w job_id timeout r k polls Hk Hw) as [p ->].
  cbn [wait_loop]. rewrite Hc. unfold bind.
  rewrite (get_result_stored loads_dumps dumps_nonempty _ _ _ Hd).
  cbn [dict_truthy]. by rewrite bool_decide_eq_false_2.
Qed.

Lemma wait_for_result_deadline w job_id timeout r k polls :
  (k < polls)%nat →
  (∀ j, (j < k)%nat → still_waiting w job_id timeout r j) →
  flt (fsub (clock w (S k)) (clock w 0)) timeout = false →
  wait_for_result flt polls w job_id timeout r
  = (Ret (Some None), store_at w r k).
Proof.
  intros Hk Hw Hc.
  destruct (wait_loop_reaches w job_id timeout r k polls Hk Hw) as [p ->].
  cbn [wait_loop]. by rewrite Hc.
Qed.

(** X15. [wait_for_result] returns the first result that one of its rounds
    finds before the deadline, and [None] at the first round that finds the
    deadline passed; a round reads the clock, then the result key, then
    sleeps. A result that is an empty dictionary counts as no result. In
    both cases the wait itself has written nothing: the store is what the
    sleeps made of it. *)
Theorem wait_returns_first_result w job_id timeout r k polls :
  (k < polls)%nat →
  (∀ j, (j < k)%nat → still_waiting w job_id timeout r j) →
  (∀ d, flt (fsub (clock w (S k)) (clock w 0)) timeout = true →
        result_stored (store_at w r k) job_id (Some d) → d ≠ ∅ →
        wait_for_result flt polls w job_id timeout r
        = (Ret (Some (Some d)), store_at w r k))
  ∧ (flt (fsub (clock w (S k)) (clock w 0)) timeout = false →
     wait_for_result flt polls w job_id timeout r
     = (Ret (Some None), store_at w r k)).
Proof.
  intros Hk Hw. split.
  - intros d. by apply wait_for_result_found.
  - by apply wait_for_result_deadline.
Qed.

Hypothesis b64_round_trip : ∀ bs, b64decode (b64encode bs) = Some bs.

(** A world in which a worker of the request's quality runs one turn of
    its loop during the first sleep of the wait, and the deadline is ahead
    at the first two rounds. *)
Definition served_at_once (w : World) (self : TTSWorker) (ext : Externals)
    (turn_now : float) (req : TTSRequest) : Prop :=
  _get_queue_key (self_quality self) = _get_queue_key (quality req)
  ∧ flt (fsub (clock w 1) (clock w 0)) (float_of_int JOB_TIMEOUT) = true
  ∧ flt (fsub (clock w 2) (clock w 0)) (float_of_int JOB_TIMEOUT) = true
  ∧ ∀ x, asleep w 0 x = (run_iteration self ext turn_now x).2.

Lemma model_dump_text job_id req created_at timeout :
  TTSJob_model_dump job_id req created_at timeout !! "text" = Some (JStr (text req)).
Proof.
  unfold TTSJob_model_dump. rewrite lookup_insert_ne by done.
  by rewrite lookup_insert_eq.
Qed.

(** The first three calls of the handler in such a world, on an idle queue
    and for a fresh job id. *)
Lemma served_while_waiting req job_id now w self ext turn_now polls r
    (m : gmap string Z) :
  let job := TTSJob_model_dump job_id req now JOB_TIMEOUT in
  quality req ≠ "" →
  queue_holds r (_get_queue_key (quality req)) [] →
  get_metrics r = (Ret m, r) →
  result_stored r job_id None →
  served_at_once w self ext turn_now req →
  (2 ≤ polls)%nat →
  ∃ r1 r2,
    enqueue_job job (quality req) r = (Ret (), r1)
    ∧ get_queue_size (Some (quality req)) r1 = (Ret 1%Z, r1)
    ∧ wait_for_result flt polls w job_id (float_of_int JOB_TIMEOUT) r1
      = (Ret (Some (Some (outcome_of ext job (text req)))), r2)
    ∧ db r2 !! (STATUS_PREFIX +:+ job_id)
      = Some (RString (final_status ext job (text req)) (Some RESULT_TTL))
    ∧ result_stored r2 job_id (Some (outcome_of ext job (text req)))
    ∧ ∀ kid, db r2 !! (APIKEY_PREFIX +:+ kid) = db r !! (APIKEY_PREFIX +:+ kid).
Proof.
  intros job Hq Hempty Hm Hfresh (Hkey & Hc1 & Hc2 & Hturn) Hpolls.
  destruct (enqueue_job_spec r (quality req) [] job (JStr job_id) Hempty
              (model_dump_job_id _ _ _ _)) as (r1 & Henq & Hq1 & _ & _ & Hf1).
  cbn [fstr] in Hf1. cbn [app] in Hq1.
  assert (get_metrics r1 = (Ret m, r1)) as Hm1.
  { apply (get_metrics_lookup r); [|done]. apply Hf1.
    - apply metrics_ne_queue.
    - intros Heq. symmetry in Heq. by apply status_ne_metrics in Heq. }
  assert (result_stored r1 job_id None) as Hfresh1.
  { unfold result_stored in *. rewrite Hf1; [done| |].
    - apply result_ne_queue.
    - intros Heq. symmetry in Heq. by apply status_ne_result in Heq. }
  rewrite <- Hkey in Hq1.
  destruct (turn_on_job loads_dumps self ext turn_now r1 job job_id (text req) [] m
              Hq1 (model_dump_job_id _ _ _ _) (model_dump_text _ _ _ _) Hm1)
    as (self' & r2 & Hrun & _ & _ & Hq2 & _ & _ & Hres & Hst & Hf2).
  assert (store_at w r1 1 = r2) as Hr2.
  { cbn [store_at]. by rewrite Hturn, Hrun. }
  exists r1, r2. split; [done|]. split; [|split; [|split; [done|split; [done|]]]].
  - rewrite Hkey in Hq1. by rewrite (get_queue_size_holds r1 _ [job] Hq Hq1).
  - rewrite <- Hr2. apply wait_for_result_found; [lia| |done|by rewrite Hr2|].
    + intros j Hj. assert (j = 0%nat) as -> by lia. split; [done|].
      by exists None.
    + intros Heq. pose proof (outcome_status ext job (text req)) as Hs.
      by rewrite Heq in Hs.
  - intros kid. rewrite Hf2, Hf1; [done| | | | | | |].
    + apply apikey_ne_queue.
    + intros Heq. symmetry in Heq. by apply status_ne_apikey in Heq.
    + discriminate.
    + apply apikey_ne_queue.
    + discriminate.
    + intros Heq. symmetry in Heq. by apply status_ne_apikey in Heq.
    + discriminate.
Qed.


Lemma completed_result_lookups ext bs dur :
  completed_result ext bs dur !! "status" = Some (JStr "completed")
  ∧ completed_result ext bs dur !! "audio" = Some (JStr (b64encode bs))
  ∧ completed_result ext bs dur !! "generation_time"
    = Some (JFloat (round3 (fsub (time_synthesized ext) (time_start ext))))
  ∧ completed_result ext bs dur !! "audio_duration"
    = Some (if fis_zero dur then JNull else JFloat (round3 dur)).
Proof.
  unfold completed_result. split; [|split; [|split]].
  - apply lookup_insert_eq.
  - rewrite lookup_insert_ne by done. apply lookup_insert_eq.
  - rewrite !lookup_insert_ne by done. apply lookup_insert_eq.
  - rewrite !lookup_insert_ne by done. apply lookup_insert_eq.
Qed.

Lemma error_result_lookups ext e :
  error_result ext e !! "status" = Some (JStr "error")
  ∧ error_result ext e !! "error" = Some (JStr (exn_str e)).
Proof.
  unfold error_result. split.
  - apply lookup_insert_eq.
  - rewrite lookup_insert_ne by done. apply lookup_insert_eq.
Qed.

Lemma get_job_status_lookup r job_id s ex :
  db r !! (STATUS_PREFIX +:+ job_id) = Some (RString s ex) →
  get_job_status job_id r = (Ret (Some s), r).
Proof. intros Hs. unfold get_job_status, redis_get. by rewrite Hs. Qed.

(** X16. The synchronous handler and the worker meet at the result key. A
    caller from the local machine submits to an idle queue; a worker of
    that quality takes the job while the handler sleeps. When the engine
    returns audio, the handler answers with exactly those bytes as
    [audio/wav], the job id, the rounded generation time, the rounded audio
    duration ([None] for a duration of zero) and queue position 1 in the
    headers. When the worker's result is an error, the handler raises a
    500 whose detail is the text of the worker's exception. Either way the
    status of the job is the status of that result. *)
Theorem synthesize_answers_with_worker_audio req job_id now w self ext turn_now
    polls r (m : gmap string Z) :
  let job := TTSJob_model_dump job_id req now JOB_TIMEOUT in
  quality req ≠ "" →
  queue_holds r (_get_queue_key (quality req)) [] →
  get_metrics r = (Ret m, r) →
  result_stored r job_id None →
  served_at_once w self ext turn_now req →
  (2 ≤ polls)%nat →
  (∀ path bs dur,
     reference_of ext job = Ret path →
     synthesis_of ext job (text req) path = Ret (bs, dur) →
     ∃ r', synthesize flt req None job_id now polls w r
           = (Ret (Some (mkResponse bs "audio/wav"
                 [("X-Job-Id", job_id);
                  ("X-Generation-Time",
                   frepr (round3 (fsub (time_synthesized ext) (time_start ext))));
                  ("X-Audio-Duration",
                   if fis_zero dur then "None" else frepr (round3 dur));
                  ("X-Queue-Position", pretty 1%Z)])), r')
           ∧ get_job_status job_id r' = (Ret (Some "completed"), r'))
  ∧ (∀ e, outcome_of ext job (text req) = error_result ext e →
     ∃ r', synthesize flt req None job_id now polls w r
           = (Raise (HTTPException 500 (exn_str e)), r')
           ∧ get_job_status job_id r' = (Ret (Some "error"), r')).
Proof.
  intros job Hq Hempty Hm Hfresh Hworld Hpolls.
  destruct (served_while_waiting req job_id now w self ext turn_now polls r m
              Hq Hempty Hm Hfresh Hworld Hpolls)
    as (r1 & r2 & Henq & Hsize & Hwait & Hst & _ & _).
  fold job in Henq, Hwait, Hst.
  split.
  - intros path bs dur Href Hsyn. exists r2.
    assert (outcome_of ext job (text req) = completed_result ext bs dur) as Hout.
    { unfold outcome_of. by rewrite Href, Hsyn. }
    assert (final_status ext job (text req) = "completed") as Hfin.
    { unfold final_status. by rewrite Href, Hsyn. }
    rewrite Hout in Hwait. rewrite Hfin in Hst.
    destruct (completed_result_lookups ext bs dur) as (Hs & Ha & Hg & Hd).
    split; [|by apply (get_job_status_lookup _ _ _ _ Hst)].
    unfold synthesize. fold job. unfold bind at 1. rewrite Henq.
    unfold bind at 1. rewrite Hsize. unfold bind at 1. rewrite Hwait.
    rewrite Hs, Hg, Hd. cbn [eq_str String.eqb Ascii.eqb Bool.eqb].
    unfold bind, getitem. rewrite Ha. unfold ret at 1. unfold py_b64decode.
    rewrite b64_round_trip. unfold ret.
    do 4 f_equal. by destruct (fis_zero dur).
  - intros e Hout. exists r2.
    pose proof (outcome_status ext job (text req)) as Hs.
    destruct (error_result_lookups ext e) as (Hs' & He).
    rewrite Hout, Hs' in Hs. injection Hs as Hfin.
    rewrite Hout in Hwait. rewrite <- Hfin in Hst.
    split; [|by apply (get_job_status_lookup _ _ _ _ Hst)].
    unfold synthesize. fold job. unfold bind at 1. rewrite Henq.
    unfold bind at 1. rewrite Hsize. unfold bind at 1. rewrite Hwait.
    by rewrite Hs', He.
Qed.


Lemma increment_usage_of_float kid secs :
  increment_usage_of kid (JFloat secs) = increment_usage kid secs.
Proof. reflexivity. Qed.

(** With [None] for the seconds the second addition raises, before
    anything is written back. *)
Lemma increment_usage_of_null r kid (d : dict) ex n a :
  db r !! (APIKEY_PREFIX +:+ kid) = Some (RString (json_dumps d) ex) →
  default (JInt 0) (d !! "requests_count") = JInt n →
  default (JFloat fzero) (d !! "audio_seconds") = JFloat a →
  increment_usage_of kid JNull r
  = (Raise (PyError "TypeError" "unsupported operand type(s) for +"), r).
Proof.
  intros Hrec Hn Ha.
  unfold increment_usage_of. unfold bind at 1. unfold redis_get. rewrite Hrec.
  pose proof (dumps_nonempty d) as Hd.
  destruct (json_dumps d) as [|c' s'] eqn:Hs; [done|].
  unfold bind at 1. unfold loads. rewrite <- Hs, loads_dumps.
  unfold ret at 1. rewrite Hn.
  unfold bind at 1. unfold py_add at 1. unfold ret at 1.
  rewrite lookup_insert_ne by done. rewrite Ha.
  reflexivity.
Qed.

(** X17. What the synchronous handler charges to the caller's key, in the
    world of X16 and for a key whose record holds an [int] count and a
    [float] of seconds. For audio of a duration that is not zero the record
    gets one more request and the rounded duration more seconds. For audio
    of duration zero the worker has stored [None] as the duration, and the
    handler raises a [TypeError] when it adds it: the record is as before,
    although the result is stored as completed. For a worker error the
    handler raises its 500 before the charge, and the record is as
    before. *)
Theorem synthesize_charges_the_key req info job_id now w self ext turn_now
    polls r (m : gmap string Z) (d : dict) ex n a :
  let job := TTSJob_model_dump job_id req now JOB_TIMEOUT in
  let record := APIKEY_PREFIX +:+ fstr (key_id info) in
  quality req ≠ "" →
  queue_holds r (_get_queue_key (quality req)) [] →
  get_metrics r = (Ret m, r) →
  result_stored r job_id None →
  served_at_once w self ext turn_now req →
  (2 ≤ polls)%nat →
  db r !! record = Some (RString (json_dumps d) ex) →
  default (JInt 0) (d !! "requests_count") = JInt n →
  default (JFloat fzero) (d !! "audio_seconds") = JFloat a →
  (∀ path bs dur,
     reference_of ext job = Ret path →
     synthesis_of ext job (text req) path = Ret (bs, dur) →
     fis_zero dur = false →
     ∃ resp r', synthesize flt req (Some info) job_id now polls w r
                = (Ret (Some resp), r')
       ∧ content resp = bs
       ∧ db r' !! record
         = Some (RString (json_dumps (charged d n a (round3 dur))) None))
  ∧ (∀ path bs dur,
     reference_of ext job = Ret path →
     synthesis_of ext job (text req) path = Ret (bs, dur) →
     fis_zero dur = true →
     ∃ msg r', synthesize flt req (Some info) job_id now polls w r
               = (Raise (PyError "TypeError" msg), r')
       ∧ db r' !! record = db r !! record
       ∧ get_result job_id r' = (Ret (Some (completed_result ext bs dur)), r'))
  ∧ (∀ e, outcome_of ext job (text req) = error_result ext e →
     ∃ r', synthesize flt req (Some info) job_id now polls w r
           = (Raise (HTTPException 500 (exn_str e)), r')
       ∧ db r' !! record = db r !! record).
Proof.
  intros job record Hq Hempty Hm Hfresh Hworld Hpolls Hrec Hn Ha.
  destruct (served_while_waiting req job_id now w self ext turn_now polls r m
              Hq Hempty Hm Hfresh Hworld Hpolls)
    as (r1 & r2 & Henq & Hsize & Hwait & Hst & Hres & Hkeys).
  fold job in Henq, Hwait, Hst.
  assert (db r2 !! record = Some (RString (json_dumps d) ex)) as Hrec2
    by (unfold record; by rewrite Hkeys).
  assert (∀ path bs dur,
     reference_of ext job = Ret path →
     synthesis_of ext job (text req) path = Ret (bs, dur) →
     synthesize flt req (Some info) job_id now polls w r
     = (let* _ := increment_usage_of (fstr (key_id info))
                    (if fis_zero dur then JNull else JFloat (round3 dur)) in
        ret (Some (mkResponse bs "audio/wav"
               [("X-Job-Id", job_id);
                ("X-Generation-Time",
                 fstr (JFloat (round3 (fsub (time_synthesized ext) (time_start ext)))));
                ("X-Audio-Duration",
                 fstr (if fis_zero dur then JNull else JFloat (round3 dur)));
                ("X-Queue-Position", pretty 1%Z)]))) r2
     ∧ get_result job_id r2 = (Ret (Some (completed_result ext bs dur)), r2))
    as Hgood.
  { intros path bs dur Href Hsyn.
    assert (outcome_of ext job (text req) = completed_result ext bs dur) as Hout.
    { unfold outcome_of. by rewrite Href, Hsyn. }
    rewrite Hout in Hwait.
    destruct (completed_result_lookups ext bs dur) as (Hs & Hau & Hg & Hd).
    split.
    - unfold synthesize. fold job. unfold bind at 1. rewrite Henq.
      unfold bind at 1. rewrite Hsize. unfold bind at 1. rewrite Hwait.
      rewrite Hs, Hg, Hd. cbn [eq_str String.eqb Ascii.eqb Bool.eqb].
      unfold bind at 1. unfold getitem. rewrite Hau. unfold ret at 1.
      unfold bind at 1. unfold py_b64decode.
      rewrite b64_round_trip. unfold ret at 1. reflexivity.
    - apply (get_result_stored loads_dumps dumps_nonempty). by rewrite <- Hout. }
  split; [|split].
  - intros path bs dur Href Hsyn Hz.
    destruct (Hgood path bs dur Href Hsyn) as [-> _]. rewrite Hz.
    unfold bind. rewrite increment_usage_of_float.
    rewrite (increment_usage_on_record loads_dumps dumps_nonempty r2 _ _ d ex n a
               Hrec2 Hn Ha).
    eexists _, _. split; [reflexivity|]. split; [done|].
    cbn [db]. apply lookup_insert_eq.
  - intros path bs dur Href Hsyn Hz.
    destruct (Hgood path bs dur Href Hsyn) as [-> Hget]. rewrite Hz.
    unfold bind. rewrite (increment_usage_of_null r2 _ d ex n a Hrec2 Hn Ha).
    eexists _, r2. split; [reflexivity|]. split; [|done].
    by rewrite Hrec2, Hrec.
  - intros e Hout. exists r2.
    destruct (error_result_lookups ext e) as (Hs' & He).
    rewrite Hout in Hwait.
    split; [|by rewrite Hrec2, Hrec].
    unfold synthesize. fold job. unfold bind at 1. rewrite Henq.
    unfold bind at 1. rewrite Hsize. unfold bind at 1. rewrite Hwait.
    by rewrite Hs', He.
Qed.

(** The sleeps of [w] leave the key [k] alone. *)
Definition untouched (w : World) (k : string) : Prop :=
  ∀ i x, db (asleep w i x) !! k = db x !! k.

Lemma store_at_untouched w k r i :
  untouched w k → db (store_at w r i) !! k = db r !! k.
Proof.
  intros Hu. induction i as [|i IH]; [done|]. cbn [store_at]. by rewrite Hu.
Qed.

(** X18. A job that nobody serves. When no sleep of the wait changes the
    result key of the job or its queue, and the clock passes the deadline
    of [JOB_TIMEOUT] seconds at some round, the handler raises the 408 for
    any caller, and the job it pushed is still in the queue, behind the
    jobs that were there. *)
Theorem synthesize_times_out req api_key_info job_id now w polls r
    (jobs : list dict) k :
  let job := TTSJob_model_dump job_id req now JOB_TIMEOUT in
  quality req ≠ "" →
  queue_holds r (_get_queue_key (quality req)) jobs →
  result_stored r job_id None →
  untouched w (RESULT_PREFIX +:+ job_id) →
  untouched w (_get_queue_key (quality req)) →
  (∀ j, (j < k)%nat →
        flt (fsub (clock w (S j)) (clock w 0)) (float_of_int JOB_TIMEOUT) = true) →
  flt (fsub (clock w (S k)) (clock w 0)) (float_of_int JOB_TIMEOUT) = false →
  (k < polls)%nat →
  ∃ r', synthesize flt req api_key_info job_id now polls w r
        = (Raise (HTTPException 408 "Synthesis timeout - try again later"), r')
    ∧ queue_holds r' (_get_queue_key (quality req)) (jobs ++ [job])
    ∧ result_stored r' job_id None.
Proof.
  intros job Hq Hjobs Hfresh Hres Hqueue Hbefore Hdead Hk.
  destruct (enqueue_job_spec r (quality req) jobs job (JStr job_id) Hjobs
              (model_dump_job_id _ _ _ _)) as (r1 & Henq & Hq1 & _ & _ & Hf1).
  cbn [fstr] in Hf1.
  assert (result_stored r1 job_id None) as Hfresh1.
  { unfold result_stored in *. rewrite Hf1; [done| |].
    - apply result_ne_queue.
    - intros Heq. symmetry in Heq. by apply status_ne_result in Heq. }
  assert (∀ i, result_stored (store_at w r1 i) job_id None) as Hnone.
  { intros i. unfold result_stored in *. by rewrite store_at_untouched. }
  exists (store_at w r1 k). split; [|split].
  - unfold synthesize. fold job. unfold bind at 1. rewrite Henq.
    unfold bind at 1.
    rewrite (get_queue_size_holds r1 _ (jobs ++ [job]) Hq Hq1).
    unfold bind at 1.
    rewrite (wait_for_result_deadline w job_id _ r1 k polls Hk); [done| |done].
    intros j Hj. split; [by apply Hbefore|]. by exists None.
  - apply (queue_holds_lookup r1); [|done]. by apply store_at_untouched.
  - apply Hnone.
Qed.

End Synchronous.

(* ===================================================================== *)
(** * [GET /health] *)
(* ===================================================================== *)

(** [HealthResponse]; [workers] is the dictionary with the keys [active],
    [ids] and [by_quality], the last one held as the pair of its ["high"]
    and ["fast"] lists. *)
Record HealthResponse : Type := mkHealthResponse {
  health_status : string;
  health_queue_size : Z;
  health_queue_sizes : option (gmap string Z);
  workers_active : Z;
  workers_ids : list string;
  workers_by_quality : list string * list string;
  health_metrics : option (gmap string Z);
}.

Section Health.
Context `{Platform}.

(** [GET /health]. [ping] is what [state.redis.ping()] answers. *)
Definition health (ping : bool) : M HealthResponse :=
  let* workers_by_quality := get_workers_by_quality in
  let* all_workers := get_active_workers in
  let* metrics := get_metrics in
  let* queue_sizes := get_queue_sizes in
  let status := if ping then "healthy" else "unhealthy" in
  let* queue_size := get_queue_size None in
  ret (mkHealthResponse status queue_size (Some queue_sizes)
         (Z.of_nat (length all_workers)) all_workers workers_by_quality
         (if bool_decide (metrics = ∅) then None else Some metrics)).

Hypothesis loads_dumps : ∀ d : dict, json_loads (json_dumps d) = Some d.

(** X19. The numbers of a health report agree with each other. On a
    registry that [register_worker] has filled, with the two queues holding
    [highs] and [fasts], [GET /health] answers and writes nothing; its
    [queue_size] is the sum of the two entries of its [queue_sizes], which
    are the two queue lengths; its [active] count is the number of its
    [ids] and the sum of the lengths of its two [by_quality] lists; it
    reports no [metrics] exactly when no counter has been incremented. *)
Theorem health_is_consistent ping r (highs fasts : list dict) (m : gmap string Z) :
  registry_ok r →
  queue_holds r JOBS_QUEUE_HIGH highs →
  queue_holds r JOBS_QUEUE_FAST fasts →
  get_metrics r = (Ret m, r) →
  ∃ resp, health ping r = (Ret resp, r)
    ∧ health_status resp = (if ping then "healthy" else "unhealthy")
    ∧ health_queue_sizes resp
      = Some (<["high" := Z.of_nat (length highs)]>
                {["fast" := Z.of_nat (length fasts)]})
    ∧ health_queue_size resp
      = (Z.of_nat (length highs) + Z.of_nat (length fasts))%Z
    ∧ workers_active resp = Z.of_nat (length (workers_ids resp))
    ∧ workers_active resp
      = Z.of_nat (length (workers_by_quality resp).1
                  + length (workers_by_quality resp).2)
    ∧ (health_metrics resp = None ↔ m = ∅)
    ∧ (m ≠ ∅ → health_metrics resp = Some m).
Proof.
  intros Hok Hh Hf Hm.
  destruct (registry_listing loads_dumps r Hok)
    as (hs & fs & ids & Hg & Ha & _ & _ & _ & Hlen).
  destruct (get_queue_sizes_holds r highs fasts Hh Hf) as [Hsizes Hsize].
  eexists. split.
  { unfold health. unfold bind at 1. rewrite Hg. unfold bind at 1. rewrite Ha.
    unfold bind at 1. rewrite Hm. unfold bind at 1. rewrite Hsizes.
    unfold bind. rewrite Hsize. reflexivity. }
  cbn. split; [done|]. split; [done|]. split; [done|]. split; [done|].
  split; [by rewrite Hlen|].
  destruct (decide (m = ∅)) as [->|Hne].
  - rewrite bool_decide_eq_true_2 by done. done.
  - rewrite bool_decide_eq_false_2 by done. done.
Qed.

End Health.

(* ===================================================================== *)
(** * The asynchronous path, end to end *)
(* ===================================================================== *)

Section AsyncLife.
Context `{Platform}.

Hypothesis loads_dumps : ∀ d : dict, json_loads (json_dumps d) = Some d.
Hypothesis dumps_nonempty : ∀ d : dict, json_dumps d ≠ "".
Hypothesis b64_round_trip : ∀ bs, b64decode (b64encode bs) = Some bs.

Lemma get_job_status_endpoint_on r job_id s ex (o : option dict) :
  db r !! (STATUS_PREFIX +:+ job_id) = Some (RString s ex) →
  result_stored r job_id o →
  get_job_status_endpoint job_id r
  = (let* st := JobStatus_of s in
     let has_result := dict_truthy o in
     if String.eqb s "pending" then
       let* pos := get_queue_position job_id "high" in
       ret (mkJobStatusResponse job_id st (Some pos) None None None)
     else if (String.eqb s "completed" && has_result)%bool then
       ret (mkJobStatusResponse job_id st None
              (Some ("/job/" +:+ job_id +:+ "/audio"))
              (o ≫= (λ d, d !! "generation_time")) None)
     else if (String.eqb s "error" && has_result)%bool then
       ret (mkJobStatusResponse job_id st None None None
              (o ≫= (λ d, d !! "error")))
     else ret (mkJobStatusResponse job_id st None None None None)) r.
Proof.
  intros Hs Ho. unfold get_job_status_endpoint.
  unfold bind at 1. rewrite (get_job_status_lookup r job_id s ex Hs).
  unfold bind at 1.
  by rewrite (get_result_stored loads_dumps dumps_nonempty r job_id o Ho).
Qed.

(** X20. The life of a job of quality ["high"] that a local caller submits
    to an idle queue. [POST /synthesize/async] answers [pending] with queue
    position 1, while [GET /job/{id}] then reports [pending] with queue
    position 0, and the audio is a 404. After the turn of a worker of that
    quality: if the engine returned audio, [GET /job/{id}] reports
    [completed] with the audio URL of the job and the rounded generation
    time, and [GET /job/{id}/audio] returns the bytes of the engine; if the
    worker's result is an error, [GET /job/{id}] reports [error] with the
    text of the exception and the audio is a 400. *)
Theorem async_job_life_cycle req job_id now self ext turn_now r
    (m : gmap string Z) :
  let job := TTSJob_model_dump job_id req now JOB_TIMEOUT in
  quality req = "high" →
  _get_queue_key (self_quality self) = JOBS_QUEUE_HIGH →
  queue_holds r JOBS_QUEUE_HIGH [] →
  get_metrics r = (Ret m, r) →
  result_stored r job_id None →
  ∃ resp r1 self' r2,
    synthesize_async req None job_id now r = (Ret resp, r1)
    ∧ async_job_id resp = job_id
    ∧ async_status resp = PENDING
    ∧ async_queue_position resp = 1%Z
    ∧ get_job_status_endpoint job_id r1
      = (Ret (mkJobStatusResponse job_id PENDING (Some 0%Z) None None None), r1)
    ∧ get_job_audio job_id r1
      = (Raise (HTTPException 404 "Job not found or expired"), r1)
    ∧ run_iteration self ext turn_now r1 = (Ret self', r2)
    ∧ (∀ path bs dur,
         reference_of ext job = Ret path →
         synthesis_of ext job (text req) path = Ret (bs, dur) →
         get_job_status_endpoint job_id r2
         = (Ret (mkJobStatusResponse job_id COMPLETED None
                   (Some ("/job/" +:+ job_id +:+ "/audio"))
                   (Some (JFloat (round3 (fsub (time_synthesized ext)
                                            (time_start ext)))))
                   None), r2)
         ∧ ∃ hdrs, get_job_audio job_id r2
                   = (Ret (mkResponse bs "audio/wav" hdrs), r2))
    ∧ (∀ e, outcome_of ext job (text req) = error_result ext e →
         get_job_status_endpoint job_id r2
         = (Ret (mkJobStatusResponse job_id ERROR None None None
                   (Some (JStr (exn_str e)))), r2)
         ∧ get_job_audio job_id r2
           = (Raise (HTTPException 400 "Job status is error, not completed"), r2)).
Proof.
  intros job Hq Hkey Hempty Hm Hfresh.
  assert (_get_queue_key (quality req) = JOBS_QUEUE_HIGH) as Hqk by (by rewrite Hq).
  rewrite <- Hqk in Hempty.
  destruct (enqueue_job_spec r (quality req) [] job (JStr job_id) Hempty
              (model_dump_job_id _ _ _ _)) as (r1 & Henq & Hq1 & _ & Hst1 & Hf1).
  cbn [fstr] in Hf1, Hst1. cbn [app] in Hq1.
  assert (get_metrics r1 = (Ret m, r1)) as Hm1.
  { apply (get_metrics_lookup r); [|done]. apply Hf1.
    - apply metrics_ne_queue.
    - intros Heq. symmetry in Heq. by apply status_ne_metrics in Heq. }
  assert (result_stored r1 job_id None) as Hfresh1.
  { unfold result_stored in *. rewrite Hf1; [done| |].
    - apply result_ne_queue.
    - intros Heq. symmetry in Heq. by apply status_ne_result in Heq. }
  assert (queue_holds r1 (_get_queue_key (self_quality self)) [job]) as Hq1'
    by (by rewrite Hkey, <- Hqk).
  destruct (turn_on_job loads_dumps self ext turn_now r1 job job_id (text req) [] m
              Hq1' (model_dump_job_id _ _ _ _) (model_dump_text _ _ _ _) Hm1)
    as (self' & r2 & Hrun & _ & _ & _ & _ & _ & Hres & Hst2 & _).
  destruct (get_active_workers_length r1) as (ids & Hact & _).
  eexists _, r1, self', r2.
  split; [|split; [|split; [|split; [|split; [|split; [|split; [done|split]]]]]]].
  - unfold synthesize_async. fold job. unfold bind at 1. rewrite Henq.
    unfold bind at 1.
    rewrite (get_queue_size_holds r1 (quality req) [job]); [|by rewrite Hq|done].
    unfold bind at 1. rewrite Hact. unfold bind, ret. reflexivity.
  - done.
  - done.
  - done.
  - rewrite (get_job_status_endpoint_on r1 job_id _ _ None Hst1 Hfresh1).
    cbn [JobStatus_of String.eqb Ascii.eqb Bool.eqb]. unfold bind at 1.
    unfold ret at 1. cbn [String.eqb Ascii.eqb Bool.eqb]. unfold bind.
    rewrite (get_queue_position_found loads_dumps r1 "high" job_id [] job []).
    + done.
    + by rewrite <- Hq.
    + done.
    + unfold job. rewrite model_dump_job_id. cbn [eq_str]. apply String.eqb_refl.
  - unfold get_job_audio, bind.
    by rewrite (get_result_stored loads_dumps dumps_nonempty r1 job_id None Hfresh1).
  - intros path bs dur Href Hsyn.
    assert (outcome_of ext job (text req) = completed_result ext bs dur) as Hout.
    { unfold outcome_of. by rewrite Href, Hsyn. }
    assert (final_status ext job (text req) = "completed") as Hfin.
    { unfold final_status. by rewrite Href, Hsyn. }
    rewrite Hout in Hres. rewrite Hfin in Hst2.
    destruct (completed_result_lookups ext bs dur) as (Hs & Hau & Hg & Hd).
    split.
    + rewrite (get_job_status_endpoint_on r2 job_id _ _ _ Hst2 Hres).
      cbn [JobStatus_of String.eqb Ascii.eqb Bool.eqb]. unfold bind, ret.
      cbn [String.eqb Ascii.eqb Bool.eqb dict_truthy andb].
      rewrite bool_decide_eq_false_2; [|by intros Heq; rewrite Heq in Hs].
      cbn [negb mbind option_bind]. by rewrite Hg.
    + eexists. unfold get_job_audio. unfold bind at 1.
      rewrite (get_result_stored loads_dumps dumps_nonempty r2 job_id _ Hres).
      rewrite Hs. cbn [eq_str String.eqb Ascii.eqb Bool.eqb negb].
      unfold bind, getitem. rewrite Hau. unfold ret at 1. unfold py_b64decode.
      rewrite b64_round_trip. reflexivity.
  - intros e Hout.
    pose proof (outcome_status ext job (text req)) as Hs.
    destruct (error_result_lookups ext e) as (Hs' & He).
    rewrite Hout, Hs' in Hs. injection Hs as Hfin.
    rewrite Hout in Hres. rewrite <- Hfin in Hst2.
    split.
    + rewrite (get_job_status_endpoint_on r2 job_id _ _ _ Hst2 Hres).
      cbn [JobStatus_of String.eqb Ascii.eqb Bool.eqb]. unfold bind, ret.
      cbn [String.eqb Ascii.eqb Bool.eqb dict_truthy andb].
      rewrite bool_decide_eq_false_2; [|by intros Heq; rewrite Heq in Hs'].
      cbn [negb mbind option_bind]. by rewrite He.
    + unfold get_job_audio. unfold bind at 1.
      rewrite (get_result_stored loads_dumps dumps_nonempty r2 job_id _ Hres).
      unfold get_or_null. rewrite Hs'. reflexivity.
Qed.

End AsyncLife.

(* ===================================================================== *)
(** * gateway/main.py: the voice samples that are kept *)
(* ===================================================================== *)

From Stdlib Require Import Sorted.

Section VoiceSamples.
Context `{Platform}.

(** [a < b] on floats. *)
Variable flt : float → float → bool.

(** An entry of the samples metadata, with the five fields that
    [save_voice_sample] gives it. *)
Record Sample : Type := mkSample {
  sample_id : string;
  sample_name : option string;
  sample_reference_text : string;
  sample_created_at : float;
  sample_is_named : bool;
}.

Definition MAX_DEFAULT_SAMPLES : nat := 3.

(** [l.sort(key=lambda x: x.get("created_at", 0))]: ascending and stable,
    with [<] as the only comparison. *)
Fixpoint sort_insert (x : Sample) (l : list Sample) : list Sample :=
  match l with
  | [] => [x]
  | y :: l' =>
      if flt (sample_created_at y) (sample_created_at x)
      then y :: sort_insert x l'
      else x :: l
  end.

Fixpoint sort_by_created_at (l : list Sample) : list Sample :=
  match l with
  | [] => []
  | x :: l' => sort_insert x (sort_by_created_at l')
  end.

(** [_cleanup_old_default_samples]: the list it returns, and the ids of the
    samples whose audio file it unlinks, in the order of the unlinks. *)
Definition _cleanup_old_default_samples (samples : list Sample)
  : list Sample * list string :=
  let default_samples := filter (λ s, sample_is_named s = false) samples in
  let named_samples := filter (λ s, sample_is_named s = true) samples in
  let default_samples := sort_by_created_at default_samples in
  let over := (length default_samples - MAX_DEFAULT_SAMPLES)%nat in
  (named_samples ++ drop over default_samples,
   map sample_id (take over default_samples)).

Hypothesis flt_asym : ∀ a b, flt a b = true → flt b a = false.
Hypothesis flt_trans : ∀ a b c, flt a b = false → flt b c = false → flt a c = false.

(** [a] is not newer than [b]. *)
Definition not_newer (a b : Sample) : Prop :=
  flt (sample_created_at b) (sample_created_at a) = false.

Lemma sort_insert_perm x l : sort_insert x l ≡ₚ x :: l.
Proof.
  induction l as [|y l IH]; [done|]. simpl.
  destruct (flt _ _); [|done]. rewrite IH. apply Permutation_swap.
Qed.

Lemma sort_perm l : sort_by_created_at l ≡ₚ l.
Proof.
  induction l as [|x l IH]; [done|]. simpl. by rewrite sort_insert_perm, IH.
Qed.

Lemma sort_insert_sorted x l :
  StronglySorted not_newer l → StronglySorted not_newer (sort_insert x l).
Proof.
  induction 1 as [|y l Hs IH Hall]; simpl.
  - repeat constructor.
  - destruct (flt (sample_created_at y) (sample_created_at x)) eqn:Hyx.
    + constructor; [done|]. rewrite sort_insert_perm. constructor; [|done].
      unfold not_newer. by apply flt_asym.
    + constructor; [by constructor|]. constructor; [done|].
      eapply Forall_impl; [exact Hall|]. intros z Hz. unfold not_newer in *.
      by apply (flt_trans _ (sample_created_at y)).
Qed.

Lemma sort_sorted l : StronglySorted not_newer (sort_by_created_at l).
Proof.
  induction l as [|x l IH]; simpl; [constructor|by apply sort_insert_sorted].
Qed.

Lemma sorted_take_drop n l a b :
  StronglySorted not_newer l → a ∈ take n l → b ∈ drop n l → not_newer a b.
Proof.
  intros Hs. revert n. induction Hs as [|y l Hs IH Hall]; intros n Ha Hb.
  - by rewrite take_nil in Ha; apply elem_of_nil in Ha.
  - destruct n as [|n]; [by apply elem_of_nil in Ha|].
    cbn in Ha, Hb. apply elem_of_cons in Ha as [->|Ha].
    + rewrite Forall_forall in Hall. apply Hall.
      by apply (subseteq_drop n l).
    + by apply (IH n).
Qed.

(** X21. What [_cleanup_old_default_samples] keeps. Every named sample is
    kept, in the order it had, in front of the unnamed ones. Of the unnamed
    samples at most [MAX_DEFAULT_SAMPLES] are kept: all of them when there
    are no more than that, otherwise exactly that many. The unnamed samples
    that are kept and those whose file is unlinked are together the unnamed
    samples that came in, and no sample that is kept is older than one that
    is dropped. *)
Theorem cleanup_keeps_newest_defaults (samples : list Sample) :
  let unnamed := filter (λ s, sample_is_named s = false) samples in
  let kept := (_cleanup_old_default_samples samples).1 in
  let unlinked := (_cleanup_old_default_samples samples).2 in
  ∃ kept_unnamed dropped,
    kept = filter (λ s, sample_is_named s = true) samples ++ kept_unnamed
    ∧ unlinked = map sample_id dropped
    ∧ kept_unnamed ++ dropped ≡ₚ unnamed
    ∧ length kept_unnamed = (length unnamed `min` MAX_DEFAULT_SAMPLES)%nat
    ∧ (∀ k d, k ∈ kept_unnamed → d ∈ dropped → not_newer d k).
Proof.
  intros unnamed kept unlinked.
  set (sorted := sort_by_created_at unnamed).
  set (over := (length sorted - MAX_DEFAULT_SAMPLES)%nat).
  exists (drop over sorted), (take over sorted).
  split; [done|]. split; [done|]. split; [|split].
  - rewrite Permutation_app_comm, take_drop. apply sort_perm.
  - rewrite length_drop. unfold over.
    assert (length sorted = length unnamed) as ->
      by (unfold sorted; by rewrite sort_perm).
    lia.
  - intros k d Hk Hd. apply (sorted_take_drop over sorted); [|done|done].
    apply sort_sorted.
Qed.

End VoiceSamples.

(* ===================================================================== *)
(** * The credentials over the life of a server *)
(* ===================================================================== *)

Section CreatedKeys.
Context `{Platform}.

Hypothesis loads_dumps : ∀ d : dict, json_loads (json_dumps d) = Some d.
Hypothesis dumps_nonempty : ∀ d : dict, json_dumps d ≠ "".
(** X24. That every credential record was written for a created key is an
    invariant of the three operations of [APIKeyManager] that write:
    [create_key] adds the key it returns to the created ones, and
    [increment_usage] and [delete_key] add none, whatever key id they are
    given. *)
Theorem created_keys_invariant r S name token now kid secs :
  keys_from r S →
  keys_from (create_key name token now r).2 ((KEY_PREFIX +:+ token) :: S)
  ∧ (∃ info, (create_key name token now r).1 = Ret (KEY_PREFIX +:+ token, info))
  ∧ keys_from (increment_usage kid secs r).2 S
  ∧ keys_from (delete_key kid r).2 S.
Proof.
  intros Hk. split; [by apply keys_from_create|]. split.
  - rewrite create_key_run. by eexists.
  - split.
    + by apply (keys_from_increment loads_dumps dumps_nonempty).
    + by apply keys_from_delete.
Qed.

(** X25. On a store of created keys the gate lets a request that is not
    local through only with a key that has the digest of a created key:
    the key is the header, or the query parameter when the header is
    absent or empty, the info returned is what [validate_key] gives for
    it, and nothing is written. So a key that is not itself a created one
    gets through only if its digest is that of a created one. *)
Theorem gate_admits_only_created_keys request x_api_key api_key r S info r' :
  keys_from r S →
  ¬ spec_local request →
  verify_api_key request x_api_key api_key r = (Ret (Some info), r') →
  r' = r
  ∧ ∃ key secret,
      spec_request_key x_api_key api_key key
      ∧ secret ∈ S
      ∧ sha256_hexdigest secret = sha256_hexdigest key
      ∧ validate_key key r = (Ret (Some info), r)
      ∧ ((∀ s, s ∈ S → sha256_hexdigest s = sha256_hexdigest key → s = key) →
         key ∈ S).
Proof.
  intros Hk Hremote.
  assert (is_localhost_request request = false) as Hl.
  { destruct (is_localhost_request request) eqn:Hl; [|done].
    by apply spec_local_spec in Hl. }
  unfold verify_api_key. rewrite Hl.
  destruct (str_or x_api_key api_key) as [[|c k]|] eqn:Hkey; [done| |done].
  unfold bind.
  destruct (validate_key_created loads_dumps dumps_nonempty r S (String c k) Hk)
    as [-> | (info' & secret & Hv & Hin & Hh)]; [done|].
  rewrite Hv. intros [= <- <-]. split; [done|].
  exists (String c k), secret. split; [by apply spec_request_key_spec|].
  split; [done|]. split; [done|]. split; [done|].
  intros Hfree. by rewrite <- (Hfree secret Hin Hh).
Qed.

End CreatedKeys.

(* ===================================================================== *)
(** * The further theorems on the executable platform *)
(* ===================================================================== *)

Lemma ref_registry_empty : @registry_ok Ref.platform Ref.empty.
Proof. intros key Hin. vm_compute in Hin. by apply elem_of_nil in Hin. Qed.

Lemma enqueue_job_counts_witness :

  ∃ r', @enqueue_job Ref.platform (Ref.job "job-1" "fast") "fast" Ref.empty = (Ret (), r')
    ∧ get_queue_sizes r'
      = (Ret (<["high" := Z.of_nat (length (@nil (gmap string (jval Q)))) + 0]>
                {["fast" := Z.of_nat (length (@nil (gmap string (jval Q)))) + 1]}), r')
    ∧ get_queue_size None r' = (Ret (0 + 0 + 1), r').

Proof.
  apply (@enqueue_job_counts Ref.platform Ref.empty "fast" (Ref.job "job-1" "fast")
           (JStr "job-1") [] []).
  - vm_compute. reflexivity.
  - vm_compute. reflexivity.
  - vm_compute. reflexivity.
Defined.

Lemma dequeue_job_counts_witness :

  let r := (@enqueue_job Ref.platform (Ref.job "job-1" "fast") "fast" Ref.empty).2 in
  ∃ r', @dequeue_job Ref.platform "fast" 5 r = (Ret (Some (Ref.job "job-1" "fast")), r')
    ∧ @queue_holds Ref.platform r' JOBS_QUEUE_HIGH []
    ∧ @queue_holds Ref.platform r' JOBS_QUEUE_FAST []
    ∧ get_queue_sizes r' = (Ret (<["high" := 0]> {["fast" := 0]}), r').

Proof.
  intros r.
  destruct (@dequeue_job_counts Ref.platform ref_loads_dumps r "fast" 5 []
              [Ref.job "job-1" "fast"])
    as (r' & Hrun & _ & Hh & Hf & Hs).
  - vm_compute. reflexivity.
  - vm_compute. reflexivity.
  - exists r'. split; [exact Hrun|]. split; [exact Hh|]. split; [exact Hf|exact Hs].
Defined.

Lemma store_result_round_trip_witness :

  let d := @outcome_of Ref.platform Ref.externals (Ref.job "job-1" "high") "xin chao" in
  ∃ r', @store_result Ref.platform "job-1" d Ref.empty = (Ret (), r')
    ∧ @get_result Ref.platform "job-1" r' = (Ret (Some d), r')
    ∧ get_job_status "job-1" r' = (Ret (Some "completed"), r').

Proof.
  intros d.
  destruct (@store_result_round_trip Ref.platform ref_loads_dumps ref_dumps_nonempty
              Ref.empty "job-1" d) as (r' & Hrun & Hget & Hst & _).
  - vm_compute. discriminate.
  - exists r'. split; [exact Hrun|]. split; [exact Hget|exact Hst].
Defined.

Lemma workers_by_quality_partition_witness :

  let r := (@register_worker Ref.platform "worker-1" "fast" (19 # 1)%Q Ref.empty).2 in
  ∃ hs fs ids,
    @get_workers_by_quality Ref.platform r = (Ret (hs, fs), r)
    ∧ get_active_workers r = (Ret ids, r)
    ∧ (∀ id, id ∈ hs ↔ @registered Ref.platform r id "high")
    ∧ (∀ id, id ∈ fs ↔ @registered Ref.platform r id "fast")
    ∧ (∀ id, ¬ (id ∈ hs ∧ id ∈ fs))
    ∧ (∀ id, id ∈ ids ↔ id ∈ hs ∨ id ∈ fs)
    ∧ length ids = (length hs + length fs)%nat.

Proof.
  intros r.
  apply (@workers_by_quality_partition Ref.platform ref_loads_dumps r).
  apply (@registry_ok_register Ref.platform Ref.empty "worker-1"
           "fast" (19 # 1)%Q).
  - exact ref_registry_empty.
  - reflexivity.
  - right. reflexivity.
Defined.

Lemma register_then_unregister_witness :

  ∃ r1 hs fs ids r2 hs' fs' ids',
    @register_worker Ref.platform "worker-1" "fast" (19 # 1)%Q Ref.empty = (Ret (), r1)
    ∧ @get_workers_by_quality Ref.platform r1 = (Ret (hs, fs), r1)
    ∧ get_active_workers r1 = (Ret ids, r1)
    ∧ ("worker-1" ∈ hs ↔ "fast" = "high")
    ∧ ("worker-1" ∈ fs ↔ "fast" = "fast")
    ∧ "worker-1" ∈ ids
    ∧ unregister_worker "worker-1" r1 = (Ret (), r2)
    ∧ @get_workers_by_quality Ref.platform r2 = (Ret (hs', fs'), r2)
    ∧ get_active_workers r2 = (Ret ids', r2)
    ∧ ("worker-1" ∉ hs') ∧ ("worker-1" ∉ fs') ∧ ("worker-1" ∉ ids').

Proof.
  apply (@register_then_unregister Ref.platform ref_loads_dumps Ref.empty
           "worker-1" "fast" (19 # 1)%Q).
  - exact ref_registry_empty.
  - reflexivity.
  - right. reflexivity.
Defined.

Lemma unknown_quality_breaks_grouping_witness :

  ∃ r1 ids,
    @register_worker Ref.platform "worker-9" "ultra" (19 # 1)%Q Ref.empty = (Ret (), r1)
    ∧ get_active_workers r1 = (Ret ids, r1)
    ∧ "worker-9" ∈ ids
    ∧ @get_workers_by_quality Ref.platform r1 = (Raise (PyError "KeyError" "'ultra'"), r1).

Proof.
  apply (@unknown_quality_breaks_grouping Ref.platform ref_loads_dumps Ref.empty
           "worker-9" "ultra" (19 # 1)%Q).
  - exact ref_registry_empty.
  - reflexivity.
  - discriminate.
  - discriminate.
Defined.

(** A server with one job of quality ["high"] in its queue, and one with a
    job of each quality. *)
Definition ref_queued : redis :=
  (@enqueue_job Ref.platform (Ref.job "job-1" "high") "high" Ref.empty).2.

Definition ref_queued_both : redis :=
  (@enqueue_job Ref.platform (Ref.job "job-2" "fast") "fast" ref_queued).2.

(** A job that carries no text. *)
Definition ref_job_without_text : gmap string (jval Q) :=
  delete "text" (Ref.job "job-3" "high").

Lemma turn_counts_the_job_witness :

  let job := Ref.job "job-1" "high" in
  ∃ self' r' m',
    @run_iteration Ref.platform Ref.worker Ref.externals (21 # 1)%Q ref_queued = (Ret self', r')
    ∧ get_metrics r' = (Ret m', r')
    ∧ @get_result Ref.platform "job-1" r'
      = (Ret (Some (@outcome_of Ref.platform Ref.externals job "xin chao")), r')
    ∧ counter m' "jobs_completed" = 1
    ∧ counter m' "jobs_failed" = 0.

Proof.
  intros job.
  destruct (@turn_counts_the_job Ref.platform ref_loads_dumps ref_dumps_nonempty
              Ref.worker Ref.externals (21 # 1)%Q ref_queued job "job-1"
              "xin chao" [] ∅)
    as (self' & r' & m' & Hrun & Hm & Hres & Hdone & _).
  - vm_compute. reflexivity.
  - vm_compute. reflexivity.
  - vm_compute. reflexivity.
  - vm_compute. reflexivity.
  - exists self', r', m'. split; [exact Hrun|]. split; [exact Hm|].
    split; [exact Hres|]. apply Hdone. vm_compute. reflexivity.
Defined.

Lemma turn_touches_only_its_job_witness :

  let job := Ref.job "job-1" "high" in
  ∃ self' r',
    @run_iteration Ref.platform Ref.worker Ref.externals (21 # 1)%Q ref_queued_both
    = (Ret self', r')
    ∧ @queue_holds Ref.platform r' JOBS_QUEUE_FAST [Ref.job "job-2" "fast"]
    ∧ @queue_holds Ref.platform r' JOBS_QUEUE_HIGH []
    ∧ get_job_status "job-2" r' = (Ret (Some "pending"), r')
    ∧ get_job_status "job-1" r' = (Ret (Some "completed"), r').

Proof.
  intros job.
  destruct (@turn_touches_only_its_job Ref.platform ref_loads_dumps
              ref_dumps_nonempty Ref.worker Ref.externals (21 # 1)%Q
              ref_queued_both job "job-1" "xin chao" [] ∅ "fast"
              [Ref.job "job-2" "fast"])
    as (self' & r' & Hrun & Hother & Hmine & Hids & _ & _ & Hst).
  - vm_compute. reflexivity.
  - vm_compute. reflexivity.
  - vm_compute. reflexivity.
  - vm_compute. reflexivity.
  - vm_compute. discriminate.
  - vm_compute. reflexivity.
  - exists self', r'. split; [exact Hrun|]. split; [exact Hother|].
    split; [exact Hmine|]. split; [|exact Hst].
    destruct (Hids "job-2") as [Hs _]; [discriminate|].
    unfold get_job_status, redis_get. rewrite Hs. vm_compute. reflexivity.
Defined.

Lemma job_without_text_is_dropped_witness :

  let r := (@enqueue_job Ref.platform ref_job_without_text "high" Ref.empty).2 in
  ∃ r', @run_iteration Ref.platform Ref.worker Ref.externals (21 # 1)%Q r
        = (Raise (PyError "KeyError" "'text'"), r')
    ∧ @queue_holds Ref.platform r' JOBS_QUEUE_HIGH []
    ∧ get_job_status "job-3" r' = (Ret (Some "pending"), r')
    ∧ @get_result Ref.platform "job-3" r' = (Ret None, r').

Proof.
  intros r.
  destruct (@job_without_text_is_dropped Ref.platform ref_loads_dumps
              Ref.worker Ref.externals (21 # 1)%Q r ref_job_without_text
              (JStr "job-3") [])
    as (r' & Hrun & Hq & _ & Hids).
  - vm_compute. reflexivity.
  - vm_compute. reflexivity.
  - vm_compute. reflexivity.
  - exists r'. split; [exact Hrun|]. split; [exact Hq|].
    destruct (Hids "job-3") as [Hs Hr].
    unfold get_job_status, get_result, bind, redis_get. rewrite Hs, Hr.
    split; vm_compute; reflexivity.
Defined.

Lemma loop_serves_in_order_witness :

  let jobs := [Ref.job "job-1" "high"; Ref.job "job-2" "high";
               Ref.job "job-3" "high"] in
  let turns := [(Ref.externals, (21 # 1)%Q); (Ref.externals_no_decoder, (25 # 1)%Q)] in
  let r := (@enqueue_all Ref.platform jobs "high" Ref.empty).2 in
  ∃ self' r',
    @run_loop Ref.platform Ref.worker turns r = (Ret self', r')
    ∧ @queue_holds Ref.platform r' JOBS_QUEUE_HIGH [Ref.job "job-3" "high"]
    ∧ result_writes r' = result_writes r ++ @results_of Ref.platform jobs turns.

Proof.
  intros jobs turns r.
  apply (@loop_serves_in_order Ref.platform ref_loads_dumps turns Ref.worker r
           jobs ∅).
  - vm_compute. reflexivity.
  - repeat constructor.
    + exists "job-1". vm_compute. reflexivity.
    + exists "xin chao". vm_compute. reflexivity.
    + exists "job-2". vm_compute. reflexivity.
    + exists "xin chao". vm_compute. reflexivity.
    + exists "job-3". vm_compute. reflexivity.
    + exists "xin chao". vm_compute. reflexivity.
  - vm_compute. reflexivity.
Defined.

Lemma key_lifecycle_witness :

  ∃ r1 r2 r3,
    @create_key Ref.platform "alice" Ref.token (3 # 1)%Q Ref.empty
    = (Ret ("vvtts_" +:+ Ref.token,
            @mkAPIKeyInfo Ref.platform (JStr "99999999") (JStr "alice") (JFloat (3 # 1)%Q)
              (JInt 0) (JFloat 0%Q)), r1)
    ∧ @increment_usage Ref.platform "99999999" (5 # 2)%Q r1 = (Ret (), r2)
    ∧ @validate_key Ref.platform ("vvtts_" +:+ Ref.token) r2
      = (Ret (Some (@mkAPIKeyInfo Ref.platform (JStr "99999999") (JStr "alice")
                      (JFloat (3 # 1)%Q) (JInt 1) (JFloat (0 + (5 # 2))%Q))), r2)
    ∧ delete_key "99999999" r2 = (Ret true, r3)
    ∧ @validate_key Ref.platform ("vvtts_" +:+ Ref.token) r3 = (Ret None, r3)
    ∧ delete_key "99999999" r3 = (Ret false, r3).

Proof.
  apply (@key_lifecycle Ref.platform ref_loads_dumps ref_dumps_nonempty Ref.empty
           "alice" Ref.token (3 # 1)%Q (5 # 2)%Q).
  reflexivity.
Defined.

(** [<] on the rationals. *)
Definition ref_flt (a b : Q) : bool := negb (Qle_bool b a).

Lemma ref_flt_asym a b : ref_flt a b = true → ref_flt b a = false.
Proof.
  unfold ref_flt. intros Hab%negb_true_iff. apply negb_false_iff.
  apply Qle_bool_iff. destruct (Qlt_le_dec b a) as [Hlt|Hle].
  - apply Qlt_le_weak in Hlt. apply Qle_bool_iff in Hlt. congruence.
  - done.
Qed.

Lemma ref_flt_trans a b c :
  ref_flt a b = false → ref_flt b c = false → ref_flt a c = false.
Proof.
  unfold ref_flt. intros Hab%negb_false_iff Hbc%negb_false_iff.
  apply negb_false_iff. apply Qle_bool_iff.
  apply Qle_bool_iff in Hab, Hbc. by apply (Qle_trans _ b).
Qed.

(** A world whose clock advances by a tenth of a second at each reading and
    in which the worker of the sample data runs one turn during the first
    sleep; a world in which nothing happens and the clock advances by
    fifty seconds at each reading. *)
Definition ref_world : @World Ref.platform :=
  @mkWorld Ref.platform (λ i, (Z.of_nat i # 10)%Q)
    (λ i x, match i with
            | O => (@run_iteration Ref.platform Ref.worker Ref.externals
                      (21 # 1)%Q x).2
            | S _ => x
            end).

Definition ref_idle_world : @World Ref.platform :=
  @mkWorld Ref.platform (λ i, (50 * Z.of_nat i # 1)%Q) (λ _ x, x).

(** An engine that returns no audio at all. *)
Definition ref_silent_externals : @Externals Ref.platform :=
  @mkExternals Ref.platform (λ _, Ret "/tmp/ref.wav")
    (λ _ _ _ _ _ _, Ret ([], 0%Q)) (20 # 1)%Q (23 # 1)%Q (23 # 1)%Q.

Definition ref_silent_world : @World Ref.platform :=
  @mkWorld Ref.platform (λ i, (Z.of_nat i # 10)%Q)
    (λ i x, match i with
            | O => (@run_iteration Ref.platform Ref.worker ref_silent_externals
                      (21 # 1)%Q x).2
            | S _ => x
            end).

Definition ref_riff : list Byte.byte := [Byte.x52; Byte.x49; Byte.x46; Byte.x46].

Lemma wait_returns_first_result_witness :

  @wait_for_result Ref.platform ref_flt 5 ref_world "job-1" (120 # 1)%Q ref_queued
  = (Ret (Some (Some (@outcome_of Ref.platform Ref.externals (Ref.job "job-1" "high") "xin chao"))),
     @store_at Ref.platform ref_world ref_queued 1).

Proof.
  destruct (@wait_returns_first_result Ref.platform ref_flt ref_loads_dumps
              ref_dumps_nonempty ref_world "job-1" (120 # 1)%Q ref_queued 1%nat
              5%nat) as [Hfound _].
  - lia.
  - intros j Hj. assert (j = 0%nat) as -> by lia.
    split; [vm_compute; reflexivity|]. exists None.
    split; vm_compute; reflexivity.
  - apply Hfound.
    + vm_compute. reflexivity.
    + exists (Some 300). vm_compute. reflexivity.
    + vm_compute. discriminate.
Defined.

Lemma synthesize_answers_with_worker_audio_witness :

  ∃ r', @synthesize Ref.platform ref_flt (Ref.request "high") None "job-1" (17 # 1)%Q 5
          ref_world Ref.empty
        = (Ret (Some (mkResponse ref_riff "audio/wav"
              [("X-Job-Id", "job-1");
               ("X-Generation-Time", Ref.Qrepr (Ref.Qround3 ((23 # 1) - (20 # 1))%Q));
               ("X-Audio-Duration", Ref.Qrepr (Ref.Qround3 (5 # 2)%Q));
               ("X-Queue-Position", pretty 1)])), r')
    ∧ get_job_status "job-1" r' = (Ret (Some "completed"), r').

Proof.
  destruct (@synthesize_answers_with_worker_audio Ref.platform ref_flt
              ref_loads_dumps ref_dumps_nonempty ref_b64_round_trip
              (Ref.request "high") "job-1" (17 # 1)%Q ref_world Ref.worker
              Ref.externals (21 # 1)%Q 5%nat Ref.empty ∅) as [Haudio _].
  - discriminate.
  - vm_compute. reflexivity.
  - vm_compute. reflexivity.
  - vm_compute. reflexivity.
  - split; [reflexivity|]. split; [vm_compute; reflexivity|].
    split; [vm_compute; reflexivity|]. intros x. reflexivity.
  - lia.
  - apply (Haudio None ref_riff (5 # 2)%Q); vm_compute; reflexivity.
Defined.

Lemma synthesize_charges_the_key_witness :

  let info := @mkAPIKeyInfo Ref.platform (JStr "99999999") (JStr "alice") (JFloat (3 # 1)%Q)
                (JInt 0) (JFloat 0%Q) in
  let d := @key_record Ref.platform "99999999" ("vvtts_" +:+ Ref.token) "alice" (3 # 1)%Q in
  (∃ resp r', @synthesize Ref.platform ref_flt (Ref.request "high") (Some info) "job-1"
                (17 # 1)%Q 5 ref_world Ref.with_key = (Ret (Some resp), r')
     ∧ content resp = ref_riff
     ∧ db r' !! "apikey:99999999"
       = Some (RString (Ref.write_dict (@charged Ref.platform d 0 0%Q (Ref.Qround3 (5 # 2)%Q)))
                 None))
  ∧ (∃ msg r', @synthesize Ref.platform ref_flt (Ref.request "high") (Some info) "job-1"
                 (17 # 1)%Q 5 ref_silent_world Ref.with_key
               = (Raise (PyError "TypeError" msg), r')
     ∧ db r' !! "apikey:99999999" = db Ref.with_key !! "apikey:99999999").

Proof.
  intros info d. split.
  - destruct (@synthesize_charges_the_key Ref.platform ref_flt
                ref_loads_dumps ref_dumps_nonempty ref_b64_round_trip
                (Ref.request "high") info "job-1" (17 # 1)%Q ref_world Ref.worker
                Ref.externals (21 # 1)%Q 5%nat Ref.with_key ∅ d None 0 0%Q)
      as [Hcharge _].
    + discriminate.
    + vm_compute. reflexivity.
    + vm_compute. reflexivity.
    + vm_compute. reflexivity.
    + split; [reflexivity|]. split; [vm_compute; reflexivity|].
      split; [vm_compute; reflexivity|]. intros x. reflexivity.
    + lia.
    + vm_compute. reflexivity.
    + vm_compute. reflexivity.
    + vm_compute. reflexivity.
    + destruct (Hcharge None ref_riff (5 # 2)%Q) as (resp & r' & Hrun & Hc & Hrec);
        [vm_compute; reflexivity..|].
      exists resp, r'. split; [exact Hrun|]. split; [exact Hc|exact Hrec].
  - destruct (@synthesize_charges_the_key Ref.platform ref_flt
                ref_loads_dumps ref_dumps_nonempty ref_b64_round_trip
                (Ref.request "high") info "job-1" (17 # 1)%Q ref_silent_world
                Ref.worker ref_silent_externals (21 # 1)%Q 5%nat Ref.with_key ∅
                d None 0 0%Q)
      as (_ & Hsilent & _).
    + discriminate.
    + vm_compute. reflexivity.
    + vm_compute. reflexivity.
    + vm_compute. reflexivity.
    + split; [reflexivity|]. split; [vm_compute; reflexivity|].
      split; [vm_compute; reflexivity|]. intros x. reflexivity.
    + lia.
    + vm_compute. reflexivity.
    + vm_compute. reflexivity.
    + vm_compute. reflexivity.
    + destruct (Hsilent None [] 0%Q) as (msg & r' & Hrun & Hrec & _);
        [vm_compute; reflexivity..|].
      exists msg, r'. split; [exact Hrun|exact Hrec].
Defined.

Lemma synthesize_times_out_witness :

  ∃ r', @synthesize Ref.platform ref_flt (Ref.request "high") None "job-1" (17 # 1)%Q 5
          ref_idle_world Ref.empty
        = (Raise (HTTPException 408 "Synthesis timeout - try again later"), r')
    ∧ @queue_holds Ref.platform r' JOBS_QUEUE_HIGH [Ref.job "job-1" "high"]
    ∧ @result_stored Ref.platform r' "job-1" None.

Proof.
  apply (@synthesize_times_out Ref.platform ref_flt ref_loads_dumps
           ref_dumps_nonempty (Ref.request "high") None "job-1" (17 # 1)%Q
           ref_idle_world 5%nat Ref.empty [] 2%nat).
  - discriminate.
  - vm_compute. reflexivity.
  - vm_compute. reflexivity.
  - intros i x. reflexivity.
  - intros i x. reflexivity.
  - intros j Hj. destruct j as [|[|j]]; [vm_compute; reflexivity..|lia].
  - vm_compute. reflexivity.
  - lia.
Defined.

Lemma ref_registry_queued : @registry_ok Ref.platform ref_queued.
Proof. intros key Hin. vm_compute in Hin. by apply elem_of_nil in Hin. Qed.

Lemma ref_keys_empty : @keys_from Ref.platform Ref.empty [].
Proof. intros kid v Hv. unfold Ref.empty in Hv. cbn [db] in Hv. by rewrite lookup_empty in Hv. Qed.

Lemma ref_keys_with_key :
  @keys_from Ref.platform Ref.with_key ["vvtts_" +:+ Ref.token].
Proof.
  apply (@keys_from_create Ref.platform Ref.empty [] "alice" Ref.token (3 # 1)%Q).
  exact ref_keys_empty.
Qed.

Lemma health_is_consistent_witness :

  let r := (@register_worker Ref.platform "worker-1" "fast" (19 # 1)%Q ref_queued).2 in
  ∃ resp, @health Ref.platform true r = (Ret resp, r)
    ∧ health_status resp = "healthy"
    ∧ health_queue_size resp = 1
    ∧ workers_active resp = Z.of_nat (length (workers_ids resp))
    ∧ workers_active resp
      = Z.of_nat (length (workers_by_quality resp).1
                  + length (workers_by_quality resp).2)
    ∧ health_metrics resp = None.

Proof.
  intros r.
  destruct (@health_is_consistent Ref.platform ref_loads_dumps true r
              [Ref.job "job-1" "high"] [] ∅)
    as (resp & Hrun & Hst & _ & Hsize & Hact & Hby & Hnone & _).
  - apply (@registry_ok_register Ref.platform ref_queued "worker-1" "fast"
             (19 # 1)%Q).
    + exact ref_registry_queued.
    + reflexivity.
    + right. reflexivity.
  - vm_compute. reflexivity.
  - vm_compute. reflexivity.
  - vm_compute. reflexivity.
  - exists resp. split; [exact Hrun|]. split; [exact Hst|]. split; [exact Hsize|].
    split; [exact Hact|]. split; [exact Hby|]. by apply Hnone.
Defined.

Lemma async_job_life_cycle_witness :

  ∃ resp r1 self' r2,
    @synthesize_async Ref.platform (Ref.request "high") None "job-1" (17 # 1)%Q Ref.empty
    = (Ret resp, r1)
    ∧ @async_queue_position Ref.platform resp = 1
    ∧ @get_job_status_endpoint Ref.platform "job-1" r1
      = (Ret (@mkJobStatusResponse Ref.platform "job-1" PENDING (Some 0) None None None), r1)
    ∧ @run_iteration Ref.platform Ref.worker Ref.externals (21 # 1)%Q r1 = (Ret self', r2)
    ∧ @get_job_status_endpoint Ref.platform "job-1" r2
      = (Ret (@mkJobStatusResponse Ref.platform "job-1" COMPLETED None
                (Some "/job/job-1/audio")
                (Some (JFloat (Ref.Qround3 ((23 # 1) - (20 # 1))%Q))) None), r2)
    ∧ ∃ hdrs, @get_job_audio Ref.platform "job-1" r2
              = (Ret (mkResponse ref_riff "audio/wav" hdrs), r2).

Proof.
  destruct (@async_job_life_cycle Ref.platform ref_loads_dumps ref_dumps_nonempty
              ref_b64_round_trip (Ref.request "high") "job-1" (17 # 1)%Q
              Ref.worker Ref.externals (21 # 1)%Q Ref.empty ∅)
    as (resp & r1 & self' & r2 & Hsub & _ & _ & Hpos & Hpending & _ & Hrun
        & Hdone & _).
  - reflexivity.
  - reflexivity.
  - vm_compute. reflexivity.
  - vm_compute. reflexivity.
  - vm_compute. reflexivity.
  - destruct (Hdone None ref_riff (5 # 2)%Q) as [Hst Haudio];
      [vm_compute; reflexivity..|].
    exists resp, r1, self', r2. split; [exact Hsub|]. split; [exact Hpos|].
    split; [exact Hpending|]. split; [exact Hrun|]. split; [exact Hst|exact Haudio].
Defined.

(** Four unnamed samples and a named one. *)
Definition ref_samples : list (@Sample Ref.platform) :=
  [@mkSample Ref.platform "s1" None "mot" (1 # 1)%Q false;
   @mkSample Ref.platform "s2" (Some "giong me") "hai" (2 # 1)%Q true;
   @mkSample Ref.platform "s3" None "ba" (5 # 1)%Q false;
   @mkSample Ref.platform "s4" None "bon" (3 # 1)%Q false;
   @mkSample Ref.platform "s5" None "nam" (4 # 1)%Q false].

Lemma cleanup_keeps_newest_defaults_witness :

  (@_cleanup_old_default_samples Ref.platform ref_flt ref_samples).2 = ["s1"]
  ∧ ∃ kept_unnamed dropped,
      (@_cleanup_old_default_samples Ref.platform ref_flt ref_samples).1
      = filter (λ s, @sample_is_named Ref.platform s = true) ref_samples
        ++ kept_unnamed
      ∧ (@_cleanup_old_default_samples Ref.platform ref_flt ref_samples).2
        = map (@sample_id Ref.platform) dropped
      ∧ kept_unnamed ++ dropped
        ≡ₚ filter (λ s, @sample_is_named Ref.platform s = false) ref_samples
      ∧ length kept_unnamed
        = (length (filter (λ s, @sample_is_named Ref.platform s = false) ref_samples)
           `min` MAX_DEFAULT_SAMPLES)%nat
      ∧ (∀ k d, k ∈ kept_unnamed → d ∈ dropped → @not_newer Ref.platform ref_flt d k).

Proof.
  split; [vm_compute; reflexivity|].
  apply (@cleanup_keeps_newest_defaults Ref.platform ref_flt ref_flt_asym
           ref_flt_trans ref_samples).
Defined.

Lemma loaded_reference_status_order_witness :

  ∃ r1 r2 self' final,
    @enqueue_job Ref.platform (Ref.cloning_job "job-7") "high" Ref.empty = (Ret (), r1)
    ∧ @run_iteration Ref.platform Ref.worker Ref.externals (21 # 1)%Q r1 = (Ret self', r2)
    ∧ status_writes "job-7" r2
      = status_writes "job-7" Ref.empty ++ ["pending"; "processing"; final]
    ∧ (final = "completed" ∨ final = "error")
    ∧ get_job_status "job-7" r2 = (Ret (Some final), r2).

Proof.
  apply (@loaded_reference_status_order Ref.platform ref_loads_dumps
           Ref.worker Ref.externals (21 # 1)%Q Ref.empty "high"
           (Ref.cloning_job "job-7") "job-7" "xin chao" (Some "/tmp/ref.wav")).
  - reflexivity.
  - vm_compute. reflexivity.
  - left. reflexivity.
  - vm_compute. reflexivity.
  - vm_compute. reflexivity.
  - vm_compute. reflexivity.
Defined.

Lemma verify_api_key_on_created_keys_witness :

  let request := mkRequest (Some "203.0.113.7") None in
  let key := Some "vvtts_not-a-key" in
  @verify_api_key Ref.platform request key None Ref.with_key = (Ret None, Ref.with_key)
  ∨ (∃ info, @verify_api_key Ref.platform request key None Ref.with_key
             = (Ret (Some info), Ref.with_key))
  ∨ @verify_api_key Ref.platform request key None Ref.with_key
    = (Raise (HTTPException 401 MSG_KEY_REQUIRED), Ref.with_key)
  ∨ @verify_api_key Ref.platform request key None Ref.with_key
    = (Raise (HTTPException 401 MSG_KEY_INVALID), Ref.with_key).

Proof.
  intros request key.
  apply (@verify_api_key_on_created_keys Ref.platform ref_loads_dumps
           ref_dumps_nonempty request key None Ref.with_key
           ["vvtts_" +:+ Ref.token]).
  exact ref_keys_with_key.
Defined.

Lemma created_keys_invariant_witness :

  @keys_from Ref.platform (@create_key Ref.platform "bob" "0123456789abcdef0123456789abcdef" (4 # 1)%Q
               Ref.with_key).2
    ["vvtts_0123456789abcdef0123456789abcdef"; "vvtts_" +:+ Ref.token]
  ∧ @keys_from Ref.platform (@increment_usage Ref.platform "99999999" (5 # 2)%Q Ref.with_key).2
      ["vvtts_" +:+ Ref.token]
  ∧ @keys_from Ref.platform (delete_key "99999999" Ref.with_key).2 ["vvtts_" +:+ Ref.token].

Proof.
  destruct (@created_keys_invariant Ref.platform ref_loads_dumps
              ref_dumps_nonempty Ref.with_key ["vvtts_" +:+ Ref.token] "bob"
              "0123456789abcdef0123456789abcdef" (4 # 1)%Q "99999999" (5 # 2)%Q)
    as (Hcreate & _ & Hinc & Hdel).
  - exact ref_keys_with_key.
  - split; [exact Hcreate|]. split; [exact Hinc|exact Hdel].
Defined.

Lemma gate_admits_only_created_keys_witness :
  let info := @mkAPIKeyInfo Ref.platform (JStr "99999999") (JStr "alice")
                (JFloat (3 # 1)%Q) (JInt 0) (JFloat 0%Q) in
  ∃ key secret,
    spec_request_key None (Some ("vvtts_" +:+ Ref.token)) key
    ∧ secret ∈ ["vvtts_" +:+ Ref.token]
    ∧ Ref.digest secret = Ref.digest key
    ∧ @validate_key Ref.platform key Ref.with_key = (Ret (Some info), Ref.with_key).
Proof.
  intros info.
  destruct (@gate_admits_only_created_keys Ref.platform ref_loads_dumps
              ref_dumps_nonempty (mkRequest (Some "203.0.113.7") None) None
              (Some ("vvtts_" +:+ Ref.token)) Ref.with_key
              ["vvtts_" +:+ Ref.token] info Ref.with_key)
    as [_ (key & secret & Hkey & Hin & Hdig & Hval & _)].
  - exact ref_keys_with_key.
  - intros [(h & [= <-] & [Hl|[Hl|Hl]])|(f & first & ip & [=] & _)];
      discriminate Hl.
  - vm_compute. reflexivity.
  - exists key, secret. split; [exact Hkey|]. split; [exact Hin|].
    split; [exact Hdig|exact Hval].
Defined.

(** C2 as it is stated fails for a request from elsewhere that carries a
    stale key in its X-API-Key header and a valid one in its [api_key]
    parameter: a key supplied via the parameter validates, and the request
    is refused, because the header is the key that is validated. *)
Lemma stale_header_counterexample :
  let request := mkRequest (Some "203.0.113.7") None in
  let valid := "vvtts_" +:+ Ref.token in
  ¬ spec_local request
  ∧ (∃ info, @validate_key Ref.platform valid Ref.with_key
             = (Ret (Some info), Ref.with_key))
  ∧ @verify_api_key Ref.platform request (Some "stale") (Some valid) Ref.with_key
    = (Raise (HTTPException 401 "Invalid API key."), Ref.with_key)
  ∧ (∃ info, @verify_api_key Ref.platform request None (Some valid) Ref.with_key
             = (Ret (Some info), Ref.with_key)).
Proof.
  intros request valid. split; [|split; [|split]].
  - intros [(h & [= <-] & [Hl|[Hl|Hl]])|(f & first & ip & [=] & _)];
      discriminate Hl.
  - eexists. vm_compute. reflexivity.
  - vm_compute. reflexivity.
  - eexists. vm_compute. reflexivity.
Defined.

(* ===================================================================== *)
(** * Where a quality that is not ["fast"] goes *)
(* ===================================================================== *)

Section Quality.
Context `{Platform}.

Hypothesis loads_dumps : ∀ d : dict, json_loads (json_dumps d) = Some d.

(** C10. A quality other than ["fast"], whatever the string is, selects
    the list [tts:jobs:high]. With it [enqueue_job] returns and leaves the
    job at the back of that list, and the list [tts:jobs:fast] as it was;
    [dequeue_job] returns the oldest job of [tts:jobs:high], or [None]
    when it is empty, and takes nothing from [tts:jobs:fast]. A worker
    built in the main thread with a quality that has no preset, and
    without an NFE override, is a ["high"] worker with the preset of
    ["high"], 32. *)
Theorem other_quality_is_high quality :
  quality ≠ "fast" →
  _get_queue_key quality = "tts:jobs:high"
  ∧ (∀ r (job : dict) v (highs fasts : list dict),
       queue_holds r "tts:jobs:high" highs →
       queue_holds r "tts:jobs:fast" fasts →
       job !! "job_id" = Some v →
       ∃ r', enqueue_job job quality r = (Ret (), r')
         ∧ queue_holds r' "tts:jobs:high" (highs ++ [job])
         ∧ queue_holds r' "tts:jobs:fast" fasts)
  ∧ (∀ r timeout (highs fasts : list dict),
       0 < timeout →
       queue_holds r "tts:jobs:high" highs →
       queue_holds r "tts:jobs:fast" fasts →
       ∃ r', dequeue_job quality timeout r = (Ret (head highs), r')
         ∧ queue_holds r' "tts:jobs:high" (tail highs)
         ∧ queue_holds r' "tts:jobs:fast" fasts)
  ∧ (quality ≠ "high" →
     ∀ worker_id redis_url heartbeat_interval uuid_hex r,
       ∃ w, TTSWorker_init worker_id redis_url quality None
              heartbeat_interval uuid_hex true r = (Ret w, r)
            ∧ self_quality w = "high" ∧ self_nfe_steps w = 32).
Proof.
  intros Hfast.
  assert (_get_queue_key quality = "tts:jobs:high") as Hkey.
  { unfold _get_queue_key. by destruct (String.eqb_spec quality QUALITY_FAST). }
  split; [done|]. split; [|split].
  - intros r job v highs fasts Hh Hf Hid. rewrite <- Hkey in Hh.
    destruct (enqueue_job_spec r quality highs job v Hh Hid)
      as (r' & Hrun & Hq & _ & _ & Hframe).
    exists r'. split; [done|]. rewrite Hkey in Hq. split; [done|].
    apply (queue_holds_lookup r); [|done]. apply Hframe.
    + by rewrite Hkey.
    + intros Heq. symmetry in Heq. by apply (status_ne_queue _ "fast") in Heq.
  - intros r timeout highs fasts _ Hh Hf. rewrite <- Hkey in Hh.
    destruct highs as [|job rest].
    + exists r. rewrite (dequeue_job_none r quality timeout Hh).
      split; [done|]. by rewrite <- Hkey at 1.
    + destruct (dequeue_job_some loads_dumps r quality timeout job rest Hh)
        as (r' & Hrun & Hq & _ & Hframe).
      exists r'. split; [done|]. rewrite Hkey in Hq. split; [done|].
      apply (queue_holds_lookup r); [|done]. apply Hframe. by rewrite Hkey.
  - intros Hhigh worker_id redis_url heartbeat_interval uuid_hex r.
    assert (preset_lookup QUALITY_PRESETS quality = None) as Hnone.
    { unfold QUALITY_PRESETS. cbn [preset_lookup].
      destruct (String.eqb_spec "high" quality) as [<-|_]; [done|].
      by destruct (String.eqb_spec "fast" quality) as [<-|_]. }
    unfold TTSWorker_init. rewrite Hnone.
    change (preset_lookup QUALITY_PRESETS "high") with (Some 32).
    eexists. unfold bind, ret. cbn. done.
Qed.

End Quality.

Lemma other_quality_is_high_witness :
  let r := (@enqueue_job Ref.platform (Ref.job "job-2" "fast") "fast"
              Ref.empty).2 in
  _get_queue_key "ultra" = "tts:jobs:high"
  ∧ (∃ r1, @enqueue_job Ref.platform (Ref.job "job-1" "ultra") "ultra" r
           = (Ret (), r1)
       ∧ @queue_holds Ref.platform r1 "tts:jobs:high" [Ref.job "job-1" "ultra"]
       ∧ @queue_holds Ref.platform r1 "tts:jobs:fast" [Ref.job "job-2" "fast"]
       ∧ ∃ r2, @dequeue_job Ref.platform "ultra" 5 r1
               = (Ret (Some (Ref.job "job-1" "ultra")), r2)
           ∧ @queue_holds Ref.platform r2 "tts:jobs:high" []
           ∧ @queue_holds Ref.platform r2 "tts:jobs:fast" [Ref.job "job-2" "fast"])
  ∧ ∃ w, @TTSWorker_init Ref.platform None "redis://localhost:6379/0" "ultra"
           None 30 "0123456789abcdef0123456789abcdef" true Ref.empty
         = (Ret w, Ref.empty)
       ∧ self_quality w = "high" ∧ self_nfe_steps w = 32.
Proof.
  intros r.
  destruct (@other_quality_is_high Ref.platform ref_loads_dumps "ultra")
    as (Hkey & Henq & Hdeq & Hinit); [discriminate|].
  split; [exact Hkey|]. split.
  - destruct (Henq r (Ref.job "job-1" "ultra") (JStr "job-1") []
                [Ref.job "job-2" "fast"])
      as (r1 & Hrun & Hh & Hf); [vm_compute; reflexivity..|].
    exists r1. split; [exact Hrun|]. split; [exact Hh|]. split; [exact Hf|].
    destruct (Hdeq r1 5 [Ref.job "job-1" "ultra"] [Ref.job "job-2" "fast"])
      as (r2 & Hrun2 & Hh2 & Hf2); [reflexivity|exact Hh|exact Hf|].
    exists r2. split; [exact Hrun2|]. split; [exact Hh2|exact Hf2].
  - apply Hinit. discriminate.
Defined.
